(** * PayStream: stream ledger, treasury vault and their accrual rules

    A shallow embedding of [contracts/StreamManager.sol],
    [contracts/YieldVault.sol] and [contracts/TaxVault.sol].  Unsigned
    Solidity integers are values of [N]; every checked operation of
    Solidity 0.8 that would overflow or underflow reverts with [Panic].  A
    call either returns a new world or reverts; a reverted transaction
    leaves the world as it was. *)

From Stdlib Require Import NArith List Bool Lia.
From stdpp Require Import base option gmap.
Import ListNotations.

Local Open Scope N_scope.

(** ** Errors, results and checked arithmetic *)

Definition address := N.

Inductive error : Type :=
  (* StreamManager custom errors *)
  | ZeroAddress
  | ZeroAmount
  | StreamInactive (streamId : N)
  | InvalidRate (rate : N)
  | InvalidTaxBps (taxBps : N)
  | TransferFailed
  | SignatureExpired
  | InvalidNonce
  | InvalidSignature
  | InsufficientSponsorship
  | NothingToWithdraw
  | InvalidBatchSize
  | ReleaseInPast
  | AlreadyPaused (streamId : N)
  | NotPaused (streamId : N)
  (* YieldVault custom errors and require failures *)
  | InsufficientBalance (requested available : N)
  | RateTooHigh (bps : N)
  | VaultTransferFailed
  | VaultTransferFromFailed
  (* Ownable, the token, ECDSA, and arithmetic panics *)
  | CallerIsNotTheOwner
  | NewOwnerIsTheZeroAddress
  | ERC20ZeroAddress
  | ERC20InsufficientBalance
  | ERC20InsufficientAllowance
  | ECDSAInvalidSignature
  | Panic.

Inductive result (A : Type) : Type :=
  | Ok (a : A)
  | Revert (e : error).

Arguments Ok {A} a.
Arguments Revert {A} e.

Definition bind {A B : Type} (r : result A) (k : A -> result B) : result B :=
  match r with
  | Ok a => k a
  | Revert e => Revert e
  end.

Notation "'let*' x ':=' c 'in' k" := (bind c (fun x => k))
  (at level 10, x name, c at level 100, k at level 200).
Notation "c ';;' k" := (bind c (fun _ => k))
  (at level 100, k at level 200, right associativity).

(** [if (c) revert e;] *)
Definition revert_if (c : bool) (e : error) : result unit :=
  if c then Revert e else Ok tt.

Definition is_revert {A : Type} (r : result A) : Prop :=
  match r with
  | Ok _ => False
  | Revert _ => True
  end.

Definition map_result {A B : Type} (f : A -> B) (r : result A) : result B :=
  match r with
  | Ok a => Ok (f a)
  | Revert e => Revert e
  end.

Definition MAX_UINT256 : N := 2 ^ 256 - 1.

Definition checked_add (a b : N) : result N :=
  if a + b <=? MAX_UINT256 then Ok (a + b) else Revert Panic.

Definition checked_sub (a b : N) : result N :=
  if b <=? a then Ok (a - b) else Revert Panic.

Definition checked_mul (a b : N) : result N :=
  if a * b <=? MAX_UINT256 then Ok (a * b) else Revert Panic.

Definition checked_div (a b : N) : result N :=
  if b =? 0 then Revert Panic else Ok (a / b).

(** The explicit conversion [uint64(x)] keeps the low 64 bits. *)
Definition uint64 (x : N) : N := x mod 2 ^ 64.

(** ** Events *)

Inductive event : Type :=
  (* HLUSD *)
  | Transfer (from to : address) (value : N)
  | Approval (owner spender : address) (value : N)
  (* YieldVault *)
  | Deposit (from : address) (amount : N)
  | Withdraw (to : address) (amount : N)
  | YieldUpdated (newYield totalAccumulated : N)
  | YieldRateChanged (oldBps newBps : N)
  (* StreamManager *)
  | TreasuryDeposited (from : address) (amount : N)
  | SponsorshipDeposited (from : address) (amount : N)
  | StreamCreated (id : N) (employee : address)
  | Withdrawn (id : N) (to : address) (gross tax net : N)
  | WithdrawnSigned (id : N) (employee relayer : address) (relayerFee : N)
  | BonusScheduled (id amount releaseTime : N)
  | StreamPaused (id : N)
  | StreamResumed (id : N)
  | StreamCancelled (id : N)
  (* Ownable *)
  | OwnershipTransferred (previousOwner newOwner : address).

(** The token movements recorded in a list of events, as
    (from, to, value) triples in the order they happened. *)
Fixpoint transfers_of (evs : list event) : list (address * address * N) :=
  match evs with
  | [] => []
  | Transfer from to value :: rest => (from, to, value) :: transfers_of rest
  | _ :: rest => transfers_of rest
  end.

(** ** The HLUSD token *)

Module HLUSD.

(** Modelled from the spec: the external ledger that exposes balance
    transfers.  HLUSD is an ERC-20 token reached through [IERC20]; its
    code (OpenZeppelin's [ERC20], which [HLUSDMock] extends) is not part of
    the repository.  A transfer moves the balance or reverts; it never
    returns [false]. *)
Record state : Type := mk {
  balances : gmap N N;
  allowances : gmap (N * N) N
}.

(** Modelled from the spec: [balanceOf] and [allowance] of the token; an
    account never written holds zero. *)
Definition balanceOf (t : state) (account : address) : N :=
  default 0 (balances t !! account).

Definition allowance (t : state) (owner spender : address) : N :=
  default 0 (allowances t !! (owner, spender)).

(** Modelled from the spec: a balance transfer of the token; it reverts
    on the zero address and on a balance that is too small. *)
Definition _transfer (from to : address) (amount : N) (t : state)
  : result state :=
  revert_if (from =? 0) ERC20ZeroAddress ;;
  revert_if (to =? 0) ERC20ZeroAddress ;;
  let fromBalance := balanceOf t from in
  revert_if (fromBalance <? amount) ERC20InsufficientBalance ;;
  let t1 := mk (<[from := fromBalance - amount]> (balances t)) (allowances t) in
  let* toBalance := checked_add (balanceOf t1 to) amount in
  Ok (mk (<[to := toBalance]> (balances t1)) (allowances t1)).

(** Modelled from the spec: the allowance an owner grants a spender. *)
Definition _approve (owner spender : address) (amount : N) (t : state)
  : result state :=
  revert_if (owner =? 0) ERC20ZeroAddress ;;
  revert_if (spender =? 0) ERC20ZeroAddress ;;
  Ok (mk (balances t) (<[(owner, spender) := amount]> (allowances t))).

(** Modelled from the spec: the allowance a [transferFrom] uses up; an
    unlimited allowance stays as it is. *)
Definition _spendAllowance (owner spender : address) (amount : N) (t : state)
  : result (state * list event) :=
  let currentAllowance := allowance t owner spender in
  if currentAllowance =? MAX_UINT256 then Ok (t, [])
  else
    revert_if (currentAllowance <? amount) ERC20InsufficientAllowance ;;
    let* t1 := _approve owner spender (currentAllowance - amount) t in
    Ok (t1, [Approval owner spender (currentAllowance - amount)]).

End HLUSD.

(** ** Contract storage *)

(** [struct Stream] of StreamManager. *)
Record Stream : Type := mkStream {
  employee : address;
  ratePerSecond : N;
  lastCheckpoint : N;
  taxBps : N;
  active : bool;
  paused : bool;
  bonusAmount : N;
  bonusReleaseTime : N;
  bonusClaimed : bool
}.

(** [struct StreamInput] of StreamManager. *)
Record StreamInput : Type := mkStreamInput {
  in_employee : address;
  in_ratePerSecond : N;
  in_taxBps : N
}.

(** The value a Solidity mapping holds at a key never written. *)
Definition zeroStream : Stream :=
  mkStream 0 0 0 0 false false 0 0 false.

(** Storage of YieldVault, with its own address and its Ownable owner. *)
Record VaultState : Type := mkVault {
  v_self : address;
  v_owner : address;
  totalPrincipal : N;
  yieldRateBps : N;
  lastUpdate : N;
  accumulatedYield : N
}.

(** Storage of StreamManager, with its own address and its Ownable owner.
    The [yieldVault] reference of the contract is the vault of the world. *)
Record ManagerState : Type := mkManager {
  m_self : address;
  m_owner : address;
  taxVault : address;
  nextStreamId : N;
  sponsorshipPool : N;
  streams : gmap N Stream;
  nonces : gmap N N;
  DOMAIN_SEPARATOR : N
}.

Record World : Type := mkWorld {
  hlusd : HLUSD.state;
  vault : VaultState;
  manager : ManagerState;
  events : list event
}.

Definition stream_at (w : World) (streamId : N) : Stream :=
  default zeroStream (streams (manager w) !! streamId).

Definition nonce_of (w : World) (who : address) : N :=
  default 0 (nonces (manager w) !! who).

(** *** Storage writes *)

Definition set_hlusd (t : HLUSD.state) (w : World) : World :=
  mkWorld t (vault w) (manager w) (events w).

Definition set_vault (v : VaultState) (w : World) : World :=
  mkWorld (hlusd w) v (manager w) (events w).

Definition set_manager (m : ManagerState) (w : World) : World :=
  mkWorld (hlusd w) (vault w) m (events w).

Definition emit (evs : list event) (w : World) : World :=
  mkWorld (hlusd w) (vault w) (manager w) (events w ++ evs).

Definition set_totalPrincipal (x : N) (v : VaultState) : VaultState :=
  mkVault (v_self v) (v_owner v) x (yieldRateBps v) (lastUpdate v)
    (accumulatedYield v).

Definition set_yieldRateBps (x : N) (v : VaultState) : VaultState :=
  mkVault (v_self v) (v_owner v) (totalPrincipal v) x (lastUpdate v)
    (accumulatedYield v).

Definition set_lastUpdate (x : N) (v : VaultState) : VaultState :=
  mkVault (v_self v) (v_owner v) (totalPrincipal v) (yieldRateBps v) x
    (accumulatedYield v).

Definition set_accumulatedYield (x : N) (v : VaultState) : VaultState :=
  mkVault (v_self v) (v_owner v) (totalPrincipal v) (yieldRateBps v)
    (lastUpdate v) x.

Definition set_nextStreamId (x : N) (m : ManagerState) : ManagerState :=
  mkManager (m_self m) (m_owner m) (taxVault m) x (sponsorshipPool m)
    (streams m) (nonces m) (DOMAIN_SEPARATOR m).

Definition set_sponsorshipPool (x : N) (m : ManagerState) : ManagerState :=
  mkManager (m_self m) (m_owner m) (taxVault m) (nextStreamId m) x
    (streams m) (nonces m) (DOMAIN_SEPARATOR m).

Definition set_stream (streamId : N) (s : Stream) (m : ManagerState)
  : ManagerState :=
  mkManager (m_self m) (m_owner m) (taxVault m) (nextStreamId m)
    (sponsorshipPool m) (<[streamId := s]> (streams m)) (nonces m)
    (DOMAIN_SEPARATOR m).

Definition set_nonce (who : address) (x : N) (m : ManagerState)
  : ManagerState :=
  mkManager (m_self m) (m_owner m) (taxVault m) (nextStreamId m)
    (sponsorshipPool m) (streams m) (<[who := x]> (nonces m))
    (DOMAIN_SEPARATOR m).

Definition set_lastCheckpoint (x : N) (s : Stream) : Stream :=
  mkStream (employee s) (ratePerSecond s) x (taxBps s) (active s) (paused s)
    (bonusAmount s) (bonusReleaseTime s) (bonusClaimed s).

Definition set_active (b : bool) (s : Stream) : Stream :=
  mkStream (employee s) (ratePerSecond s) (lastCheckpoint s) (taxBps s) b
    (paused s) (bonusAmount s) (bonusReleaseTime s) (bonusClaimed s).

Definition set_paused (b : bool) (s : Stream) : Stream :=
  mkStream (employee s) (ratePerSecond s) (lastCheckpoint s) (taxBps s)
    (active s) b (bonusAmount s) (bonusReleaseTime s) (bonusClaimed s).

Definition set_bonusClaimed (b : bool) (s : Stream) : Stream :=
  mkStream (employee s) (ratePerSecond s) (lastCheckpoint s) (taxBps s)
    (active s) (paused s) (bonusAmount s) (bonusReleaseTime s) b.

Definition set_bonus (amount releaseTime : N) (s : Stream) : Stream :=
  mkStream (employee s) (ratePerSecond s) (lastCheckpoint s) (taxBps s)
    (active s) (paused s) amount releaseTime false.

(** *** Calls into the token from a contract *)

(** [HLUSD.transfer(to, amount)] sent by [sender]; the returned flag is the
    token's return value. *)
Definition token_transfer (sender to : address) (amount : N) (w : World)
  : result (bool * World) :=
  let* t := HLUSD._transfer sender to amount (hlusd w) in
  Ok (true, emit [Transfer sender to amount] (set_hlusd t w)).

(** [HLUSD.transferFrom(from, to, amount)] sent by [spender]. *)
Definition token_transferFrom (spender from to : address) (amount : N)
  (w : World) : result (bool * World) :=
  let* r := HLUSD._spendAllowance from spender amount (hlusd w) in
  let* t := HLUSD._transfer from to amount (fst r) in
  Ok (true, emit (snd r ++ [Transfer from to amount]) (set_hlusd t w)).

(** [HLUSD.approve(spender, amount)] sent by [owner]. *)
Definition token_approve (owner spender : address) (amount : N) (w : World)
  : result (bool * World) :=
  let* t := HLUSD._approve owner spender amount (hlusd w) in
  Ok (true, emit [Approval owner spender amount] (set_hlusd t w)).

(** Modelled from the spec: the administrator check of every admin-only
    operation, the [onlyOwner] modifier of OpenZeppelin's Ownable. *)
Definition onlyOwner (sender owner : address) : result unit :=
  revert_if (negb (sender =? owner)) CallerIsNotTheOwner.

(** ** YieldVault *)

Module YieldVault.

Definition MAX_YIELD_BPS : N := 10000.

(** [365 days], in seconds. *)
Definition YEAR : N := 31536000.

Definition _pendingYield (now : N) (v : VaultState) : result N :=
  if (totalPrincipal v =? 0) || (yieldRateBps v =? 0) then Ok 0
  else
    let* elapsed := checked_sub now (lastUpdate v) in
    if elapsed =? 0 then Ok 0
    else
      let* a := checked_mul (totalPrincipal v) (yieldRateBps v) in
      let* b := checked_mul a elapsed in
      checked_div b (10000 * YEAR).

Definition _simulateYield (now : N) (w : World) : result World :=
  let* pending := _pendingYield now (vault w) in
  let* w1 :=
    if 0 <? pending then
      let* acc := checked_add (accumulatedYield (vault w)) pending in
      Ok (emit [YieldUpdated pending acc]
            (set_vault (set_accumulatedYield acc (vault w)) w))
    else Ok w in
  Ok (set_vault (set_lastUpdate now (vault w1)) w1).

Definition deposit (sender : address) (now : N) (amount : N) (w : World)
  : result World :=
  onlyOwner sender (v_owner (vault w)) ;;
  revert_if (amount =? 0) ZeroAmount ;;
  let* w1 := _simulateYield now w in
  let* p := checked_add (totalPrincipal (vault w1)) amount in
  let w2 := set_vault (set_totalPrincipal p (vault w1)) w1 in
  let* r := token_transferFrom (v_self (vault w2)) sender (v_self (vault w2))
              amount w2 in
  revert_if (negb (fst r)) VaultTransferFromFailed ;;
  Ok (emit [Deposit sender amount] (snd r)).

Definition withdraw (sender : address) (now : N) (amount : N) (to : address)
  (w : World) : result World :=
  onlyOwner sender (v_owner (vault w)) ;;
  revert_if (amount =? 0) ZeroAmount ;;
  revert_if (to =? 0) ZeroAddress ;;
  let* w1 := _simulateYield now w in
  let* available :=
    checked_add (totalPrincipal (vault w1)) (accumulatedYield (vault w1)) in
  revert_if (available <? amount) (InsufficientBalance amount available) ;;
  let* v2 :=
    if amount <=? accumulatedYield (vault w1) then
      let* y := checked_sub (accumulatedYield (vault w1)) amount in
      Ok (set_accumulatedYield y (vault w1))
    else
      let* remainder := checked_sub amount (accumulatedYield (vault w1)) in
      let v' := set_accumulatedYield 0 (vault w1) in
      let* p := checked_sub (totalPrincipal v') remainder in
      Ok (set_totalPrincipal p v') in
  let w2 := set_vault v2 w1 in
  let* r := token_transfer (v_self (vault w2)) to amount w2 in
  revert_if (negb (fst r)) VaultTransferFailed ;;
  Ok (emit [Withdraw to amount] (snd r)).

Definition setYieldRate (sender : address) (now : N) (bps : N) (w : World)
  : result World :=
  onlyOwner sender (v_owner (vault w)) ;;
  revert_if (MAX_YIELD_BPS <? bps) (RateTooHigh bps) ;;
  let* w1 := _simulateYield now w in
  let oldBps := yieldRateBps (vault w1) in
  Ok (emit [YieldRateChanged oldBps bps]
        (set_vault (set_yieldRateBps bps (vault w1)) w1)).

(** A view: it returns a value and has no world to return. *)
Definition currentBalance (now : N) (w : World) : result N :=
  let* pending := _pendingYield now (vault w) in
  let* a := checked_add (totalPrincipal (vault w)) (accumulatedYield (vault w)) in
  checked_add a pending.

End YieldVault.

(** ** Typed-data signatures *)

(** Modelled from the spec: the external signature-verification primitive.
    [structHash] and [toTypedDataHash] stand for the two [keccak256] calls
    of [withdrawSigned] (over the payload and over the domain separator),
    [recover] for [ECDSA.recover], which returns the signing address or
    reverts on a malformed signature.  Nothing is assumed about them. *)
Class Eip712 : Type := {
  structHash : N -> N -> N -> N;
  toTypedDataHash : N -> N -> N;
  recover : N -> list N -> result address
}.

(** ** StreamManager *)

Module StreamManager.

Definition MAX_BATCH : N := 200.
Definition MAX_TAX_BPS : N := 10000.
Definition MAX_RATE : N := 1000 * 10 ^ 18.

Definition depositTreasury (sender : address) (now : N) (amount : N)
  (w : World) : result World :=
  onlyOwner sender (m_owner (manager w)) ;;
  revert_if (amount =? 0) ZeroAmount ;;
  let self := m_self (manager w) in
  let* r := token_transferFrom self sender self amount w in
  revert_if (negb (fst r)) TransferFailed ;;
  let* r2 := token_approve self (v_self (vault (snd r))) amount (snd r) in
  let* w3 := YieldVault.deposit self now amount (snd r2) in
  Ok (emit [TreasuryDeposited sender amount] w3).

Definition depositSponsorshipPool (sender : address) (amount : N) (w : World)
  : result World :=
  onlyOwner sender (m_owner (manager w)) ;;
  revert_if (amount =? 0) ZeroAmount ;;
  let* pool := checked_add (sponsorshipPool (manager w)) amount in
  let w1 := set_manager (set_sponsorshipPool pool (manager w)) w in
  let self := m_self (manager w1) in
  let* r := token_transferFrom self sender self amount w1 in
  revert_if (negb (fst r)) TransferFailed ;;
  Ok (emit [SponsorshipDeposited sender amount] (snd r)).

Definition _validateStreamParams (employee : address) (ratePerSecond : N)
  (taxBps : N) : result unit :=
  revert_if (employee =? 0) ZeroAddress ;;
  revert_if ((ratePerSecond =? 0) || (MAX_RATE <? ratePerSecond))
    (InvalidRate ratePerSecond) ;;
  revert_if (MAX_TAX_BPS <? taxBps) (InvalidTaxBps taxBps).

(** [uint256 id = nextStreamId++; streams[id] = Stream({...});
    emit StreamCreated(id, employee);], shared by [createStream] and the
    body of the loop of [batchCreateStreams]. *)
Definition store_new_stream (checkpoint : N) (employee : address)
  (ratePerSecond taxBps : N) (w : World) : result World :=
  let id := nextStreamId (manager w) in
  let* next := checked_add id 1 in
  let s := mkStream employee ratePerSecond checkpoint taxBps true false
             0 0 false in
  Ok (emit [StreamCreated id employee]
        (set_manager (set_stream id s (set_nextStreamId next (manager w))) w)).

Definition createStream (sender : address) (now : N) (employee : address)
  (ratePerSecond taxBps : N) (w : World) : result World :=
  onlyOwner sender (m_owner (manager w)) ;;
  _validateStreamParams employee ratePerSecond taxBps ;;
  store_new_stream (uint64 now) employee ratePerSecond taxBps w.

(** The [for] loop of [batchCreateStreams], over the entries left. *)
Fixpoint batch_loop (checkpoint : N) (inputs : list StreamInput) (w : World)
  : result World :=
  match inputs with
  | [] => Ok w
  | inp :: rest =>
      _validateStreamParams (in_employee inp) (in_ratePerSecond inp)
        (in_taxBps inp) ;;
      let* w1 := store_new_stream checkpoint (in_employee inp)
                   (in_ratePerSecond inp) (in_taxBps inp) w in
      batch_loop checkpoint rest w1
  end.

Definition batchCreateStreams (sender : address) (now : N)
  (inputs : list StreamInput) (w : World) : result World :=
  onlyOwner sender (m_owner (manager w)) ;;
  let len := N.of_nat (length inputs) in
  revert_if ((len =? 0) || (MAX_BATCH <? len)) InvalidBatchSize ;;
  let checkpoint := uint64 now in
  batch_loop checkpoint inputs w.

Definition scheduleBonus (sender : address) (now : N) (streamId amount : N)
  (releaseTime : N) (w : World) : result World :=
  onlyOwner sender (m_owner (manager w)) ;;
  let s := stream_at w streamId in
  revert_if (negb (active s)) (StreamInactive streamId) ;;
  revert_if (amount =? 0) ZeroAmount ;;
  revert_if (releaseTime <=? now) ReleaseInPast ;;
  Ok (emit [BonusScheduled streamId amount releaseTime]
        (set_manager
           (set_stream streamId (set_bonus amount releaseTime s) (manager w))
           w)).

Definition pauseStream (sender : address) (now : N) (streamId : N)
  (w : World) : result World :=
  onlyOwner sender (m_owner (manager w)) ;;
  let s := stream_at w streamId in
  revert_if (negb (active s)) (StreamInactive streamId) ;;
  revert_if (paused s) (AlreadyPaused streamId) ;;
  let s1 := set_paused true (set_lastCheckpoint (uint64 now) s) in
  Ok (emit [StreamPaused streamId]
        (set_manager (set_stream streamId s1 (manager w)) w)).

Definition resumeStream (sender : address) (now : N) (streamId : N)
  (w : World) : result World :=
  onlyOwner sender (m_owner (manager w)) ;;
  let s := stream_at w streamId in
  revert_if (negb (active s)) (StreamInactive streamId) ;;
  revert_if (negb (paused s)) (NotPaused streamId) ;;
  let s1 := set_paused false (set_lastCheckpoint (uint64 now) s) in
  Ok (emit [StreamResumed streamId]
        (set_manager (set_stream streamId s1 (manager w)) w)).

Definition cancelStream (sender : address) (now : N) (streamId : N)
  (w : World) : result World :=
  onlyOwner sender (m_owner (manager w)) ;;
  let s := stream_at w streamId in
  revert_if (negb (active s)) (StreamInactive streamId) ;;
  let s1 := set_active false (set_lastCheckpoint (uint64 now) s) in
  Ok (emit [StreamCancelled streamId]
        (set_manager (set_stream streamId s1 (manager w)) w)).

(** The bonus condition of [_executeWithdraw] and [netWithdrawable]. *)
Definition bonus_claimable (now : N) (s : Stream) : bool :=
  (0 <? bonusAmount s) && (bonusReleaseTime s <=? now)
  && negb (bonusClaimed s).

Definition _executeWithdraw (now : N) (streamId : N) (w : World)
  : result World :=
  let s := stream_at w streamId in
  revert_if (negb (active s)) (StreamInactive streamId) ;;
  revert_if (paused s) (AlreadyPaused streamId) ;;
  let* elapsed := checked_sub now (lastCheckpoint s) in
  let* accrued := checked_mul (ratePerSecond s) elapsed in
  let bonus := if bonus_claimable now s then bonusAmount s else 0 in
  let s1 := if bonus_claimable now s then set_bonusClaimed true s else s in
  let* gross := checked_add accrued bonus in
  revert_if (gross =? 0) NothingToWithdraw ;;
  let* taxed := checked_mul accrued (taxBps s1) in
  let* tax := checked_div taxed 10000 in
  let* net := checked_sub gross tax in
  let* totalPayout := checked_add net tax in
  let s2 := set_lastCheckpoint (uint64 now) s1 in
  let w1 := set_manager (set_stream streamId s2 (manager w)) w in
  let self := m_self (manager w1) in
  let* w2 := YieldVault.withdraw self now totalPayout self w1 in
  let* w3 :=
    if 0 <? tax then
      let* r := token_transfer self (taxVault (manager w2)) tax w2 in
      revert_if (negb (fst r)) TransferFailed ;;
      Ok (snd r)
    else Ok w2 in
  let* r := token_transfer self (employee s2) net w3 in
  revert_if (negb (fst r)) TransferFailed ;;
  Ok (emit [Withdrawn streamId (employee s2) gross tax net] (snd r)).

(** [nonReentrant]: the token of this model never calls back, so the
    guard is never found entered and is left out. *)
Definition withdraw (now : N) (streamId : N) (w : World) : result World :=
  _executeWithdraw now streamId w.

Section Signed.
Context `{Eip712}.

Definition withdrawSigned (sender : address) (now : N)
  (streamId nonce deadline relayerFee : N) (signature : list N)
  (w : World) : result World :=
  revert_if (deadline <? now) SignatureExpired ;;
  let s := stream_at w streamId in
  let employee := employee s in
  revert_if (negb (nonce =? nonce_of w employee)) InvalidNonce ;;
  let sh := structHash streamId nonce deadline in
  let digest := toTypedDataHash (DOMAIN_SEPARATOR (manager w)) sh in
  let* signer := recover digest signature in
  revert_if (negb (signer =? employee)) InvalidSignature ;;
  let* n1 := checked_add nonce 1 in
  let w1 := set_manager (set_nonce employee n1 (manager w)) w in
  let* w2 := _executeWithdraw now streamId w1 in
  let* w3 :=
    if 0 <? relayerFee then
      revert_if (sponsorshipPool (manager w2) <? relayerFee)
        InsufficientSponsorship ;;
      let* pool := checked_sub (sponsorshipPool (manager w2)) relayerFee in
      let w2' := set_manager (set_sponsorshipPool pool (manager w2)) w2 in
      let* r := token_transfer (m_self (manager w2')) sender relayerFee w2' in
      revert_if (negb (fst r)) TransferFailed ;;
      Ok (snd r)
    else Ok w2 in
  Ok (emit [WithdrawnSigned streamId employee sender relayerFee] w3).

End Signed.

(** *** Views *)

Definition accruedSalary (now : N) (streamId : N) (w : World) : result N :=
  let s := stream_at w streamId in
  let* elapsed := checked_sub now (lastCheckpoint s) in
  checked_mul (ratePerSecond s) elapsed.

Definition treasuryBalance (now : N) (w : World) : result N :=
  YieldVault.currentBalance now w.

Definition netWithdrawable (now : N) (streamId : N) (w : World)
  : result N :=
  let s := stream_at w streamId in
  let* elapsed := checked_sub now (lastCheckpoint s) in
  let* accrued := checked_mul (ratePerSecond s) elapsed in
  let* taxed := checked_mul accrued (taxBps s) in
  let* tax := checked_div taxed 10000 in
  let* net := checked_sub accrued tax in
  if bonus_claimable now s then checked_add net (bonusAmount s) else Ok net.

Definition streamInfo (streamId : N) (w : World) : Stream :=
  stream_at w streamId.

End StreamManager.

(** ** Deployment and transactions *)

(** The constructor of YieldVault, run by [deployer] at time [now]. *)
Definition vault_constructor (deployer self : address) (now : N)
  (_hlusd : address) : result VaultState :=
  revert_if (_hlusd =? 0) ZeroAddress ;;
  Ok (mkVault self deployer 0 0 now 0).

(** The constructor of StreamManager; [domain] is the domain separator it
    computes from the chain id and its own address. *)
Definition manager_constructor (deployer self : address) (domain : N)
  (_hlusd _taxVault _yieldVault : address) : result ManagerState :=
  revert_if (_hlusd =? 0) ZeroAddress ;;
  revert_if (_taxVault =? 0) ZeroAddress ;;
  revert_if (_yieldVault =? 0) ZeroAddress ;;
  Ok (mkManager self deployer _taxVault 0 0 ∅ ∅ domain).

(** A transaction keeps the world its call returns; a call that reverts
    rolls every effect back. *)
Definition commit (r : result World) (w : World) : World :=
  match r with
  | Ok w' => w'
  | Revert _ => w
  end.

(** The events a run from [w] to [w'] added to the log. *)
Definition new_events (w w' : World) : list event :=
  drop (length (events w)) (events w').

(** The external, state-changing functions of StreamManager: the ten it
    defines and the two it inherits from Ownable. *)
Inductive call : Type :=
  | DepositTreasury (amount : N)
  | DepositSponsorshipPool (amount : N)
  | CreateStream (employee : address) (ratePerSecond taxBps : N)
  | BatchCreateStreams (inputs : list StreamInput)
  | ScheduleBonus (streamId amount releaseTime : N)
  | PauseStream (streamId : N)
  | ResumeStream (streamId : N)
  | CancelStream (streamId : N)
  | WithdrawCall (streamId : N)
  | WithdrawSigned (streamId nonce deadline relayerFee : N)
      (signature : list N)
  | TransferOwnership (newOwner : address)
  | RenounceOwnership.

Definition set_owner (o : address) (m : ManagerState) : ManagerState :=
  mkManager (m_self m) o (taxVault m) (nextStreamId m) (sponsorshipPool m)
    (streams m) (nonces m) (DOMAIN_SEPARATOR m).

Module Ownable.

(** Modelled from the spec: the single privileged identity of the
    administrative surface is the owner of OpenZeppelin's Ownable, which
    StreamManager inherits and whose code is not part of the repository.
    The owner hands the ownership to another account, which is not the
    zero address, or gives it up; [OwnershipTransferred] is logged. *)
Definition _transferOwnership (newOwner : address) (w : World) : World :=
  emit [OwnershipTransferred (m_owner (manager w)) newOwner]
    (set_manager (set_owner newOwner (manager w)) w).

(** Modelled from the spec: [transferOwnership(newOwner)] of Ownable,
    reserved to the owner, refuses the zero address. *)
Definition transferOwnership (sender newOwner : address) (w : World)
  : result World :=
  onlyOwner sender (m_owner (manager w)) ;;
  revert_if (newOwner =? 0) NewOwnerIsTheZeroAddress ;;
  Ok (_transferOwnership newOwner w).

(** Modelled from the spec: [renounceOwnership()] of Ownable, reserved to
    the owner, leaves the contract without an owner. *)
Definition renounceOwnership (sender : address) (w : World) : result World :=
  onlyOwner sender (m_owner (manager w)) ;;
  Ok (_transferOwnership 0 w).

End Ownable.

Section Transactions.
Context `{Eip712}.

Definition exec (c : call) (sender : address) (now : N) (w : World)
  : result World :=
  match c with
  | DepositTreasury amount => StreamManager.depositTreasury sender now amount w
  | DepositSponsorshipPool amount =>
      StreamManager.depositSponsorshipPool sender amount w
  | CreateStream e r t => StreamManager.createStream sender now e r t w
  | BatchCreateStreams inputs =>
      StreamManager.batchCreateStreams sender now inputs w
  | ScheduleBonus id amount releaseTime =>
      StreamManager.scheduleBonus sender now id amount releaseTime w
  | PauseStream id => StreamManager.pauseStream sender now id w
  | ResumeStream id => StreamManager.resumeStream sender now id w
  | CancelStream id => StreamManager.cancelStream sender now id w
  | WithdrawCall id => StreamManager.withdraw now id w
  | WithdrawSigned id nonce deadline fee sig =>
      StreamManager.withdrawSigned sender now id nonce deadline fee sig w
  | TransferOwnership newOwner => Ownable.transferOwnership sender newOwner w
  | RenounceOwnership => Ownable.renounceOwnership sender w
  end.

Definition transact (c : call) (sender : address) (now : N) (w : World)
  : World :=
  commit (exec c sender now w) w.

(** One step of the chain as the manager sees it: a transaction on the
    manager, or anything else, which can move tokens, act on the vault
    and hand the ownership of the manager over, and nothing more. *)
Inductive step : World -> World -> Prop :=
  | step_call (c : call) (sender : address) (now : N) (w : World) :
      step w (transact c sender now w)
  | step_env (w : World) (t : HLUSD.state) (v : VaultState) (o : address)
      (evs : list event) :
      step w (mkWorld t v (set_owner o (manager w)) (events w ++ evs)).

Definition freshly_deployed (w : World) : Prop :=
  exists deployer self domain _hlusd _taxVault _yieldVault,
    manager_constructor deployer self domain _hlusd _taxVault _yieldVault
    = Ok (manager w).

Definition reachable (w : World) : Prop :=
  exists w0, freshly_deployed w0 /\ rtc step w0 w.

End Transactions.

(** The two ways to withdraw from a stream. *)
Inductive withdrawal_path : Type :=
  | Direct
  | Signed (relayer : address) (nonce deadline relayerFee : N)
      (signature : list N).

Definition run_withdrawal `{Eip712} (p : withdrawal_path) (now streamId : N)
  (w : World) : result World :=
  match p with
  | Direct => StreamManager.withdraw now streamId w
  | Signed relayer nonce deadline relayerFee signature =>
      StreamManager.withdrawSigned relayer now streamId nonce deadline
        relayerFee signature w
  end.

(** A signature scheme to run examples with: a signature is the pair of the
    signer and the digest signed. *)
Definition example_scheme : Eip712 := {|
  structHash := fun streamId nonce deadline =>
    1 + streamId + 1000 * nonce + 1000000 * deadline;
  toTypedDataHash := fun domain sh => domain + 7 * sh;
  recover := fun digest signature =>
    match signature with
    | [signer; signed] =>
        if (signed =? digest) && negb (signer =? 0) then Ok signer
        else Revert ECDSAInvalidSignature
    | _ => Revert ECDSAInvalidSignature
    end
|}.

(** ** The quantities of a withdrawal, in the words of the specification *)

Definition spec_accrued (now : N) (s : Stream) : N :=
  ratePerSecond s * (now - lastCheckpoint s).

Definition spec_bonus (now : N) (s : Stream) : N :=
  if (0 <? bonusAmount s) && (bonusReleaseTime s <=? now)
     && negb (bonusClaimed s)
  then bonusAmount s else 0.

Definition spec_gross (now : N) (s : Stream) : N :=
  spec_accrued now s + spec_bonus now s.

Definition spec_tax (now : N) (s : Stream) : N :=
  spec_accrued now s * taxBps s / 10000.

Definition spec_net (now : N) (s : Stream) : N :=
  spec_gross now s - spec_tax now s.

(** The token movements of the core withdrawal: the vault hands the gross
    amount to the manager, which pays the tax collector (when there is tax)
    and the employee. *)
Definition payout_transfers (now : N) (w : World) (s : Stream)
  : list (address * address * N) :=
  (v_self (vault w), m_self (manager w), spec_gross now s)
  :: (if 0 <? spec_tax now s
      then [(m_self (manager w), taxVault (manager w), spec_tax now s)]
      else [])
  ++ [(m_self (manager w), employee s, spec_net now s)].

Definition relayer_transfers (p : withdrawal_path) (w : World)
  : list (address * address * N) :=
  match p with
  | Direct => []
  | Signed relayer _ _ relayerFee _ =>
      if 0 <? relayerFee then [(m_self (manager w), relayer, relayerFee)]
      else []
  end.

(** ** The treasury vault, in the words of the specification *)

(** [pending = principal * rateBps * elapsedSeconds
    / (10000 * secondsPerYear)], rounded down. *)
Definition spec_pendingYield (now : N) (v : VaultState) : N :=
  totalPrincipal v * yieldRateBps v * (now - lastUpdate v)
  / (10000 * YieldVault.YEAR).

Definition spec_currentBalance (now : N) (v : VaultState) : N :=
  totalPrincipal v + accumulatedYield v + spec_pendingYield now v.

(** ** Stream creation, in the words of the specification *)

(** Non-zero employee, [0 < ratePerSecond <= MAX_RATE], [taxBps <= 10000]. *)
Definition valid_input (inp : StreamInput) : bool :=
  negb (in_employee inp =? 0)
  && (0 <? in_ratePerSecond inp)
  && (in_ratePerSecond inp <=? StreamManager.MAX_RATE)
  && (in_taxBps inp <=? 10000).

(** The stream an entry of a batch becomes. *)
Definition created (checkpoint : N) (inp : StreamInput) : Stream :=
  mkStream (in_employee inp) (in_ratePerSecond inp) checkpoint (in_taxBps inp)
    true false 0 0 false.

(** ** Worlds to state the properties with *)

(** The stream as [_executeWithdraw] leaves it. *)
Definition settled (now : N) (s : Stream) : Stream :=
  set_lastCheckpoint (uint64 now)
    (if StreamManager.bonus_claimable now s then set_bonusClaimed true s
     else s).

(** The world with the lifecycle flags of one stream replaced. *)
Definition with_flags (streamId : N) (a p : bool) (w : World) : World :=
  set_manager
    (set_stream streamId (set_active a (set_paused p (stream_at w streamId)))
       (manager w)) w.

(** The world with the checkpoint of one stream replaced. *)
Definition with_checkpoint (streamId c : N) (w : World) : World :=
  set_manager
    (set_stream streamId (set_lastCheckpoint c (stream_at w streamId))
       (manager w)) w.

(** The request passes the deadline, nonce and signature checks of
    [withdrawSigned] (and its nonce can be incremented). *)
Definition authorised `{Eip712} (now streamId nonce deadline : N)
  (signature : list N) (w : World) : Prop :=
  now <= deadline
  /\ nonce = nonce_of w (employee (stream_at w streamId))
  /\ recover (toTypedDataHash (DOMAIN_SEPARATOR (manager w))
                (structHash streamId nonce deadline)) signature
     = Ok (employee (stream_at w streamId))
  /\ nonce + 1 <= MAX_UINT256.

(** The world as [withdrawSigned] hands it to [_executeWithdraw]: the nonce
    of the employee already incremented. *)
Definition nonce_spent (streamId nonce : N) (w : World) : World :=
  set_manager
    (set_nonce (employee (stream_at w streamId)) (nonce + 1) (manager w)) w.

(** ** What no call takes back *)

Definition stream_of (m : ManagerState) (streamId : N) : Stream :=
  default zeroStream (streams m !! streamId).

Definition nonce_in (m : ManagerState) (who : address) : N :=
  default 0 (nonces m !! who).

(** No stream is stored at an identifier not handed out yet. *)
Definition ids_bounded (m : ManagerState) : Prop :=
  forall i, nextStreamId m <= i -> streams m !! i = None.

(** From [m] to [m']: identifiers are only handed out, a stream that exists
    and is not active does not become active, and nonces do not go down. *)
Definition no_regress (m m' : ManagerState) : Prop :=
  nextStreamId m <= nextStreamId m'
  /\ (forall i, i < nextStreamId m ->
        active (stream_of m' i) = true -> active (stream_of m i) = true)
  /\ (forall a, nonce_in m a <= nonce_in m' a)
  /\ (ids_bounded m -> ids_bounded m').

(** ** A deployment to run examples on *)

(** The state of the token after a transfer, or [t] when it reverts. *)
Definition token_after (r : result HLUSD.state) (t : HLUSD.state)
  : HLUSD.state :=
  match r with
  | Ok t' => t'
  | Revert _ => t
  end.

Definition ex_owner : address := 1.
Definition ex_manager : address := 10.
Definition ex_vault : address := 20.
Definition ex_tax : address := 30.
Definition ex_employee : address := 40.
Definition ex_relayer : address := 50.

(** Both contracts just deployed at time 1000; the owner holds two million
    tokens and lets the manager move them. *)
Definition ex_deployed : World :=
  mkWorld
    (HLUSD.mk {[ ex_owner := 2000000 ]}
       {[ (ex_owner, ex_manager) := MAX_UINT256 ]})
    (mkVault ex_vault ex_manager 0 0 1000 0)
    (mkManager ex_manager ex_owner ex_tax 0 0 ∅ ∅ 77)
    [].

Definition run_calls (cs : list (call * address * N)) (w : World) : World :=
  fold_left (fun w1 c => @transact example_scheme c.1.1 c.1.2 c.2 w1) cs w.

(** The treasury and the sponsorship pool funded, and stream 0 created at
    time 1000: one token a second, 5% tax. *)
Definition ex_funded : World :=
  run_calls [(DepositTreasury 1000000, ex_owner, 1000);
             (DepositSponsorshipPool 500, ex_owner, 1000);
             (CreateStream ex_employee 1 500, ex_owner, 1000)] ex_deployed.

(** As [ex_funded], with a bonus of 500 released at time 1050. *)
Definition ex_bonus : World :=
  run_calls [(ScheduleBonus 0 500 1050, ex_owner, 1000)] ex_funded.

(** The direct withdrawal from stream 0 at time 1100. *)
Definition ex_withdrawn : World :=
  run_calls [(WithdrawCall 0, ex_employee, 1100)] ex_funded.

(** The signature of [ex_employee] under [example_scheme] over stream 0,
    the given nonce and deadline 2000. *)
Definition ex_signature (nonce : N) : list N :=
  [ex_employee; 77 + 7 * (1 + 0 + 1000 * nonce + 1000000 * 2000)].

(** The signed withdrawal from stream 0 at time 1100, relayed for a fee
    of 5. *)
Definition ex_signed : World :=
  run_calls [(WithdrawSigned 0 0 2000 5 (ex_signature 0), ex_relayer, 1100)]
    ex_funded.

(** Stream 0 of [ex_funded], running from time 1000, paused at 1100, resumed
    at 1200, and withdrawn from at 1300. *)
Definition ex_paused : World :=
  run_calls [(PauseStream 0, ex_owner, 1100)] ex_funded.

Definition ex_resumed : World :=
  run_calls [(ResumeStream 0, ex_owner, 1200)] ex_paused.

Definition ex_collected : World :=
  run_calls [(WithdrawCall 0, ex_employee, 1300)] ex_resumed.

(** Stream 0 of [ex_funded] cancelled at time 1100. *)
Definition ex_cancelled : World :=
  run_calls [(CancelStream 0, ex_owner, 1100)] ex_funded.

(** The entries of a batch. *)
Definition ex_input (n : nat) : StreamInput :=
  mkStreamInput (100 + N.of_nat n) 3 250.

(** A vault holding 100000 tokens of principal at 5% a year, last updated
    at time 1000, and the same vault one year later, its yield accrued. *)
Definition ex_vault_world : World :=
  mkWorld
    (HLUSD.mk {[ ex_vault := 100000 ]} ∅)
    (mkVault ex_vault ex_manager 100000 500 1000 0)
    (mkManager ex_manager ex_owner ex_tax 0 0 ∅ ∅ 77)
    [].

Definition ex_vault_accrued : World :=
  commit (YieldVault._simulateYield (1000 + 31536000) ex_vault_world)
    ex_vault_world.

(** ** Book-keeping of the vault and of the token *)

(** What the vault says it holds, pending yield left out. *)
Definition book (v : VaultState) : N :=
  totalPrincipal v + accumulatedYield v.

(** The tokens an account holds in a world. *)
Definition bal (w : World) (a : address) : N :=
  HLUSD.balanceOf (hlusd w) a.

(** ** A withdrawal that goes through *)

(** The amounts of a withdrawal at [now] fit their [uint256], and the tax
    does not exceed the gross amount. *)
Definition amounts_fit (now : N) (s : Stream) : Prop :=
  lastCheckpoint s <= now
  /\ spec_accrued now s <= MAX_UINT256
  /\ spec_accrued now s * taxBps s <= MAX_UINT256
  /\ spec_gross now s <= MAX_UINT256
  /\ spec_tax now s <= spec_gross now s.

(** The vault and the token go along with the payout of a stream at
    [now]: the manager owns the vault, the books of the vault cover the
    gross amount once its yield is accrued, and the token lets the three
    transfers through. *)
Definition payout_accepted (now streamId : N) (w : World) : Prop :=
  let s := stream_at w streamId in
  let self := m_self (manager w) in
  v_owner (vault w) = self /\ self <> 0
  /\ exists w1 t1 t2 t3,
       YieldVault._simulateYield now w = Ok w1
       /\ book (vault w1) <= MAX_UINT256
       /\ spec_gross now s <= book (vault w1)
       /\ HLUSD._transfer (v_self (vault w)) self (spec_gross now s) (hlusd w)
          = Ok t1
       /\ (if 0 <? spec_tax now s
           then HLUSD._transfer self (taxVault (manager w)) (spec_tax now s)
                  t1
           else Ok t1) = Ok t2
       /\ HLUSD._transfer self (employee s) (spec_net now s) t2 = Ok t3.

(** ** Streams as the manager keeps them *)

(** The parameters [createStream] accepts, and a checkpoint that came out
    of a [uint64] conversion. *)
Definition valid_stream (s : Stream) : Prop :=
  employee s <> 0
  /\ 0 < ratePerSecond s /\ ratePerSecond s <= StreamManager.MAX_RATE
  /\ taxBps s <= 10000
  /\ lastCheckpoint s < 2 ^ 64.

(** The parameters of a stream fixed at its creation. *)
Definition same_params (s s' : Stream) : Prop :=
  employee s' = employee s
  /\ ratePerSecond s' = ratePerSecond s
  /\ taxBps s' = taxBps s.

(** From [m] to [m']: no stream is removed or changes its parameters, and
    the streams that appear are valid ones at fresh identifiers. *)
Definition evolves (m m' : ManagerState) : Prop :=
  nextStreamId m <= nextStreamId m'
  /\ (forall i s, streams m !! i = Some s ->
        exists s', streams m' !! i = Some s' /\ same_params s s'
                   /\ (lastCheckpoint s' = lastCheckpoint s
                       \/ lastCheckpoint s' < 2 ^ 64))
  /\ (forall i s', streams m' !! i = Some s' -> streams m !! i = None ->
        nextStreamId m <= i /\ valid_stream s').

(** The sponsorship pool is covered by tokens the manager holds. *)
Definition pool_backed (w : World) : Prop :=
  sponsorshipPool (manager w) <= bal w (m_self (manager w)).

(** The calls reserved to the owner. *)
Definition is_admin (c : call) : bool :=
  match c with
  | WithdrawCall _ | WithdrawSigned _ _ _ _ _ => false
  | _ => true
  end.

(** The calls inherited from Ownable. *)
Definition is_ownership (c : call) : bool :=
  match c with
  | TransferOwnership _ | RenounceOwnership => true
  | _ => false
  end.

(** [createStream] called once for each entry, in order, in one block. *)
Definition create_all (sender : address) (now : N)
  (inputs : list StreamInput) (w : World) : result World :=
  fold_left
    (fun r inp =>
       let* w1 := r in
       StreamManager.createStream sender now (in_employee inp)
         (in_ratePerSecond inp) (in_taxBps inp) w1)
    inputs (Ok w).

(** A transaction on the manager sent by anybody but the manager itself
    (the manager never calls itself). *)
Definition outside_call `{Eip712} (w w' : World) : Prop :=
  exists c sender now,
    sender <> m_self (manager w) /\ w' = transact c sender now w.

(** What the constructors fix and no function of the manager writes: the
    addresses, the tax collector, the domain separator, and the owner and
    the yield rate of the vault.  The owner of the manager is not part of
    it: the functions inherited from Ownable write it. *)
Definition same_config (w w' : World) : Prop :=
  m_self (manager w') = m_self (manager w)
  /\ taxVault (manager w') = taxVault (manager w)
  /\ DOMAIN_SEPARATOR (manager w') = DOMAIN_SEPARATOR (manager w)
  /\ v_self (vault w') = v_self (vault w)
  /\ v_owner (vault w') = v_owner (vault w)
  /\ yieldRateBps (vault w') = yieldRateBps (vault w).

(** ** TaxVault *)

Module TaxVault.

(** What a call into TaxVault fails with: one of its [require] messages
    (TaxVault: zero HLUSD, zero amount, zero address, transferFrom failed,
    transfer failed), or an error that comes from below, out of the token,
    of Ownable or of the checked arithmetic. *)
Inductive failure : Type :=
  | TaxZeroHLUSD
  | TaxZeroAmount
  | TaxZeroAddress
  | TaxTransferFromFailed
  | TaxTransferFailed
  | FromBelow (e : error).

Inductive outcome (A : Type) : Type :=
  | Done (a : A)
  | Failed (f : failure).

Arguments Done {A} a.
Arguments Failed {A} f.

Definition and_then {A B : Type} (r : outcome A) (k : A -> outcome B)
  : outcome B :=
  match r with
  | Done a => k a
  | Failed f => Failed f
  end.

Definition below {A : Type} (r : result A) : outcome A :=
  match r with
  | Ok a => Done a
  | Revert e => Failed (FromBelow e)
  end.

(** [require(c, message)] *)
Definition require (c : bool) (f : failure) : outcome unit :=
  if c then Done tt else Failed f.

(** The events of TaxVault, and those of the token in between. *)
Inductive tax_event : Type :=
  | TaxReceived (from : address) (amount : N)
  | TaxWithdrawn (to : address) (amount : N)
  | OfToken (e : event).

(** Storage of TaxVault, with its own address and its Ownable owner. *)
Record state : Type := mkTax {
  t_self : address;
  t_owner : address;
  totalTaxCollected : N
}.

(** The tax vault, the token it holds and the log. *)
Record world : Type := mkTaxWorld {
  token : HLUSD.state;
  store : state;
  log : list tax_event
}.

Definition constructor (deployer self _hlusd : address) : outcome state :=
  and_then (require (negb (_hlusd =? 0)) TaxZeroHLUSD) (fun _ =>
  Done (mkTax self deployer 0)).

(** [ok] is what [HLUSD.transferFrom] returns: the token returns [true]
    whenever it does not revert. *)
Definition depositTax (sender : address) (amount : N) (w : world)
  : outcome world :=
  and_then (require (0 <? amount) TaxZeroAmount) (fun _ =>
  and_then (below (checked_add (totalTaxCollected (store w)) amount))
    (fun total =>
  let self := t_self (store w) in
  let s1 := mkTax self (t_owner (store w)) total in
  and_then (below (HLUSD._spendAllowance sender self amount (token w)))
    (fun r =>
  and_then (below (HLUSD._transfer sender self amount (fst r))) (fun t =>
  let ok := true in
  and_then (require ok TaxTransferFromFailed) (fun _ =>
  Done (mkTaxWorld t s1
          (log w ++ map OfToken (snd r ++ [Transfer sender self amount])
             ++ [TaxReceived sender amount]))))))).

(** [ok] is what [HLUSD.transfer] returns. *)
Definition withdrawTax (sender to : address) (amount : N) (w : world)
  : outcome world :=
  and_then (below (onlyOwner sender (t_owner (store w)))) (fun _ =>
  and_then (require (negb (to =? 0)) TaxZeroAddress) (fun _ =>
  and_then (require (0 <? amount) TaxZeroAmount) (fun _ =>
  let self := t_self (store w) in
  and_then (below (HLUSD._transfer self to amount (token w))) (fun t =>
  let ok := true in
  and_then (require ok TaxTransferFailed) (fun _ =>
  Done (mkTaxWorld t (store w)
          (log w ++ [OfToken (Transfer self to amount);
                     TaxWithdrawn to amount]))))))).

(** The calls on TaxVault, and a transaction, which keeps the world of a
    call that succeeds and rolls back one that fails. *)
Inductive call : Type :=
  | DepositTax (amount : N)
  | WithdrawTax (to : address) (amount : N).

Definition exec (c : call) (sender : address) (w : world) : outcome world :=
  match c with
  | DepositTax amount => depositTax sender amount w
  | WithdrawTax to amount => withdrawTax sender to amount w
  end.

Definition transact (c : call) (sender : address) (w : world) : world :=
  match exec c sender w with
  | Done w' => w'
  | Failed _ => w
  end.

(** The amount a transaction adds to the counter when it is a deposit that
    goes through. *)
Definition deposited (c : call) (sender : address) (w : world) : N :=
  match c, exec c sender w with
  | DepositTax amount, Done _ => amount
  | _, _ => 0
  end.

Fixpoint run (cs : list (call * address)) (w : world) : world :=
  match cs with
  | [] => w
  | (c, sender) :: rest => run rest (transact c sender w)
  end.

Fixpoint total_deposited (cs : list (call * address)) (w : world) : N :=
  match cs with
  | [] => 0
  | (c, sender) :: rest =>
      deposited c sender w + total_deposited rest (transact c sender w)
  end.

Definition holds (w : world) (a : address) : N :=
  HLUSD.balanceOf (token w) a.

End TaxVault.

(** ** More worlds to run examples on *)

(** The vault of [ex_vault_world], whose owner holds 5000 tokens and lets
    the vault take them. *)
Definition ex_vault_depositor : World :=
  mkWorld
    (HLUSD.mk {[ ex_vault := 100000; ex_manager := 5000 ]}
       {[ (ex_manager, ex_vault) := 5000 ]})
    (mkVault ex_vault ex_manager 100000 500 1000 0)
    (mkManager ex_manager ex_owner ex_tax 0 0 ∅ ∅ 77)
    [].

(** [ex_funded] with the vault still owned by the deployer. *)
Definition ex_unowned : World :=
  set_vault (mkVault ex_vault ex_owner 1000000 0 1000 0) ex_funded.

(** One year after the last update of [ex_vault_world], and half a year. *)
Definition ex_year : N := 1000 + 31536000.
Definition ex_half_year : N := 1000 + 15768000.

(** The deposit of the 5000 tokens into [ex_vault_depositor], the change
    of the rate of [ex_vault_world] to 7% and a withdrawal of 6000 tokens
    from it to the deployer, all one year after its last update. *)
Definition ex_vault_deposited : World :=
  commit (YieldVault.deposit ex_manager ex_year 5000 ex_vault_depositor)
    ex_vault_depositor.

Definition ex_vault_rated : World :=
  commit (YieldVault.setYieldRate ex_manager ex_year 700 ex_vault_world)
    ex_vault_world.

Definition ex_vault_paid : World :=
  commit (YieldVault.withdraw ex_manager ex_year 6000 ex_owner ex_vault_world)
    ex_vault_world.

(** The yield of [ex_vault_world] accrued after half a year and again at
    the end of the year. *)
Definition ex_vault_half : World :=
  commit (YieldVault._simulateYield ex_half_year ex_vault_world)
    ex_vault_world.

Definition ex_vault_halves : World :=
  commit (YieldVault._simulateYield ex_year ex_vault_half) ex_vault_half.

(** A second direct withdrawal from stream 0, at time 1200, after the one
    of [ex_withdrawn]. *)
Definition ex_withdrawn_twice : World :=
  run_calls [(WithdrawCall 0, ex_employee, 1200)] ex_withdrawn.

(** The sponsorship pool and the treasury of [ex_deployed] funded, each by
    one call. *)
Definition ex_sponsored : World :=
  run_calls [(DepositSponsorshipPool 500, ex_owner, 1000)] ex_deployed.

Definition ex_treasury : World :=
  run_calls [(DepositTreasury 1000000, ex_owner, 1000)] ex_deployed.

(** A tax vault at address 30, owned by the deployer, holding 5 tokens
    of tax withheld by the manager; the employee holds 95 tokens and lets
    the vault take 20. *)
Definition ex_tax_world : TaxVault.world :=
  TaxVault.mkTaxWorld
    (HLUSD.mk {[ ex_tax := 5; ex_employee := 95 ]}
       {[ (ex_employee, ex_tax) := 20 ]})
    (TaxVault.mkTax ex_tax ex_owner 0)
    [].

(** The employee deposits 20 tokens of tax. *)
Definition ex_tax_deposited : TaxVault.world :=
  TaxVault.transact (TaxVault.DepositTax 20) ex_employee ex_tax_world.

(** * Properties *)

(** ** Reasoning about results *)

Lemma bind_Ok {A B : Type} (r : result A) (k : A -> result B) (b : B) :
  bind r k = Ok b -> exists a, r = Ok a /\ k a = Ok b.
Proof. destruct r as [a|e]; simpl; [eauto | discriminate]. Qed.

Lemma revert_if_Ok (c : bool) (e : error) (u : unit) :
  revert_if c e = Ok u -> c = false.
Proof. destruct c; simpl; [discriminate | reflexivity]. Qed.

Lemma checked_add_Ok (a b c : N) :
  checked_add a b = Ok c -> c = a + b /\ a + b <= MAX_UINT256.
Proof.
  unfold checked_add. destruct (N.leb_spec (a + b) MAX_UINT256); intros E.
  - inversion E. split; [reflexivity | assumption].
  - discriminate.
Qed.

Lemma checked_sub_Ok (a b c : N) :
  checked_sub a b = Ok c -> c = a - b /\ b <= a.
Proof.
  unfold checked_sub. destruct (N.leb_spec b a); intros E.
  - inversion E. split; [reflexivity | assumption].
  - discriminate.
Qed.

Lemma checked_mul_Ok (a b c : N) :
  checked_mul a b = Ok c -> c = a * b /\ a * b <= MAX_UINT256.
Proof.
  unfold checked_mul. destruct (N.leb_spec (a * b) MAX_UINT256); intros E.
  - inversion E. split; [reflexivity | assumption].
  - discriminate.
Qed.

Lemma checked_div_Ok (a b c : N) :
  checked_div a b = Ok c -> c = a / b /\ b <> 0.
Proof.
  unfold checked_div. destruct (N.eqb_spec b 0); intros E.
  - discriminate.
  - inversion E. split; [reflexivity | assumption].
Qed.

Lemma checked_add_fits (a b : N) :
  a + b <= MAX_UINT256 -> checked_add a b = Ok (a + b).
Proof. intros L. unfold checked_add. apply N.leb_le in L. now rewrite L. Qed.

Lemma checked_sub_fits (a b : N) : b <= a -> checked_sub a b = Ok (a - b).
Proof. intros L. unfold checked_sub. apply N.leb_le in L. now rewrite L. Qed.

Lemma checked_mul_fits (a b : N) :
  a * b <= MAX_UINT256 -> checked_mul a b = Ok (a * b).
Proof. intros L. unfold checked_mul. apply N.leb_le in L. now rewrite L. Qed.

(** Take a successful run apart, one statement at a time. *)
Ltac inv_ok :=
  repeat match goal with
  | E : bind _ _ = Ok _ |- _ =>
      let a := fresh "x" in
      let Ea := fresh "E" in
      apply bind_Ok in E; destruct E as (a & Ea & E)
  | E : revert_if _ _ = Ok _ |- _ => apply revert_if_Ok in E
  | E : checked_add _ _ = Ok _ |- _ =>
      let L := fresh "L" in apply checked_add_Ok in E; destruct E as [E L]
  | E : checked_sub _ _ = Ok _ |- _ =>
      let L := fresh "L" in apply checked_sub_Ok in E; destruct E as [E L]
  | E : checked_mul _ _ = Ok _ |- _ =>
      let L := fresh "L" in apply checked_mul_Ok in E; destruct E as [E L]
  | E : checked_div _ _ = Ok _ |- _ =>
      let L := fresh "L" in apply checked_div_Ok in E; destruct E as [E L]
  | E : Ok _ = Ok _ |- _ => inversion E; clear E
  end.

Lemma transfers_of_app (a b : list event) :
  transfers_of (a ++ b) = transfers_of a ++ transfers_of b.
Proof.
  induction a as [|e a IH]; simpl; [reflexivity|].
  destruct e; simpl; rewrite ?IH; reflexivity.
Qed.

(** ** What the calls into the token and the vault leave behind *)

Lemma token_transfer_Ok (sender to : address) (amount : N) (w : World)
  (r : bool * World) :
  token_transfer sender to amount w = Ok r ->
  fst r = true /\ manager (snd r) = manager w /\ vault (snd r) = vault w
  /\ events (snd r) = events w ++ [Transfer sender to amount].
Proof.
  unfold token_transfer. intros E. inv_ok. subst r. simpl. auto.
Qed.

Lemma simulateYield_Ok (now : N) (w w1 : World) :
  YieldVault._simulateYield now w = Ok w1 ->
  manager w1 = manager w /\ hlusd w1 = hlusd w
  /\ v_self (vault w1) = v_self (vault w)
  /\ v_owner (vault w1) = v_owner (vault w)
  /\ exists evs, events w1 = events w ++ evs /\ transfers_of evs = [].
Proof.
  unfold YieldVault._simulateYield. intros E. inv_ok. subst w1.
  destruct (0 <? x).
  - inv_ok. subst x0. simpl. repeat split; try reflexivity.
    eexists. split; [reflexivity | reflexivity].
  - inv_ok. subst x0. simpl. repeat split; try reflexivity.
    exists []. rewrite app_nil_r. split; reflexivity.
Qed.

Lemma vault_withdraw_Ok (sender : address) (now amount : N) (to : address)
  (w w2 : World) :
  YieldVault.withdraw sender now amount to w = Ok w2 ->
  manager w2 = manager w
  /\ exists evs, events w2 = events w ++ evs
     /\ transfers_of evs = [(v_self (vault w), to, amount)].
Proof.
  unfold YieldVault.withdraw. intros E. inv_ok.
  match goal with
  | Hy : YieldVault._simulateYield _ _ = Ok ?w1 |- _ =>
      apply simulateYield_Ok in Hy as (Hm & _ & Hs & _ & evs & Hev & Htr)
  end.
  match goal with
  | Ht : token_transfer _ _ _ _ = Ok _ |- _ =>
      apply token_transfer_Ok in Ht as (_ & Hm' & _ & Hev')
  end.
  subst w2. simpl in *. split; [congruence|].
  exists (evs ++ [Transfer (v_self (vault w)) to amount; Withdraw to amount]).
  split.
  - rewrite Hev', Hev, <- !app_assoc. rewrite <- Hs.
    match goal with
    | Hv : (if ?c then _ else _) = Ok ?v, Hy : v_self ?v1 = _ |- _ =>
        assert (v_self v = v_self v1) as ->
          by (destruct c; inv_ok; subst; reflexivity)
    end.
    reflexivity.
  - rewrite transfers_of_app, Htr. reflexivity.
Qed.

Lemma executeWithdraw_Ok (now streamId : N) (w w' : World) :
  StreamManager._executeWithdraw now streamId w = Ok w' ->
  let s := stream_at w streamId in
  active s = true /\ paused s = false
  /\ lastCheckpoint s <= now
  /\ spec_tax now s <= spec_gross now s
  /\ 0 < spec_gross now s
  /\ manager w' = set_stream streamId (settled now s) (manager w)
  /\ exists evs,
       events w' = events w ++ evs
         ++ [Withdrawn streamId (employee s) (spec_gross now s)
               (spec_tax now s) (spec_net now s)]
       /\ transfers_of evs = payout_transfers now w s.
Proof.
  intros E s. unfold StreamManager._executeWithdraw in E. fold s in E.
  assert (Hb : spec_bonus now s
               = if StreamManager.bonus_claimable now s then bonusAmount s else 0)
    by reflexivity.
  assert (Ht : taxBps (if StreamManager.bonus_claimable now s
                       then set_bonusClaimed true s else s) = taxBps s)
    by (destruct (StreamManager.bonus_claimable now s); reflexivity).
  assert (He : employee (settled now s) = employee s)
    by (unfold settled; destruct (StreamManager.bonus_claimable now s);
        reflexivity).
  assert (He' : employee (if StreamManager.bonus_claimable now s
                          then set_bonusClaimed true s else s) = employee s)
    by (destruct (StreamManager.bonus_claimable now s); reflexivity).
  fold (settled now s) in E. rewrite Ht in E. inv_ok.
  subst w'. rewrite He' in *. rewrite He in *. clear He He' Ht.
  repeat match goal with
  | Hx : ?x = _ |- _ => is_var x; subst x
  end.
  fold (spec_accrued now s) in *. rewrite <- Hb in *.
  fold (spec_gross now s) in *. fold (spec_tax now s) in *.
  fold (spec_net now s) in *.
  match goal with
  | Hv : YieldVault.withdraw _ _ _ _ _ = Ok _ |- _ =>
      apply vault_withdraw_Ok in Hv as (Hm1 & evs1 & Hev1 & Htr1)
  end.
  match goal with
  | Hp : token_transfer _ (employee s) _ _ = Ok _ |- _ =>
      apply token_transfer_Ok in Hp as (_ & Hm3 & _ & Hev3)
  end.
  simpl in *.
  assert (Hnet : spec_net now s + spec_tax now s = spec_gross now s)
    by (unfold spec_net; lia).
  rewrite Hnet in *.
  assert (Htax : manager x10 = manager x9
                 /\ events x10 = events x9
                      ++ (if 0 <? spec_tax now s
                          then [Transfer (m_self (manager w))
                                  (taxVault (manager w)) (spec_tax now s)]
                          else [])).
  { destruct (0 <? spec_tax now s).
    - inv_ok.
      match goal with
      | Hp : token_transfer _ _ _ _ = Ok _ |- _ =>
          apply token_transfer_Ok in Hp as (_ & Hm2 & _ & Hev2)
      end.
      subst x10. rewrite Hm1 in Hev2. auto.
    - inv_ok. subst x10. rewrite app_nil_r. auto. }
  destruct Htax as [Hm2 Hev2].
  repeat split; try assumption.
  - now apply negb_false_iff.
  - match goal with
    | Hz : (spec_gross now s =? 0) = false |- _ =>
        apply N.eqb_neq in Hz; lia
    end.
  - congruence.
  - exists (evs1
            ++ (if 0 <? spec_tax now s
                then [Transfer (m_self (manager w)) (taxVault (manager w))
                        (spec_tax now s)]
                else [])
            ++ [Transfer (m_self (manager w)) (employee s) (spec_net now s)]).
    split.
    + rewrite Hev3, Hev2, Hev1, <- !app_assoc. reflexivity.
    + rewrite !transfers_of_app, Htr1. unfold payout_transfers.
      destruct (0 <? spec_tax now s); reflexivity.
Qed.

(** ** Streams read back after a write *)

Lemma stream_at_set_stream (i j : N) (s : Stream) (m : ManagerState)
  (w : World) :
  stream_at (set_manager (set_stream i s m) w) j
  = if decide (i = j) then s
    else default zeroStream (streams m !! j).
Proof.
  unfold stream_at. simpl. rewrite lookup_insert.
  destruct (decide (i = j)); reflexivity.
Qed.

Lemma stream_at_set_stream_eq (i : N) (s : Stream) (m : ManagerState)
  (w : World) :
  stream_at (set_manager (set_stream i s m) w) i = s.
Proof. rewrite stream_at_set_stream. now destruct (decide (i = i)). Qed.

Lemma stream_at_emit (evs : list event) (w : World) (i : N) :
  stream_at (emit evs w) i = stream_at w i.
Proof. reflexivity. Qed.

Lemma uint64_small (t : N) : t < 2 ^ 64 -> uint64 t = t.
Proof. intros L. unfold uint64. now apply N.mod_small. Qed.

(** ** Lifecycle calls that succeed *)

Lemma pauseStream_Ok (sender : address) (now streamId : N) (w w' : World) :
  StreamManager.pauseStream sender now streamId w = Ok w' ->
  let s := stream_at w streamId in
  active s = true /\ paused s = false
  /\ w' = emit [StreamPaused streamId]
            (set_manager
               (set_stream streamId
                  (set_paused true (set_lastCheckpoint (uint64 now) s))
                  (manager w)) w).
Proof.
  unfold StreamManager.pauseStream. intros E. inv_ok.
  repeat split; try congruence.
  match goal with
  | Hc : negb _ = false |- _ => now apply negb_false_iff in Hc
  end.
Qed.

Lemma resumeStream_Ok (sender : address) (now streamId : N) (w w' : World) :
  StreamManager.resumeStream sender now streamId w = Ok w' ->
  let s := stream_at w streamId in
  active s = true /\ paused s = true
  /\ w' = emit [StreamResumed streamId]
            (set_manager
               (set_stream streamId
                  (set_paused false (set_lastCheckpoint (uint64 now) s))
                  (manager w)) w).
Proof.
  unfold StreamManager.resumeStream. intros E. inv_ok.
  repeat match goal with
  | Hc : negb _ = false |- _ => apply negb_false_iff in Hc
  end.
  repeat split; congruence.
Qed.

Lemma cancelStream_Ok (sender : address) (now streamId : N) (w w' : World) :
  StreamManager.cancelStream sender now streamId w = Ok w' ->
  let s := stream_at w streamId in
  active s = true
  /\ w' = emit [StreamCancelled streamId]
            (set_manager
               (set_stream streamId
                  (set_active false (set_lastCheckpoint (uint64 now) s))
                  (manager w)) w).
Proof.
  unfold StreamManager.cancelStream. intros E. inv_ok.
  repeat match goal with
  | Hc : negb _ = false |- _ => apply negb_false_iff in Hc
  end.
  repeat split; congruence.
Qed.

(** ** Withdrawals that are refused *)

Lemma executeWithdraw_inactive (now streamId : N) (w : World) :
  active (stream_at w streamId) = false ->
  StreamManager._executeWithdraw now streamId w
  = Revert (StreamInactive streamId).
Proof. intros Ha. unfold StreamManager._executeWithdraw. now rewrite Ha. Qed.

Lemma executeWithdraw_paused (now streamId : N) (w : World) :
  active (stream_at w streamId) = true ->
  paused (stream_at w streamId) = true ->
  StreamManager._executeWithdraw now streamId w
  = Revert (AlreadyPaused streamId).
Proof.
  intros Ha Hp. unfold StreamManager._executeWithdraw. now rewrite Ha, Hp.
Qed.

Lemma executeWithdraw_blocked (now streamId : N) (w : World) :
  active (stream_at w streamId) = false \/ paused (stream_at w streamId) = true ->
  is_revert (StreamManager._executeWithdraw now streamId w).
Proof.
  intros Hb. destruct (active (stream_at w streamId)) eqn:Ha.
  - destruct Hb as [Hb|Hb]; [discriminate|].
    now rewrite executeWithdraw_paused.
  - now rewrite executeWithdraw_inactive.
Qed.

Lemma is_revert_bind {A B : Type} (r : result A) (k : A -> result B) :
  (forall a, r = Ok a -> is_revert (k a)) -> is_revert (bind r k).
Proof. destruct r as [a|e]; simpl; [intros Hk; now apply Hk | trivial]. Qed.

Lemma is_revert_not_Ok {A : Type} (r : result A) :
  is_revert r <-> forall a, r <> Ok a.
Proof.
  destruct r as [a|e]; simpl; split; try easy.
  intros Hn. now apply (Hn a).
Qed.

Section SignedPath.
Context `{Eip712}.

Lemma withdrawSigned_Ok (relayer : address)
  (now streamId nonce deadline relayerFee : N) (signature : list N)
  (w w' : World) :
  StreamManager.withdrawSigned relayer now streamId nonce deadline
    relayerFee signature w = Ok w' ->
  let s := stream_at w streamId in
  let w1 := set_manager (set_nonce (employee s) (nonce + 1) (manager w)) w in
  now <= deadline
  /\ nonce = nonce_of w (employee s)
  /\ recover (toTypedDataHash (DOMAIN_SEPARATOR (manager w))
                (structHash streamId nonce deadline)) signature
     = Ok (employee s)
  /\ exists w2,
       StreamManager._executeWithdraw now streamId w1 = Ok w2
       /\ (0 < relayerFee -> relayerFee <= sponsorshipPool (manager w2))
       /\ manager w'
          = (if 0 <? relayerFee
             then set_sponsorshipPool
                    (sponsorshipPool (manager w2) - relayerFee) (manager w2)
             else manager w2)
       /\ events w'
          = events w2
            ++ (if 0 <? relayerFee
                then [Transfer (m_self (manager w2)) relayer relayerFee]
                else [])
            ++ [WithdrawnSigned streamId (employee s) relayer relayerFee].
Proof.
  intros E s w1. unfold StreamManager.withdrawSigned in E. fold s in E.
  inv_ok.
  repeat match goal with
  | Hx : ?x = _ |- _ => is_var x; subst x
  end.
  repeat match goal with
  | Hc : negb _ = false |- _ => apply negb_false_iff in Hc
  | Hc : (_ =? _) = true |- _ => apply N.eqb_eq in Hc
  | Hc : (_ <? _) = false |- _ => apply N.ltb_ge in Hc
  end.
  subst. split; [assumption|]. split; [reflexivity|].
  split; [assumption|].
  match goal with
  | Hx : StreamManager._executeWithdraw _ _ _ = Ok ?w2 |- _ =>
      exists w2; split; [exact Hx|]
  end.
  destruct (N.ltb_spec 0 relayerFee) as [Hfee|Hfee].
  - inv_ok.
    match goal with
    | Hp : token_transfer _ _ _ _ = Ok _ |- _ =>
        apply token_transfer_Ok in Hp as (_ & Hm & _ & Hev)
    end.
    repeat match goal with
    | Hx : ?x = _ |- _ => is_var x; subst x
    end.
    simpl in *. rewrite Hm, Hev, <- app_assoc.
    repeat split; try reflexivity.
    intros _.
    match goal with
    | Hc : (_ <? _) = false |- _ => now apply N.ltb_ge in Hc
    end.
  - inv_ok. subst. simpl. repeat split; try reflexivity. lia.
Qed.

(** The facts about the core withdrawal that both paths share: the
    world [w0] it runs on is [w] up to the nonces. *)
Lemma executeWithdraw_pays (now streamId : N) (w w0 w2 : World) :
  let s := stream_at w streamId in
  stream_at w0 streamId = s -> events w0 = events w ->
  vault w0 = vault w -> m_self (manager w0) = m_self (manager w) ->
  taxVault (manager w0) = taxVault (manager w) ->
  StreamManager._executeWithdraw now streamId w0 = Ok w2 ->
  lastCheckpoint s <= now
  /\ spec_tax now s <= spec_gross now s
  /\ m_self (manager w2) = m_self (manager w)
  /\ exists evs,
       events w2 = events w ++ evs
         ++ [Withdrawn streamId (employee s) (spec_gross now s)
               (spec_tax now s) (spec_net now s)]
       /\ transfers_of evs = payout_transfers now w s.
Proof.
  intros s Hs Hev Hv Hself Htv E0.
  apply executeWithdraw_Ok in E0. rewrite Hs in E0.
  destruct E0 as (_ & _ & Hcp & Htax & _ & Hm & evs & Hevs & Htr).
  repeat split; try assumption.
  - rewrite Hm. simpl. exact Hself.
  - exists evs. split; [now rewrite Hevs, Hev|].
    rewrite Htr. unfold payout_transfers. now rewrite Hv, Hself, Htv.
Qed.

(** The events a withdrawal that succeeds, direct or signed, logs. *)
Lemma run_withdrawal_events (p : withdrawal_path) (now streamId : N)
  (w w' : World) :
  run_withdrawal p now streamId w = Ok w' ->
  let s := stream_at w streamId in
  exists evs,
    events w' = events w ++ evs
    /\ In (Withdrawn streamId (employee s) (spec_gross now s)
             (spec_tax now s) (spec_net now s)) evs
    /\ transfers_of evs = payout_transfers now w s ++ relayer_transfers p w.
Proof.
  intros E s.
  destruct p as [|relayer nonce deadline relayerFee signature]; simpl in E.
  - apply (executeWithdraw_pays now streamId w w) in E; try reflexivity.
    destruct E as (_ & _ & _ & evs & Hevs & Htr).
    eexists. split; [exact Hevs|]. split.
    + apply in_or_app. right. now left.
    + rewrite transfers_of_app, Htr. simpl. reflexivity.
  - apply withdrawSigned_Ok in E.
    destruct E as (_ & _ & _ & w2 & E2 & _ & _ & Hev').
    apply (executeWithdraw_pays now streamId w) in E2; try reflexivity.
    destruct E2 as (_ & _ & Hself & evs & Hevs & Htr).
    exists ((evs ++ [Withdrawn streamId (employee s) (spec_gross now s)
                       (spec_tax now s) (spec_net now s)])
            ++ (if 0 <? relayerFee
                then [Transfer (m_self (manager w2)) relayer relayerFee]
                else [])
            ++ [WithdrawnSigned streamId (employee s) relayer relayerFee]).
    split; [|split].
    + rewrite Hev', Hevs, <- !app_assoc. reflexivity.
    + apply in_or_app. left. apply in_or_app. right. now left.
    + rewrite !transfers_of_app, Htr, Hself. simpl.
      destruct (0 <? relayerFee); simpl; now rewrite ?app_nil_r.
Qed.


End SignedPath.


Section Lifecycle.
Context `{Eip712}.

Lemma run_withdrawal_blocked (p : withdrawal_path) (now streamId : N)
  (w : World) :
  active (stream_at w streamId) = false
  \/ paused (stream_at w streamId) = true ->
  is_revert (run_withdrawal p now streamId w).
Proof.
  intros Hb. destruct p as [|relayer nonce deadline fee sig]; simpl.
  - now apply executeWithdraw_blocked.
  - apply is_revert_not_Ok. intros w' E.
    apply withdrawSigned_Ok in E as (_ & _ & _ & w2 & E2 & _).
    apply executeWithdraw_Ok in E2 as (Ha & Hp & _).
    unfold stream_at in *. simpl in Ha, Hp.
    destruct Hb; congruence.
Qed.

End Lifecycle.

Section Views.
Context `{Eip712}.

(** C10. The views [accruedSalary] and [netWithdrawable] read no
    lifecycle flag: whatever [active] and [paused] are set to, they
    return the same value, and [accruedSalary] is
    [ratePerSecond * (now - lastCheckpoint)] for every stream, so it keeps
    growing with time on a paused or cancelled stream, where every
    withdrawal is refused. *)
Theorem views_ignore_lifecycle_flags (now later streamId : N) (w : World) :
  let s := stream_at w streamId in
  lastCheckpoint s <= now -> now <= later ->
  ratePerSecond s * (later - lastCheckpoint s) <= MAX_UINT256 ->
  StreamManager.accruedSalary now streamId w
  = Ok (ratePerSecond s * (now - lastCheckpoint s))
  /\ StreamManager.accruedSalary later streamId w
     = Ok (ratePerSecond s * (later - lastCheckpoint s))
  /\ ratePerSecond s * (now - lastCheckpoint s)
     <= ratePerSecond s * (later - lastCheckpoint s)
  /\ (0 < ratePerSecond s -> now < later ->
      ratePerSecond s * (now - lastCheckpoint s)
      < ratePerSecond s * (later - lastCheckpoint s))
  /\ (forall a p,
        StreamManager.accruedSalary now streamId (with_flags streamId a p w)
        = StreamManager.accruedSalary now streamId w
        /\ StreamManager.netWithdrawable now streamId
             (with_flags streamId a p w)
           = StreamManager.netWithdrawable now streamId w)
  /\ (active s = false \/ paused s = true ->
      forall p t, is_revert (run_withdrawal p t streamId w)).
Proof.
  intros s Hcp Hle Hfit.
  assert (Hmono : ratePerSecond s * (now - lastCheckpoint s)
                  <= ratePerSecond s * (later - lastCheckpoint s))
    by (apply N.mul_le_mono_l; lia).
  repeat split.
  - unfold StreamManager.accruedSalary. fold s.
    rewrite checked_sub_fits by assumption. simpl.
    apply checked_mul_fits. lia.
  - unfold StreamManager.accruedSalary. fold s.
    rewrite checked_sub_fits by lia. simpl.
    now apply checked_mul_fits.
  - exact Hmono.
  - intros Hr Hlt. apply N.mul_lt_mono_pos_l; lia.
  - unfold StreamManager.accruedSalary, with_flags.
    now rewrite stream_at_set_stream_eq.
  - unfold StreamManager.netWithdrawable, with_flags.
    now rewrite stream_at_set_stream_eq.
  - intros Hb p t. now apply run_withdrawal_blocked.
Qed.

End Views.

(** On the cancelled stream of [ex_cancelled] the view keeps growing. *)
Lemma views_ignore_lifecycle_flags_witness :
  let w := ex_cancelled in
  active (stream_at w 0) = false
  /\ StreamManager.accruedSalary 1200 0 w = Ok 100
  /\ StreamManager.accruedSalary 1300 0 w = Ok 200
  /\ is_revert (run_withdrawal (H := example_scheme) Direct 1300 0 w).
Proof.
  intros w.
  assert (Hcp : lastCheckpoint (stream_at w 0) <= 1200)
    by (vm_compute; discriminate).
  assert (Hle : 1200 <= 1300) by lia.
  assert (Hfit : ratePerSecond (stream_at w 0)
                 * (1300 - lastCheckpoint (stream_at w 0)) <= MAX_UINT256)
    by (vm_compute; discriminate).
  assert (Ha : active (stream_at w 0) = false) by (vm_compute; reflexivity).
  destruct (views_ignore_lifecycle_flags (H := example_scheme) 1200 1300 0 w
              Hcp Hle Hfit) as (E1 & E2 & _ & _ & _ & Hb).
  split; [exact Ha|]. split; [exact E1|]. split; [exact E2|].
  exact (Hb (or_introl Ha) Direct 1300).
Defined.

(** ** Pausing *)

(** The world a pause leaves does not depend on the checkpoint it found:
    whatever had accrued since then is recorded nowhere. *)
Lemma pauseStream_forgets_checkpoint (sender : address) (now streamId c : N)
  (w : World) :
  StreamManager.pauseStream sender now streamId (with_checkpoint streamId c w)
  = StreamManager.pauseStream sender now streamId w.
Proof.
  unfold StreamManager.pauseStream, with_checkpoint.
  rewrite stream_at_set_stream_eq. simpl.
  destruct (onlyOwner sender (m_owner (manager w))); simpl; [|reflexivity].
  destruct (active (stream_at w streamId)); simpl; [|reflexivity].
  destruct (paused (stream_at w streamId)); simpl; [reflexivity|].
  unfold set_stream. simpl. now rewrite insert_insert_eq.
Qed.

(** C2. Stream 0 pays one token a second from time 1000 and nothing has
    been withdrawn.  At 1100 the 100 tokens accrued are reported by
    [accruedSalary]; the pause at 1100 moves no token and leaves the accrued
    salary at 0; after the resumption at 1200 the withdrawal at 1300 pays
    for the 100 seconds since the resumption only (100 gross, 5 tax, 95
    net), and the employee holds 95 tokens: the salary accrued before the
    pause is not collected. *)
Theorem pause_drops_accrued_salary :
  StreamManager.accruedSalary 1100 0 ex_funded = Ok 100
  /\ StreamManager.pauseStream ex_owner 1100 0 ex_funded = Ok ex_paused
  /\ hlusd ex_paused = hlusd ex_funded
  /\ StreamManager.accruedSalary 1100 0 ex_paused = Ok 0
  /\ StreamManager.resumeStream ex_owner 1200 0 ex_paused = Ok ex_resumed
  /\ StreamManager.withdraw 1300 0 ex_resumed = Ok ex_collected
  /\ new_events ex_resumed ex_collected
     = [Transfer ex_vault ex_manager 100; Withdraw ex_manager 100;
        Transfer ex_manager ex_tax 5; Transfer ex_manager ex_employee 95;
        Withdrawn 0 ex_employee 100 5 95]
  /\ HLUSD.balanceOf (hlusd ex_collected) ex_employee = 95.
Proof. vm_compute. repeat split; reflexivity. Qed.

(** ** The treasury vault *)

Lemma pendingYield_Ok (now : N) (v : VaultState) (p : N) :
  YieldVault._pendingYield now v = Ok p -> p = spec_pendingYield now v.
Proof.
  unfold YieldVault._pendingYield, spec_pendingYield.
  destruct (N.eqb_spec (totalPrincipal v) 0) as [HP|HP]; simpl.
  - intros E. inv_ok. subst. rewrite HP. reflexivity.
  - destruct (N.eqb_spec (yieldRateBps v) 0) as [HR|HR]; simpl.
    + intros E. inv_ok. subst. rewrite HR, N.mul_0_r. reflexivity.
    + intros E. inv_ok.
      destruct (N.eqb_spec x 0) as [Hx|Hx].
      * inv_ok. subst. rewrite Hx, N.mul_0_r. reflexivity.
      * inv_ok. subst. reflexivity.
Qed.

Lemma pendingYield_fits (now : N) (v : VaultState) :
  lastUpdate v <= now ->
  totalPrincipal v * yieldRateBps v * (now - lastUpdate v) <= MAX_UINT256 ->
  YieldVault._pendingYield now v = Ok (spec_pendingYield now v).
Proof.
  intros Hle Hfit. unfold YieldVault._pendingYield, spec_pendingYield.
  destruct (N.eqb_spec (totalPrincipal v) 0) as [HP|HP]; simpl.
  - rewrite HP. reflexivity.
  - destruct (N.eqb_spec (yieldRateBps v) 0) as [HR|HR]; simpl.
    + rewrite HR, N.mul_0_r. reflexivity.
    + rewrite checked_sub_fits by assumption. simpl.
      destruct (N.eqb_spec (now - lastUpdate v) 0) as [Hx|Hx].
      * rewrite Hx, N.mul_0_r. reflexivity.
      * rewrite checked_mul_fits; simpl.
        -- rewrite checked_mul_fits by assumption. reflexivity.
        -- apply N.le_trans with (2 := Hfit).
           rewrite <- (N.mul_1_r (totalPrincipal v * yieldRateBps v)) at 1.
           apply N.mul_le_mono_l. lia.
Qed.

(** C9. [currentBalance] is a function of the time and of the storage of
    the vault that returns a number and no new world, so it changes no
    state.  Whenever the amounts fit in 256 bits it returns
    [totalPrincipal + accumulatedYield + pending], where [pending] is
    [totalPrincipal * yieldRateBps * elapsed / (10000 * secondsPerYear)]
    rounded down; [pending] is zero when the principal, the rate or the
    elapsed time is zero and does not depend on the yield accumulated so
    far (no compounding). *)
Theorem currentBalance_exact (now : N) (w : World) :
  lastUpdate (vault w) <= now ->
  totalPrincipal (vault w) * yieldRateBps (vault w)
  * (now - lastUpdate (vault w)) <= MAX_UINT256 ->
  spec_currentBalance now (vault w) <= MAX_UINT256 ->
  YieldVault.currentBalance now w
  = Ok (totalPrincipal (vault w) + accumulatedYield (vault w)
        + totalPrincipal (vault w) * yieldRateBps (vault w)
          * (now - lastUpdate (vault w)) / (10000 * 31536000))
  /\ (totalPrincipal (vault w) = 0 \/ yieldRateBps (vault w) = 0
      \/ now = lastUpdate (vault w) ->
      YieldVault.currentBalance now w
      = Ok (totalPrincipal (vault w) + accumulatedYield (vault w)))
  /\ (forall y,
        YieldVault._pendingYield now (set_accumulatedYield y (vault w))
        = YieldVault._pendingYield now (vault w)).
Proof.
  intros Hle Hfit Hbal.
  assert (E : YieldVault.currentBalance now w
              = Ok (spec_currentBalance now (vault w))).
  { unfold YieldVault.currentBalance.
    rewrite pendingYield_fits by assumption. simpl.
    unfold spec_currentBalance in *.
    rewrite checked_add_fits by lia. simpl.
    now apply checked_add_fits. }
  split; [exact E|]. split; [|reflexivity].
  intros Hz. rewrite E. unfold spec_currentBalance, spec_pendingYield.
  assert (totalPrincipal (vault w) * yieldRateBps (vault w)
          * (now - lastUpdate (vault w)) = 0) as ->.
  { destruct Hz as [-> | [-> | ->]].
    - reflexivity.
    - now rewrite N.mul_0_r.
    - now rewrite N.sub_diag, N.mul_0_r. }
  now rewrite N.add_0_r.
Qed.

(** After one year at 5%, 100000 tokens of principal show 5000 of yield. *)
Lemma currentBalance_exact_witness :
  YieldVault.currentBalance (1000 + 31536000) ex_vault_world = Ok 105000.
Proof.
  assert (Hle : lastUpdate (vault ex_vault_world) <= 1000 + 31536000)
    by (vm_compute; discriminate).
  assert (Hfit : totalPrincipal (vault ex_vault_world)
                 * yieldRateBps (vault ex_vault_world)
                 * (1000 + 31536000 - lastUpdate (vault ex_vault_world))
                 <= MAX_UINT256) by (vm_compute; discriminate).
  assert (Hbal : spec_currentBalance (1000 + 31536000) (vault ex_vault_world)
                 <= MAX_UINT256) by (vm_compute; discriminate).
  exact (proj1 (currentBalance_exact (1000 + 31536000) ex_vault_world
                  Hle Hfit Hbal)).
Defined.

(** Whatever [currentBalance] returns is that sum. *)
Lemma currentBalance_Ok (now : N) (w : World) (b : N) :
  YieldVault.currentBalance now w = Ok b ->
  b = spec_currentBalance now (vault w).
Proof.
  unfold YieldVault.currentBalance. intros E. inv_ok.
  match goal with
  | Hp : YieldVault._pendingYield _ _ = Ok _ |- _ =>
      apply pendingYield_Ok in Hp
  end.
  subst. reflexivity.
Qed.

Lemma new_events_app (w w' : World) (evs : list event) :
  events w' = events w ++ evs -> new_events w w' = evs.
Proof. intros E. unfold new_events. rewrite E. apply drop_app_length. Qed.

Lemma onlyOwner_owner (a : address) : onlyOwner a a = Ok tt.
Proof. unfold onlyOwner. now rewrite N.eqb_refl. Qed.

(** C8. [withdraw(amount, to)] of the vault, called by its owner with a
    recipient that is not the zero address, accrues the pending yield
    first.  With [P] and [Y] the principal and the accumulated yield after
    that accrual: when [amount > P + Y] the call fails with
    [InsufficientBalance] and the world stays as it was; otherwise (for a
    positive amount, and when the token transfer goes through) the amount
    is taken from the accumulated yield first and only the remainder from
    the principal, and the one token movement is [amount] from the vault to
    the recipient. *)
Theorem vault_withdraw_yield_first (sender : address) (now amount : N)
  (to : address) (w w1 : World) :
  sender = v_owner (vault w) -> to <> 0 ->
  YieldVault._simulateYield now w = Ok w1 ->
  totalPrincipal (vault w1) + accumulatedYield (vault w1) <= MAX_UINT256 ->
  let P := totalPrincipal (vault w1) in
  let Y := accumulatedYield (vault w1) in
  (P + Y < amount ->
   YieldVault.withdraw sender now amount to w
   = Revert (InsufficientBalance amount (P + Y))
   /\ commit (YieldVault.withdraw sender now amount to w) w = w)
  /\ (0 < amount -> amount <= P + Y ->
      forall t',
        HLUSD._transfer (v_self (vault w)) to amount (hlusd w) = Ok t' ->
        exists w',
          YieldVault.withdraw sender now amount to w = Ok w'
          /\ accumulatedYield (vault w') = Y - N.min amount Y
          /\ totalPrincipal (vault w') = P - (amount - N.min amount Y)
          /\ hlusd w' = t'
          /\ transfers_of (new_events w w') = [(v_self (vault w), to, amount)]).
Proof.
  intros -> Hto Hsim Hfit P Y.
  pose proof (simulateYield_Ok _ _ _ Hsim) as (_ & Hh & Hs & _ & evs & Hev & Htr).
  assert (Hto' : (to =? 0) = false) by now apply N.eqb_neq.
  split.
  - intros Hlt.
    assert (E : YieldVault.withdraw (v_owner (vault w)) now amount to w
                = Revert (InsufficientBalance amount (P + Y))).
    { unfold YieldVault.withdraw. rewrite onlyOwner_owner. simpl.
      assert ((amount =? 0) = false) as -> by (apply N.eqb_neq; lia).
      simpl. rewrite Hto'. simpl. rewrite Hsim. simpl.
      rewrite checked_add_fits by assumption. simpl.
      fold P Y.
      assert ((P + Y <? amount) = true) as -> by now apply N.ltb_lt.
      reflexivity. }
    rewrite E. split; reflexivity.
  - intros Hpos Hle t' Htok.
    unfold YieldVault.withdraw. rewrite onlyOwner_owner. simpl.
    assert ((amount =? 0) = false) as -> by (apply N.eqb_neq; lia).
    simpl. rewrite Hto'. simpl. rewrite Hsim. simpl.
    rewrite checked_add_fits by assumption. simpl. fold P Y.
    assert ((P + Y <? amount) = false) as -> by now apply N.ltb_ge.
    simpl. unfold token_transfer.
    destruct (N.leb_spec amount Y) as [HY|HY]; fold Y.
    + rewrite checked_sub_fits by assumption. simpl.
      rewrite Hh, Hs, Htok. simpl. eexists. split; [reflexivity|]. simpl.
      rewrite N.min_l by assumption.
      repeat split; try reflexivity.
      * fold P. lia.
      * erewrite new_events_app.
        2:{ simpl. rewrite Hev, <- !app_assoc. reflexivity. }
        rewrite transfers_of_app, Htr. reflexivity.
    + rewrite checked_sub_fits by lia. simpl. fold P.
      rewrite checked_sub_fits by lia. simpl.
      rewrite Hh, Hs, Htok. simpl. eexists. split; [reflexivity|]. simpl.
      rewrite N.min_r by lia.
      repeat split; try reflexivity.
      * lia.
      * erewrite new_events_app.
        2:{ simpl. rewrite Hev, <- !app_assoc. reflexivity. }
        rewrite transfers_of_app, Htr. reflexivity.
Qed.

Lemma vault_withdraw_yield_first_witness :
  YieldVault.withdraw ex_manager (1000 + 31536000) 200000 ex_manager
    ex_vault_world
  = Revert (InsufficientBalance 200000 105000)
  /\ exists w',
       YieldVault.withdraw ex_manager (1000 + 31536000) 7000 ex_manager
         ex_vault_world = Ok w'
       /\ accumulatedYield (vault w') = 0
       /\ totalPrincipal (vault w') = 98000.
Proof.
  assert (Ho : ex_manager = v_owner (vault ex_vault_world)) by reflexivity.
  assert (Hto : ex_manager <> 0) by discriminate.
  assert (Hsim : YieldVault._simulateYield (1000 + 31536000) ex_vault_world
                 = Ok ex_vault_accrued) by (vm_compute; reflexivity).
  assert (Hfit : totalPrincipal (vault ex_vault_accrued)
                 + accumulatedYield (vault ex_vault_accrued) <= MAX_UINT256)
    by (vm_compute; discriminate).
  split.
  - destruct (vault_withdraw_yield_first ex_manager (1000 + 31536000) 200000
                ex_manager ex_vault_world ex_vault_accrued Ho Hto Hsim Hfit)
      as [Hbig _].
    apply Hbig. vm_compute. reflexivity.
  - destruct (vault_withdraw_yield_first ex_manager (1000 + 31536000) 7000
                ex_manager ex_vault_world ex_vault_accrued Ho Hto Hsim Hfit)
      as [_ Hsmall].
    destruct (Hsmall) with
      (t' := HLUSD.mk {[ ex_vault := 93000; ex_manager := 7000 ]} ∅)
      as (w' & E & HY & HP & _).
    + reflexivity.
    + vm_compute. discriminate.
    + vm_compute. reflexivity.
    + exists w'. split; [exact E|]. split; [exact HY | exact HP].
Defined.

(** ** Creating streams *)

Lemma validate_valid (inp : StreamInput) :
  valid_input inp = true ->
  StreamManager._validateStreamParams (in_employee inp) (in_ratePerSecond inp)
    (in_taxBps inp) = Ok tt.
Proof.
  unfold valid_input, StreamManager._validateStreamParams,
    StreamManager.MAX_TAX_BPS.
  intros Hv. apply andb_prop in Hv as [Hv Ht].
  apply andb_prop in Hv as [Hv Hm]. apply andb_prop in Hv as [He Hr].
  apply negb_true_iff in He. rewrite He. simpl.
  apply N.ltb_lt in Hr. apply N.leb_le in Hm, Ht.
  assert ((in_ratePerSecond inp =? 0) = false) as ->
    by (apply N.eqb_neq; lia).
  assert ((StreamManager.MAX_RATE <? in_ratePerSecond inp) = false) as ->
    by (now apply N.ltb_ge).
  simpl.
  assert ((10000 <? in_taxBps inp) = false) as -> by (now apply N.ltb_ge).
  reflexivity.
Qed.

Lemma validate_invalid (inp : StreamInput) :
  valid_input inp = false ->
  is_revert (StreamManager._validateStreamParams (in_employee inp)
               (in_ratePerSecond inp) (in_taxBps inp)).
Proof.
  unfold valid_input, StreamManager._validateStreamParams,
    StreamManager.MAX_TAX_BPS.
  intros Hv.
  destruct (in_employee inp =? 0); simpl in *; [exact I|].
  destruct (N.eqb_spec (in_ratePerSecond inp) 0) as [Hz|Hz]; simpl;
    [exact I|].
  assert ((0 <? in_ratePerSecond inp) = true) as Hp
    by (apply N.ltb_lt; lia).
  rewrite Hp in Hv. simpl in Hv.
  destruct (N.ltb_spec StreamManager.MAX_RATE (in_ratePerSecond inp))
    as [Hm|Hm]; simpl; [exact I|].
  apply N.leb_le in Hm. rewrite Hm in Hv. simpl in Hv.
  apply N.leb_gt in Hv. apply N.ltb_lt in Hv. rewrite Hv. exact I.
Qed.

Lemma batch_loop_invalid (checkpoint : N) (inputs : list StreamInput) :
  forallb valid_input inputs = false ->
  forall w, is_revert (StreamManager.batch_loop checkpoint inputs w).
Proof.
  induction inputs as [|inp rest IH]; simpl; [discriminate|].
  intros Hv w. destruct (valid_input inp) eqn:Hi; simpl in Hv.
  - rewrite validate_valid by assumption. simpl.
    apply is_revert_bind. intros w1 _. now apply IH.
  - apply validate_invalid in Hi. apply is_revert_bind.
    intros u Hu. rewrite Hu in Hi. destruct Hi.
Qed.

Lemma batch_loop_Ok (checkpoint : N) (inputs : list StreamInput) :
  forallb valid_input inputs = true ->
  forall w,
    nextStreamId (manager w) + N.of_nat (length inputs) <= MAX_UINT256 ->
    exists w',
      StreamManager.batch_loop checkpoint inputs w = Ok w'
      /\ nextStreamId (manager w')
         = nextStreamId (manager w) + N.of_nat (length inputs)
      /\ (forall (i : nat) inp, inputs !! i = Some inp ->
            stream_at w' (nextStreamId (manager w) + N.of_nat i)
            = created checkpoint inp)
      /\ (forall j, j < nextStreamId (manager w) ->
            stream_at w' j = stream_at w j)
      /\ hlusd w' = hlusd w /\ vault w' = vault w.
Proof.
  induction inputs as [|inp rest IH]; intros Hv w Hfit.
  - exists w. simpl. rewrite N.add_0_r. repeat split; try reflexivity.
    intros i inp Hi. discriminate.
  - simpl in Hv. apply andb_prop in Hv as [Hi Hrest].
    simpl. rewrite validate_valid by assumption. simpl.
    unfold StreamManager.store_new_stream.
    rewrite checked_add_fits by (simpl length in Hfit; lia). simpl.
    set (w1 := emit _ _).
    destruct (IH Hrest w1) as (w' & E & Hn & Hnew & Hold & Hh & Hv').
    { simpl. simpl length in Hfit. lia. }
    exists w'. split; [exact E|]. simpl in Hn. split.
    { rewrite Hn. simpl length. lia. }
    split; [|split; [|split]].
    + intros [|i] inp' Hlk; simpl in Hlk.
      * inversion Hlk. subst inp'. rewrite N.add_0_r.
        rewrite Hold by (simpl; lia).
        subst w1. rewrite stream_at_emit.
        apply stream_at_set_stream_eq.
      * specialize (Hnew i inp' Hlk). simpl in Hnew.
        replace (nextStreamId (manager w) + N.of_nat (S i))
          with (nextStreamId (manager w) + 1 + N.of_nat i) by lia.
        exact Hnew.
    + intros j Hj. rewrite Hold by (simpl; lia).
      subst w1. rewrite stream_at_emit, stream_at_set_stream.
      destruct (decide (nextStreamId (manager w) = j)); [lia|reflexivity].
    + rewrite Hh. reflexivity.
    + rewrite Hv'. reflexivity.
Qed.

(** C7. [batchCreateStreams], called by the owner: a list of length 0 or
    above 200 fails with [InvalidBatchSize]; for 1 to 200 entries, every
    entry goes through the validation [createStream] uses (non-zero
    employee, [0 < ratePerSecond <= MAX_RATE], [taxBps <= 10000]); one
    invalid entry makes the whole call fail and the world stays as it was,
    with no stream created; when all are valid the entries become the
    streams at the next identifiers, in order, all with the one checkpoint
    [uint64(block.timestamp)]. *)
Theorem batchCreateStreams_atomic (sender : address) (now : N)
  (inputs : list StreamInput) (w : World) :
  sender = m_owner (manager w) ->
  let len := N.of_nat (length inputs) in
  let next := nextStreamId (manager w) in
  (len = 0 \/ 200 < len ->
   StreamManager.batchCreateStreams sender now inputs w
   = Revert InvalidBatchSize)
  /\ (1 <= len <= 200 -> forallb valid_input inputs = false ->
      is_revert (StreamManager.batchCreateStreams sender now inputs w)
      /\ commit (StreamManager.batchCreateStreams sender now inputs w) w = w)
  /\ (1 <= len <= 200 -> forallb valid_input inputs = true ->
      next + len <= MAX_UINT256 ->
      exists w',
        StreamManager.batchCreateStreams sender now inputs w = Ok w'
        /\ nextStreamId (manager w') = next + len
        /\ (forall (i : nat) inp, inputs !! i = Some inp ->
              stream_at w' (next + N.of_nat i) = created (uint64 now) inp)
        /\ (forall j, j < next -> stream_at w' j = stream_at w j))
  /\ (forall inp,
        (valid_input inp = false ->
         is_revert (StreamManager.createStream sender now (in_employee inp)
                      (in_ratePerSecond inp) (in_taxBps inp) w))
        /\ (valid_input inp = true -> next + 1 <= MAX_UINT256 ->
            exists w',
              StreamManager.createStream sender now (in_employee inp)
                (in_ratePerSecond inp) (in_taxBps inp) w = Ok w'
              /\ stream_at w' next = created (uint64 now) inp)).
Proof.
  intros -> len next.
  assert (Hsize : forall b : bool,
             ((len =? 0) || (StreamManager.MAX_BATCH <? len)) = b ->
             StreamManager.batchCreateStreams (m_owner (manager w)) now inputs w
             = if b then Revert InvalidBatchSize
               else StreamManager.batch_loop (uint64 now) inputs w).
  { intros b Hb. unfold StreamManager.batchCreateStreams.
    rewrite onlyOwner_owner. simpl. fold len. rewrite Hb.
    destruct b; reflexivity. }
  assert (Hin : 1 <= len <= 200 ->
                ((len =? 0) || (StreamManager.MAX_BATCH <? len)) = false).
  { intros [H1 H2]. apply orb_false_iff. split.
    - apply N.eqb_neq. lia.
    - apply N.ltb_ge. exact H2. }
  split; [|split; [|split]].
  - intros Hbad. apply (Hsize true). apply orb_true_iff.
    destruct Hbad as [Hz|Hbig].
    + left. now apply N.eqb_eq.
    + right. now apply N.ltb_lt.
  - intros Hlen Hv. rewrite (Hsize false (Hin Hlen)).
    pose proof (batch_loop_invalid (uint64 now) inputs Hv w) as Hr.
    split; [exact Hr|].
    destruct (StreamManager.batch_loop (uint64 now) inputs w);
      [destruct Hr | reflexivity].
  - intros Hlen Hv Hfit. rewrite (Hsize false (Hin Hlen)).
    destruct (batch_loop_Ok (uint64 now) inputs Hv w Hfit)
      as (w' & E & Hn & Hnew & Hold & _).
    exists w'. repeat split; assumption.
  - intros inp. unfold StreamManager.createStream.
    rewrite onlyOwner_owner. simpl. split.
    + intros Hv. apply validate_invalid in Hv. apply is_revert_bind.
      intros u Hu. rewrite Hu in Hv. destruct Hv.
    + intros Hv Hfit. rewrite validate_valid by assumption. simpl.
      unfold StreamManager.store_new_stream.
      rewrite checked_add_fits by assumption. simpl.
      eexists. split; [reflexivity|].
      rewrite stream_at_emit. apply stream_at_set_stream_eq.
Qed.

(** A batch of 200 entries goes through, all with the checkpoint of the
    call; one of 201 entries, or with an invalid entry, creates nothing. *)
Lemma batchCreateStreams_atomic_witness :
  (exists w',
     StreamManager.batchCreateStreams ex_owner 1000
       (map ex_input (seq 0 200)) ex_funded = Ok w'
     /\ nextStreamId (manager w') = 201
     /\ lastCheckpoint (stream_at w' 1) = 1000
     /\ lastCheckpoint (stream_at w' 200) = 1000)
  /\ StreamManager.batchCreateStreams ex_owner 1000
       (map ex_input (seq 0 201)) ex_funded = Revert InvalidBatchSize
  /\ commit (StreamManager.batchCreateStreams ex_owner 1000
               [ex_input 0; mkStreamInput 0 3 250] ex_funded) ex_funded
     = ex_funded.
Proof.
  assert (Ho : ex_owner = m_owner (manager ex_funded))
    by (vm_compute; reflexivity).
  split; [|split].
  - destruct (batchCreateStreams_atomic ex_owner 1000
                (map ex_input (seq 0 200)) ex_funded Ho)
      as (_ & _ & Hok & _).
    destruct Hok as (w' & E & Hn & Hnew & _).
    + vm_compute. split; discriminate.
    + vm_compute. reflexivity.
    + vm_compute. discriminate.
    + assert (N0 : nextStreamId (manager ex_funded) + N.of_nat 0 = 1)
        by (vm_compute; reflexivity).
      assert (N199 : nextStreamId (manager ex_funded) + N.of_nat 199 = 200)
        by (vm_compute; reflexivity).
      pose proof (Hnew 0%nat (ex_input 0) eq_refl) as S0.
      pose proof (Hnew 199%nat (ex_input 199) eq_refl) as S199.
      rewrite N0 in S0. rewrite N199 in S199.
      exists w'. split; [exact E|]. split; [exact Hn|].
      rewrite S0, S199. split; reflexivity.
  - destruct (batchCreateStreams_atomic ex_owner 1000
                (map ex_input (seq 0 201)) ex_funded Ho) as (Hbad & _).
    apply Hbad. right. vm_compute. reflexivity.
  - destruct (batchCreateStreams_atomic ex_owner 1000
                [ex_input 0; mkStreamInput 0 3 250] ex_funded Ho)
      as (_ & Hinv & _).
    apply Hinv.
    + vm_compute. split; discriminate.
    + vm_compute. reflexivity.
Defined.

(** ** What no call takes back *)

Lemma no_regress_refl (m : ManagerState) : no_regress m m.
Proof. unfold no_regress. repeat split; auto; lia. Qed.

Lemma no_regress_trans (m1 m2 m3 : ManagerState) :
  no_regress m1 m2 -> no_regress m2 m3 -> no_regress m1 m3.
Proof.
  intros (Hn & Ha & Hc & Hb) (Hn' & Ha' & Hc' & Hb').
  repeat split.
  - lia.
  - intros i Hi Hact. apply Ha; [assumption|]. apply Ha'; [lia|assumption].
  - intros a. specialize (Hc a). specialize (Hc' a). lia.
  - auto.
Qed.

Lemma no_regress_same (m m' : ManagerState) :
  nextStreamId m' = nextStreamId m -> streams m' = streams m ->
  nonces m' = nonces m -> no_regress m m'.
Proof.
  intros Hn Hs Hc. unfold no_regress, ids_bounded, stream_of, nonce_in.
  rewrite Hn, Hs, Hc. repeat split; auto; lia.
Qed.

Lemma no_regress_update (m : ManagerState) (streamId : N) (s' : Stream) :
  active (stream_of m streamId) = true ->
  no_regress m (set_stream streamId s' m).
Proof.
  intros Hact. unfold no_regress, ids_bounded, stream_of, nonce_in in *.
  simpl. repeat split.
  - lia.
  - intros i _. rewrite lookup_insert.
    destruct (decide (streamId = i)) as [->|]; auto.
  - intros a. lia.
  - intros Hb i Hi. rewrite lookup_insert.
    destruct (decide (streamId = i)) as [->|]; [|now apply Hb].
    rewrite (Hb i Hi) in Hact. discriminate.
Qed.

Lemma no_regress_create (m : ManagerState) (s : Stream) :
  no_regress m
    (set_stream (nextStreamId m) s (set_nextStreamId (nextStreamId m + 1) m)).
Proof.
  unfold no_regress, ids_bounded, stream_of, nonce_in. simpl. repeat split.
  - lia.
  - intros i Hi. rewrite lookup_insert.
    destruct (decide (nextStreamId m = i)); [lia|auto].
  - intros a. lia.
  - intros Hb i Hi. rewrite lookup_insert.
    destruct (decide (nextStreamId m = i)); [lia|]. apply Hb. lia.
Qed.

Lemma no_regress_nonce (m : ManagerState) (who : address) (n : N) :
  nonce_in m who <= n -> no_regress m (set_nonce who n m).
Proof.
  intros Hle. unfold no_regress, ids_bounded, stream_of, nonce_in in *.
  simpl. repeat split; auto; try lia.
  intros a. rewrite lookup_insert.
  destruct (decide (who = a)) as [->|]; simpl; [assumption|lia].
Qed.

Lemma token_transferFrom_Ok (spender from to : address) (amount : N)
  (w : World) (r : bool * World) :
  token_transferFrom spender from to amount w = Ok r ->
  manager (snd r) = manager w /\ vault (snd r) = vault w.
Proof.
  unfold token_transferFrom. intros E. inv_ok. subst r. simpl. auto.
Qed.

Lemma token_approve_Ok (owner spender : address) (amount : N) (w : World)
  (r : bool * World) :
  token_approve owner spender amount w = Ok r ->
  manager (snd r) = manager w /\ vault (snd r) = vault w.
Proof.
  unfold token_approve. intros E. inv_ok. subst r. simpl. auto.
Qed.

Lemma vault_deposit_Ok (sender : address) (now amount : N) (w w' : World) :
  YieldVault.deposit sender now amount w = Ok w' -> manager w' = manager w.
Proof.
  unfold YieldVault.deposit. intros E. inv_ok.
  match goal with
  | Hy : YieldVault._simulateYield _ _ = Ok _ |- _ =>
      apply simulateYield_Ok in Hy as (Hm & _)
  end.
  match goal with
  | Ht : token_transferFrom _ _ _ _ _ = Ok _ |- _ =>
      apply token_transferFrom_Ok in Ht as (Hm' & _)
  end.
  subst w'. simpl in *. congruence.
Qed.

Lemma store_new_stream_no_regress (checkpoint : N) (e : address) (r t : N)
  (w w' : World) :
  StreamManager.store_new_stream checkpoint e r t w = Ok w' ->
  no_regress (manager w) (manager w').
Proof.
  unfold StreamManager.store_new_stream. intros E. inv_ok. subst. simpl.
  apply no_regress_create.
Qed.

Lemma batch_loop_no_regress (checkpoint : N) (inputs : list StreamInput) :
  forall w w',
    StreamManager.batch_loop checkpoint inputs w = Ok w' ->
    no_regress (manager w) (manager w').
Proof.
  induction inputs as [|inp rest IH]; simpl; intros w w' E.
  - inv_ok. subst. apply no_regress_refl.
  - inv_ok.
    match goal with
    | Hs : StreamManager.store_new_stream _ _ _ _ _ = Ok _ |- _ =>
        apply store_new_stream_no_regress in Hs
    end.
    eapply no_regress_trans; [eassumption|]. now apply IH.
Qed.

Lemma executeWithdraw_no_regress (now streamId : N) (w w' : World) :
  StreamManager._executeWithdraw now streamId w = Ok w' ->
  no_regress (manager w) (manager w').
Proof.
  intros E. apply executeWithdraw_Ok in E as (Ha & _ & _ & _ & _ & Hm & _).
  rewrite Hm. now apply no_regress_update.
Qed.

Section Invariants.
Context `{Eip712}.

Lemma withdrawSigned_no_regress (relayer : address)
  (now streamId nonce deadline relayerFee : N) (signature : list N)
  (w w' : World) :
  StreamManager.withdrawSigned relayer now streamId nonce deadline
    relayerFee signature w = Ok w' ->
  no_regress (manager w) (manager w').
Proof.
  intros E.
  apply withdrawSigned_Ok in E as (_ & Hn & _ & w2 & E2 & _ & Hm & _).
  apply executeWithdraw_no_regress in E2. simpl in E2.
  eapply no_regress_trans.
  { apply (no_regress_nonce (manager w) (employee (stream_at w streamId))
             (nonce + 1)).
    unfold nonce_of in Hn. unfold nonce_in. lia. }
  eapply no_regress_trans; [exact E2|].
  rewrite Hm. destruct (0 <? relayerFee).
  - now apply no_regress_same.
  - apply no_regress_refl.
Qed.

Lemma exec_no_regress (c : call) (sender : address) (now : N)
  (w w' : World) :
  exec c sender now w = Ok w' -> no_regress (manager w) (manager w').
Proof.
  destruct c; simpl; intros E.
  - unfold StreamManager.depositTreasury in E. inv_ok.
    repeat match goal with
    | Ht : token_transferFrom _ _ _ _ _ = Ok _ |- _ =>
        apply token_transferFrom_Ok in Ht as (? & _)
    | Ht : token_approve _ _ _ _ = Ok _ |- _ =>
        apply token_approve_Ok in Ht as (? & _)
    | Ht : YieldVault.deposit _ _ _ _ = Ok _ |- _ =>
        apply vault_deposit_Ok in Ht
    end.
    subst w'. simpl. apply no_regress_same; congruence.
  - unfold StreamManager.depositSponsorshipPool in E. inv_ok.
    match goal with
    | Ht : token_transferFrom _ _ _ _ _ = Ok _ |- _ =>
        apply token_transferFrom_Ok in Ht as (Hm & _)
    end.
    subst w'. simpl. rewrite Hm. now apply no_regress_same.
  - unfold StreamManager.createStream in E. inv_ok.
    now apply store_new_stream_no_regress in E.
  - unfold StreamManager.batchCreateStreams in E. inv_ok.
    now apply batch_loop_no_regress in E.
  - unfold StreamManager.scheduleBonus in E. inv_ok. subst w'. simpl.
    apply no_regress_update.
    match goal with
    | Hc : negb _ = false |- _ => now apply negb_false_iff in Hc
    end.
  - apply pauseStream_Ok in E as (Ha & _ & ->). simpl.
    now apply no_regress_update.
  - apply resumeStream_Ok in E as (Ha & _ & ->). simpl.
    now apply no_regress_update.
  - apply cancelStream_Ok in E as (Ha & ->). simpl.
    now apply no_regress_update.
  - unfold StreamManager.withdraw in E.
    now apply executeWithdraw_no_regress in E.
  - now apply withdrawSigned_no_regress in E.
  - unfold Ownable.transferOwnership in E. inv_ok. subst w'.
    now apply no_regress_same.
  - unfold Ownable.renounceOwnership in E. inv_ok. subst w'.
    now apply no_regress_same.
Qed.

Lemma step_no_regress (w w' : World) :
  step w w' -> no_regress (manager w) (manager w').
Proof.
  intros [c sender now w0|w0 t v o evs].
  - unfold transact, commit.
    destruct (exec c sender now w0) as [w1|e] eqn:E.
    + now apply exec_no_regress in E.
    + apply no_regress_refl.
  - simpl. now apply no_regress_same.
Qed.

Lemma steps_no_regress (w w' : World) :
  rtc step w w' -> no_regress (manager w) (manager w').
Proof.
  induction 1 as [w|w1 w2 w3 Hs _ IH].
  - apply no_regress_refl.
  - eapply no_regress_trans; [|exact IH]. now apply step_no_regress.
Qed.

Lemma reachable_ids_bounded (w : World) :
  reachable w -> ids_bounded (manager w).
Proof.
  intros (w0 & (d & self & dom & h & t & y & E) & Hsteps).
  apply steps_no_regress in Hsteps as (_ & _ & _ & Hb). apply Hb.
  unfold manager_constructor in E. inv_ok.
  intros i _. apply lookup_empty.
Qed.

Lemma batch_loop_nonces (checkpoint : N) (inputs : list StreamInput) :
  forall w w',
    StreamManager.batch_loop checkpoint inputs w = Ok w' ->
    nonces (manager w') = nonces (manager w).
Proof.
  induction inputs as [|inp rest IH]; simpl; intros w w' E.
  - inv_ok. now subst.
  - inv_ok. apply IH in E. rewrite E.
    match goal with
    | Hs : StreamManager.store_new_stream _ _ _ _ _ = Ok _ |- _ =>
        unfold StreamManager.store_new_stream in Hs; inv_ok
    end.
    now subst.
Qed.

(** A call moves the nonce of nobody, except an accepted signed
    withdrawal, which spends the stored nonce of the employee. *)
Lemma exec_nonce (c : call) (sender : address) (now : N) (w w' : World)
  (a : address) :
  exec c sender now w = Ok w' ->
  nonce_of w' a = nonce_of w a
  \/ exists streamId deadline relayerFee signature,
       c = WithdrawSigned streamId (nonce_of w a) deadline relayerFee
             signature
       /\ employee (stream_at w streamId) = a
       /\ nonce_of w' a = nonce_of w a + 1.
Proof.
  unfold nonce_of.
  destruct c; simpl; intros E.
  1-9: (left; assert (nonces (manager w') = nonces (manager w)) as ->;
        [|reflexivity]).
  - unfold StreamManager.depositTreasury in E. inv_ok.
    repeat match goal with
    | Ht : token_transferFrom _ _ _ _ _ = Ok _ |- _ =>
        apply token_transferFrom_Ok in Ht as (? & _)
    | Ht : token_approve _ _ _ _ = Ok _ |- _ =>
        apply token_approve_Ok in Ht as (? & _)
    | Ht : YieldVault.deposit _ _ _ _ = Ok _ |- _ =>
        apply vault_deposit_Ok in Ht
    end.
    subst w'. simpl. congruence.
  - unfold StreamManager.depositSponsorshipPool in E. inv_ok.
    match goal with
    | Ht : token_transferFrom _ _ _ _ _ = Ok _ |- _ =>
        apply token_transferFrom_Ok in Ht as (Hm & _)
    end.
    subst w'. simpl. now rewrite Hm.
  - unfold StreamManager.createStream, StreamManager.store_new_stream in E.
    inv_ok. now subst.
  - unfold StreamManager.batchCreateStreams in E. inv_ok.
    now apply batch_loop_nonces in E.
  - unfold StreamManager.scheduleBonus in E. inv_ok. now subst.
  - apply pauseStream_Ok in E as (_ & _ & ->). reflexivity.
  - apply resumeStream_Ok in E as (_ & _ & ->). reflexivity.
  - apply cancelStream_Ok in E as (_ & ->). reflexivity.
  - apply executeWithdraw_Ok in E as (_ & _ & _ & _ & _ & Hm & _).
    now rewrite Hm.
  - pose proof (withdrawSigned_Ok _ _ _ _ _ _ _ _ _ E)
      as (_ & Hn & _ & w2 & E2 & _ & Hm & _).
    apply executeWithdraw_Ok in E2 as (_ & _ & _ & _ & _ & Hm2 & _).
    assert (Hnon : nonces (manager w')
                   = <[employee (stream_at w streamId) := nonce + 1]>
                       (nonces (manager w))).
    { rewrite Hm.
      assert (nonces (if 0 <? relayerFee
                      then set_sponsorshipPool
                             (sponsorshipPool (manager w2) - relayerFee)
                             (manager w2)
                      else manager w2) = nonces (manager w2)) as ->
        by (destruct (0 <? relayerFee); reflexivity).
      now rewrite Hm2. }
    rewrite Hnon.
    destruct (decide (employee (stream_at w streamId) = a)) as [He|He].
    + right. exists streamId, deadline, relayerFee, signature.
      rewrite He, lookup_insert_eq. simpl.
      unfold nonce_of in Hn. rewrite He in Hn. now rewrite Hn.
    + left. now rewrite lookup_insert_ne.
  - left. unfold Ownable.transferOwnership in E. inv_ok. subst w'.
    reflexivity.
  - left. unfold Ownable.renounceOwnership in E. inv_ok. subst w'.
    reflexivity.
Qed.

Lemma step_nonce (w w' : World) (a : address) :
  step w w' ->
  nonce_of w' a = nonce_of w a
  \/ exists relayer now streamId deadline relayerFee signature,
       employee (stream_at w streamId) = a
       /\ StreamManager.withdrawSigned relayer now streamId (nonce_of w a)
            deadline relayerFee signature w = Ok w'
       /\ nonce_of w' a = nonce_of w a + 1.
Proof.
  intros [c sender now w0|w0 t v o evs]; [|now left].
  unfold transact, commit.
  destruct (exec c sender now w0) as [w1|e] eqn:E; [|now left].
  destruct (exec_nonce _ _ _ _ _ a E)
    as [Hsame|(streamId & deadline & fee & sig & -> & He & Hn)];
    [now left|].
  right. exists sender, now, streamId, deadline, fee, sig.
  repeat split; assumption.
Qed.

End Invariants.

(** ** Calls that do not look at the manager *)

Lemma simulateYield_set_manager (now : N) (m : ManagerState) (w : World) :
  YieldVault._simulateYield now (set_manager m w)
  = map_result (set_manager m) (YieldVault._simulateYield now w).
Proof.
  unfold YieldVault._simulateYield. simpl.
  destruct (YieldVault._pendingYield now (vault w)) as [p|e]; simpl;
    [|reflexivity].
  destruct (0 <? p); simpl; [|reflexivity].
  destruct (checked_add (accumulatedYield (vault w)) p); reflexivity.
Qed.

Lemma token_transfer_set_manager (a b : address) (n : N) (m : ManagerState)
  (w : World) :
  token_transfer a b n (set_manager m w)
  = map_result (fun r => (fst r, set_manager m (snd r)))
      (token_transfer a b n w).
Proof.
  unfold token_transfer. simpl.
  destruct (HLUSD._transfer a b n (hlusd w)); reflexivity.
Qed.

Lemma vault_withdraw_set_manager (sender : address) (now amount : N)
  (to : address) (m : ManagerState) (w : World) :
  YieldVault.withdraw sender now amount to (set_manager m w)
  = map_result (set_manager m) (YieldVault.withdraw sender now amount to w).
Proof.
  unfold YieldVault.withdraw. simpl.
  destruct (onlyOwner sender (v_owner (vault w))); simpl; [|reflexivity].
  destruct (amount =? 0); simpl; [reflexivity|].
  destruct (to =? 0); simpl; [reflexivity|].
  rewrite simulateYield_set_manager.
  destruct (YieldVault._simulateYield now w) as [w1|e]; simpl; [|reflexivity].
  destruct (checked_add (totalPrincipal (vault w1))
              (accumulatedYield (vault w1))) as [av|e]; simpl; [|reflexivity].
  destruct (av <? amount); simpl; [reflexivity|].
  match goal with
  | |- bind ?v _ = _ => destruct v as [v2|e]; simpl; [|reflexivity]
  end.
  change (set_vault v2 (set_manager m w1))
    with (set_manager m (set_vault v2 w1)).
  rewrite token_transfer_set_manager.
  destruct (token_transfer (v_self v2) to amount (set_vault v2 w1))
    as [[ok w3]|e]; simpl; [|reflexivity].
  destruct ok; reflexivity.
Qed.

(** [_executeWithdraw] reads no nonce and writes none. *)
Lemma executeWithdraw_set_nonce (now streamId : N) (a : address) (n : N)
  (w : World) :
  StreamManager._executeWithdraw now streamId
    (set_manager (set_nonce a n (manager w)) w)
  = map_result (fun w' => set_manager (set_nonce a n (manager w')) w')
      (StreamManager._executeWithdraw now streamId w).
Proof.
  unfold StreamManager._executeWithdraw.
  change (stream_at (set_manager (set_nonce a n (manager w)) w) streamId)
    with (stream_at w streamId).
  set (s := stream_at w streamId).
  destruct (active s); simpl; [|reflexivity].
  destruct (paused s); simpl; [reflexivity|].
  destruct (checked_sub now (lastCheckpoint s)) as [el|e]; simpl;
    [|reflexivity].
  destruct (checked_mul (ratePerSecond s) el) as [ac|e]; simpl; [|reflexivity].
  destruct (checked_add ac _) as [gr|e]; simpl; [|reflexivity].
  destruct (gr =? 0); simpl; [reflexivity|].
  destruct (checked_mul ac _) as [tx|e]; simpl; [|reflexivity].
  destruct (checked_sub gr (tx / 10000)) as [net|e]; simpl; [|reflexivity].
  destruct (checked_add net (tx / 10000)) as [tp|e]; simpl; [|reflexivity].
  set (s2 := set_lastCheckpoint (uint64 now) _).
  set (e2 := employee (if StreamManager.bonus_claimable now s
                       then set_bonusClaimed true s else s)).
  rewrite !vault_withdraw_set_manager.
  destruct (YieldVault.withdraw (m_self (manager w)) now tp
              (m_self (manager w)) w) as [w2|e]; simpl; [|reflexivity].
  change (set_manager (set_stream streamId s2 (set_nonce a n (manager w)))
            (set_manager (set_nonce a n (manager w)) w2))
    with (set_manager (set_stream streamId s2 (set_nonce a n (manager w))) w2).
  assert (Htax : forall m,
             (if 0 <? tx / 10000
              then
                let* r := token_transfer (m_self (manager w))
                            (taxVault (manager w)) (tx / 10000)
                            (set_manager m w2) in
                revert_if (negb (fst r)) TransferFailed ;; Ok (snd r)
              else Ok (set_manager m w2))
             = map_result (set_manager m)
                 (if 0 <? tx / 10000
                  then
                    let* r := token_transfer (m_self (manager w))
                                (taxVault (manager w)) (tx / 10000) w2 in
                    revert_if (negb (fst r)) TransferFailed ;; Ok (snd r)
                  else Ok w2)).
  { intros m. destruct (0 <? tx / 10000); [|reflexivity].
    rewrite token_transfer_set_manager.
    destruct (token_transfer (m_self (manager w)) (taxVault (manager w))
                (tx / 10000) w2) as [[ok w3]|e]; simpl; [|reflexivity].
    destruct ok; reflexivity. }
  change (manager (set_manager ?m w2)) with m.
  rewrite !Htax.
  match goal with
  | |- context [map_result _ ?r] => destruct r as [w3|e]; simpl; [|reflexivity]
  end.
  rewrite !token_transfer_set_manager.
  destruct (token_transfer (m_self (manager w)) e2 net w3) as [[ok w4]|e];
    simpl; [|reflexivity].
  destruct ok; reflexivity.
Qed.

(** ** Withdrawals that are accepted *)

Lemma vault_withdraw_accepts (sender : address) (now amount : N)
  (to : address) (w w1 : World) (t' : HLUSD.state) :
  sender = v_owner (vault w) -> to <> 0 -> 0 < amount ->
  YieldVault._simulateYield now w = Ok w1 ->
  book (vault w1) <= MAX_UINT256 -> amount <= book (vault w1) ->
  HLUSD._transfer (v_self (vault w)) to amount (hlusd w) = Ok t' ->
  exists w',
    YieldVault.withdraw sender now amount to w = Ok w' /\ hlusd w' = t'.
Proof.
  intros -> Hto Hpos Hsim Hfit Hle Htok. unfold book in *.
  pose proof (simulateYield_Ok _ _ _ Hsim) as (_ & Hh & Hs & _).
  unfold YieldVault.withdraw. rewrite onlyOwner_owner. simpl.
  assert ((amount =? 0) = false) as -> by (apply N.eqb_neq; lia).
  apply N.eqb_neq in Hto. simpl. rewrite Hto. simpl. rewrite Hsim. simpl.
  rewrite checked_add_fits by assumption. simpl.
  assert ((totalPrincipal (vault w1) + accumulatedYield (vault w1) <? amount)
          = false) as -> by now apply N.ltb_ge.
  simpl. unfold token_transfer.
  destruct (N.leb_spec amount (accumulatedYield (vault w1))).
  - rewrite checked_sub_fits by assumption. simpl.
    rewrite Hh, Hs, Htok. simpl. eexists. split; reflexivity.
  - rewrite checked_sub_fits by lia. simpl.
    rewrite checked_sub_fits by lia. simpl.
    rewrite Hh, Hs, Htok. simpl. eexists. split; reflexivity.
Qed.

(** The checks of [_executeWithdraw] are the only ones: on a stream that
    is active and not paused, with something to withdraw and amounts that
    fit, the withdrawal goes through as soon as the vault and the token go
    along. *)
Lemma executeWithdraw_accepts (now streamId : N) (w : World) :
  active (stream_at w streamId) = true ->
  paused (stream_at w streamId) = false ->
  0 < spec_gross now (stream_at w streamId) ->
  amounts_fit now (stream_at w streamId) ->
  payout_accepted now streamId w ->
  exists w', StreamManager._executeWithdraw now streamId w = Ok w'.
Proof.
  intros Ha Hp Hpos (Hcp & Hacc & Htx & Hgr & Htg)
    (Hown & Hself & w1 & t1 & t2 & t3 & Hsim & Hfit & Hle & E1 & E2 & E3).
  unfold StreamManager._executeWithdraw.
  set (s := stream_at w streamId) in *.
  set (self := m_self (manager w)) in *.
  assert (Hb : (if StreamManager.bonus_claimable now s then bonusAmount s
                else 0) = spec_bonus now s) by reflexivity.
  assert (Ht : taxBps (if StreamManager.bonus_claimable now s
                       then set_bonusClaimed true s else s) = taxBps s)
    by (destruct (StreamManager.bonus_claimable now s); reflexivity).
  assert (He : employee (if StreamManager.bonus_claimable now s
                         then set_bonusClaimed true s else s) = employee s)
    by (destruct (StreamManager.bonus_claimable now s); reflexivity).
  assert (Hnet : spec_net now s + spec_tax now s = spec_gross now s)
    by (unfold spec_net; lia).
  rewrite Ha, Hp. simpl.
  rewrite checked_sub_fits by assumption. simpl.
  fold (spec_accrued now s). rewrite checked_mul_fits by assumption. simpl.
  fold (spec_accrued now s). rewrite Hb. fold (spec_gross now s).
  rewrite checked_add_fits by assumption. simpl.
  fold (spec_accrued now s). fold (spec_gross now s).
  assert ((spec_gross now s =? 0) = false) as -> by (apply N.eqb_neq; lia).
  simpl. fold (spec_accrued now s). fold (spec_gross now s).
  rewrite Ht. rewrite checked_mul_fits by assumption. simpl.
  fold (spec_accrued now s). fold (spec_gross now s).
  unfold checked_div. simpl.
  fold (spec_accrued now s). fold (spec_gross now s). fold (spec_tax now s).
  rewrite checked_sub_fits by assumption. simpl.
  fold (spec_accrued now s). fold (spec_gross now s). fold (spec_tax now s).
  fold (spec_net now s).
  rewrite checked_add_fits by (rewrite Hnet; assumption). rewrite Hnet.
  simpl.
  fold (spec_accrued now s). fold (spec_gross now s). fold (spec_tax now s).
  fold (spec_net now s).
  rewrite vault_withdraw_set_manager. fold self.
  destruct (vault_withdraw_accepts self now (spec_gross now s) self w w1 t1)
    as (w2 & Ew & Hh2); try assumption; [now symmetry|].
  rewrite Ew. simpl. fold self.
  unfold token_transfer. simpl. rewrite Hh2, He.
  destruct (0 <? spec_tax now s); simpl.
  - rewrite E2. simpl. rewrite E3. simpl. eexists. reflexivity.
  - inversion E2 as [Heq]. rewrite <- Heq in E3. rewrite Hh2, E3. simpl.
    eexists. reflexivity.
Qed.

Section PausedInterval.
Context `{Eip712}.

(** C3. A stream paused at [t1] and resumed at [t2].  While it is paused
    every withdrawal, direct or signed, is refused (the direct one with
    [AlreadyPaused]).  The resumption leaves the stream as it was before
    the pause but for its checkpoint, which is [t2]: it is active and no
    longer paused, and no token has moved in between.  From then on the
    accrued salary at any [t >= t2] is [ratePerSecond * (t - t2)], and
    that, with the claimable bonus, is what every withdrawal at [t] pays
    gross, direct or signed; the direct withdrawal is accepted whenever
    there is something to pay, the amounts fit and the vault and the token
    go along.  The paused interval adds nothing.  Block times are taken to
    fit in 64 bits and the rate in its 128. *)
Theorem paused_interval_never_accrues (admin1 admin2 : address)
  (t1 t2 t streamId : N) (w w1 w2 : World) :
  StreamManager.pauseStream admin1 t1 streamId w = Ok w1 ->
  StreamManager.resumeStream admin2 t2 streamId w1 = Ok w2 ->
  t2 <= t -> t < 2 ^ 64 ->
  ratePerSecond (stream_at w streamId) < 2 ^ 128 ->
  paused (stream_at w1 streamId) = true
  /\ (forall wp, paused (stream_at wp streamId) = true ->
                 forall p now, is_revert (run_withdrawal p now streamId wp))
  /\ (forall now, StreamManager.withdraw now streamId w1
                  = Revert (AlreadyPaused streamId))
  /\ lastCheckpoint (stream_at w2 streamId) = t2
  /\ StreamManager.accruedSalary t streamId w2
     = Ok (ratePerSecond (stream_at w streamId) * (t - t2))
  /\ stream_at w2 streamId = set_lastCheckpoint t2 (stream_at w streamId)
  /\ active (stream_at w2 streamId) = true
  /\ paused (stream_at w2 streamId) = false
  /\ hlusd w2 = hlusd w /\ vault w2 = vault w
  /\ (forall p w3,
        run_withdrawal p t streamId w2 = Ok w3 ->
        let accrued := ratePerSecond (stream_at w streamId) * (t - t2) in
        let bonus := spec_bonus t (stream_at w streamId) in
        let tax := accrued * taxBps (stream_at w streamId) / 10000 in
        In (Withdrawn streamId (employee (stream_at w streamId))
              (accrued + bonus) tax (accrued + bonus - tax))
           (new_events w2 w3))
  /\ (0 < ratePerSecond (stream_at w streamId) * (t - t2)
          + spec_bonus t (stream_at w streamId) ->
      amounts_fit t (stream_at w2 streamId) ->
      payout_accepted t streamId w2 ->
      exists w3, StreamManager.withdraw t streamId w2 = Ok w3).
Proof.
  intros Ep Er Ht2 Ht Hrate.
  apply pauseStream_Ok in Ep as (Ha & Hnp & ->).
  apply resumeStream_Ok in Er as (_ & _ & ->).
  set (s := stream_at w streamId) in *.
  assert (Hs1 : stream_at
                  (emit [StreamPaused streamId]
                     (set_manager
                        (set_stream streamId
                           (set_paused true
                              (set_lastCheckpoint (uint64 t1) s))
                           (manager w)) w)) streamId
                = set_paused true (set_lastCheckpoint (uint64 t1) s))
    by apply stream_at_set_stream_eq.
  set (w2 := emit [StreamResumed streamId] _).
  assert (Hs2 : stream_at w2 streamId = set_lastCheckpoint t2 s).
  { unfold w2. rewrite stream_at_emit, stream_at_set_stream_eq, Hs1.
    rewrite (uint64_small t2) by lia.
    destruct s. simpl in *. subst. reflexivity. }
  assert (Hacc : spec_accrued t (set_lastCheckpoint t2 s)
                 = ratePerSecond s * (t - t2)) by reflexivity.
  assert (Hbon : spec_bonus t (set_lastCheckpoint t2 s) = spec_bonus t s)
    by reflexivity.
  repeat match goal with
  | |- _ /\ _ => split
  end.
  - now rewrite Hs1.
  - intros wp Hp p now. apply run_withdrawal_blocked. now right.
  - intros now. unfold StreamManager.withdraw.
    apply executeWithdraw_paused; now rewrite Hs1.
  - now rewrite Hs2.
  - unfold StreamManager.accruedSalary. rewrite Hs2. simpl.
    rewrite checked_sub_fits by assumption. simpl.
    apply checked_mul_fits.
    assert (ratePerSecond s * (t - t2) < 2 ^ 128 * 2 ^ 64).
    { apply N.le_lt_trans with (ratePerSecond s * 2 ^ 64).
      - apply N.mul_le_mono_l. lia.
      - apply N.mul_lt_mono_pos_r; [reflexivity | assumption]. }
    unfold MAX_UINT256.
    change (2 ^ 256) with (2 ^ 128 * 2 ^ 64 * 2 ^ 64).
    assert (0 < 2 ^ 128 * 2 ^ 64) by reflexivity.
    assert (1 <= 2 ^ 64) by (apply N.leb_le; reflexivity).
    nia.
  - exact Hs2.
  - rewrite Hs2. exact Ha.
  - rewrite Hs2. exact Hnp.
  - reflexivity.
  - reflexivity.
  - intros p w3 E.
    pose proof (run_withdrawal_events p t streamId w2 w3 E)
      as (evs & Hev & Hin & _).
    rewrite Hs2 in Hin. rewrite (new_events_app _ _ _ Hev). exact Hin.
  - intros Hpos Hfit Hpay. unfold StreamManager.withdraw.
    apply executeWithdraw_accepts; try assumption.
    + rewrite Hs2. exact Ha.
    + rewrite Hs2. exact Hnp.
    + rewrite Hs2. exact Hpos.
Qed.

End PausedInterval.

Lemma paused_interval_never_accrues_witness :
  StreamManager.pauseStream ex_owner 1100 0 ex_funded = Ok ex_paused
  /\ StreamManager.resumeStream ex_owner 1200 0 ex_paused = Ok ex_resumed
  /\ is_revert (run_withdrawal (H := example_scheme) Direct 1150 0 ex_paused)
  /\ StreamManager.accruedSalary 1300 0 ex_resumed = Ok 100
  /\ paused (stream_at ex_resumed 0) = false
  /\ In (Withdrawn 0 ex_employee 100 5 95) (new_events ex_resumed ex_collected)
  /\ exists w3, StreamManager.withdraw 1300 0 ex_resumed = Ok w3.
Proof.
  assert (Ep : StreamManager.pauseStream ex_owner 1100 0 ex_funded
               = Ok ex_paused) by (vm_compute; reflexivity).
  assert (Er : StreamManager.resumeStream ex_owner 1200 0 ex_paused
               = Ok ex_resumed) by (vm_compute; reflexivity).
  assert (Ht2 : 1200 <= 1300) by lia.
  assert (Ht : 1300 < 2 ^ 64) by reflexivity.
  assert (Hr : ratePerSecond (stream_at ex_funded 0) < 2 ^ 128)
    by (vm_compute; reflexivity).
  destruct (paused_interval_never_accrues (H := example_scheme)
              ex_owner ex_owner 1100 1200 1300 0 ex_funded ex_paused
              ex_resumed Ep Er Ht2 Ht Hr)
    as (Hp & Hall & _ & _ & Hacc & _ & _ & Hrun & _ & _ & Hpays & Hgoes).
  assert (Ec : run_withdrawal (H := example_scheme) Direct 1300 0 ex_resumed
               = Ok ex_collected) by (vm_compute; reflexivity).
  split; [exact Ep|]. split; [exact Er|].
  split; [exact (Hall ex_paused Hp Direct 1150)|].
  split; [exact Hacc|]. split; [exact Hrun|]. split.
  - exact (Hpays Direct ex_collected Ec).
  - apply Hgoes.
    + vm_compute. reflexivity.
    + vm_compute. repeat split; discriminate.
    + split; [vm_compute; reflexivity|]. split; [vm_compute; discriminate|].
      exists (commit (YieldVault._simulateYield 1300 ex_resumed) ex_resumed),
        (token_after (HLUSD._transfer ex_vault ex_manager 100
                        (hlusd ex_resumed)) (hlusd ex_resumed)),
        (token_after (HLUSD._transfer ex_manager ex_tax 5
                        (token_after (HLUSD._transfer ex_vault ex_manager 100
                                        (hlusd ex_resumed))
                           (hlusd ex_resumed))) (hlusd ex_resumed)),
        (hlusd ex_collected).
      vm_compute. repeat split; try reflexivity; discriminate.
Defined.

Section SignedRequests.
Context `{Eip712}.

Lemma withdrawSigned_authorised (relayer : address)
  (now streamId nonce deadline relayerFee : N) (signature : list N)
  (w : World) :
  authorised now streamId nonce deadline signature w ->
  StreamManager.withdrawSigned relayer now streamId nonce deadline
    relayerFee signature w
  = let* w2 := StreamManager._executeWithdraw now streamId
                 (nonce_spent streamId nonce w) in
    let* w3 :=
      if 0 <? relayerFee then
        revert_if (sponsorshipPool (manager w2) <? relayerFee)
          InsufficientSponsorship ;;
        let* pool := checked_sub (sponsorshipPool (manager w2)) relayerFee in
        let w2' := set_manager (set_sponsorshipPool pool (manager w2)) w2 in
        let* r := token_transfer (m_self (manager w2')) relayer relayerFee
                    w2' in
        revert_if (negb (fst r)) TransferFailed ;;
        Ok (snd r)
      else Ok w2 in
    Ok (emit [WithdrawnSigned streamId (employee (stream_at w streamId))
                relayer relayerFee] w3).
Proof.
  intros (Hd & Hn & Hr & Hfit). unfold StreamManager.withdrawSigned.
  assert ((deadline <? now) = false) as -> by now apply N.ltb_ge.
  simpl. rewrite <- Hn, N.eqb_refl. simpl. rewrite Hr. simpl.
  rewrite N.eqb_refl. simpl. rewrite checked_add_fits by assumption.
  reflexivity.
Qed.

Lemma withdrawSigned_bad_nonce (relayer : address)
  (now streamId nonce deadline relayerFee : N) (signature : list N)
  (w : World) :
  nonce <> nonce_of w (employee (stream_at w streamId)) ->
  StreamManager.withdrawSigned relayer now streamId nonce deadline
    relayerFee signature w
  = if deadline <? now then Revert SignatureExpired
    else Revert InvalidNonce.
Proof.
  intros Hn. unfold StreamManager.withdrawSigned.
  destruct (deadline <? now); simpl; [reflexivity|].
  apply N.eqb_neq in Hn. rewrite Hn. reflexivity.
Qed.

(** C4. An accepted [withdrawSigned] carried the stored nonce of the
    employee, leaves that nonce at [nonce + 1], and ran the withdrawal on
    the world where the nonce was already incremented.  From then on the
    stored nonce stays above the one used, so every later request of that
    employee with the same nonce is refused.  In any world a request whose
    nonce is not the stored one is refused, with [InvalidNonce] once the
    deadline check is passed; so is every request whose nonce the stored
    one has advanced past; no step of the chain lowers a nonce, and the
    only step that moves one is an accepted signed withdrawal of that
    employee, which moves it up by one. *)
Theorem nonce_used_once (relayer : address)
  (now streamId nonce deadline relayerFee : N) (signature : list N)
  (w w1 : World) :
  StreamManager.withdrawSigned relayer now streamId nonce deadline
    relayerFee signature w = Ok w1 ->
  let e := employee (stream_at w streamId) in
  nonce = nonce_of w e
  /\ nonce_of w1 e = nonce + 1
  /\ (exists w2, StreamManager._executeWithdraw now streamId
                   (nonce_spent streamId nonce w) = Ok w2
                 /\ nonce_of (nonce_spent streamId nonce w) e = nonce + 1)
  /\ (forall w2, rtc step w1 w2 ->
        nonce < nonce_of w2 e
        /\ forall relayer' now' streamId' deadline' fee' signature',
             employee (stream_at w2 streamId') = e ->
             is_revert (StreamManager.withdrawSigned relayer' now'
                          streamId' nonce deadline' fee' signature' w2))
  /\ (forall w' relayer' now' streamId' n deadline' fee' signature',
        n <> nonce_of w' (employee (stream_at w' streamId')) ->
        is_revert (StreamManager.withdrawSigned relayer' now' streamId' n
                     deadline' fee' signature' w')
        /\ (now' <= deadline' ->
            StreamManager.withdrawSigned relayer' now' streamId' n
              deadline' fee' signature' w' = Revert InvalidNonce))
  /\ (forall w' relayer' now' streamId' n deadline' fee' signature',
        n < nonce_of w' (employee (stream_at w' streamId')) ->
        is_revert (StreamManager.withdrawSigned relayer' now' streamId' n
                     deadline' fee' signature' w'))
  /\ (forall w' w'' a, rtc step w' w'' -> nonce_of w' a <= nonce_of w'' a)
  /\ (forall w' w'' a, step w' w'' ->
        nonce_of w'' a = nonce_of w' a
        \/ exists relayer' now' streamId' deadline' fee' signature',
             employee (stream_at w' streamId') = a
             /\ StreamManager.withdrawSigned relayer' now' streamId'
                  (nonce_of w' a) deadline' fee' signature' w' = Ok w''
             /\ nonce_of w'' a = nonce_of w' a + 1).
Proof.
  intros E e.
  assert (Hbad : forall w' relayer' now' streamId' n deadline' fee'
                   signature',
             n <> nonce_of w' (employee (stream_at w' streamId')) ->
             is_revert (StreamManager.withdrawSigned relayer' now'
                          streamId' n deadline' fee' signature' w')
             /\ (now' <= deadline' ->
                 StreamManager.withdrawSigned relayer' now' streamId' n
                   deadline' fee' signature' w' = Revert InvalidNonce)).
  { intros w' relayer' now' streamId' n deadline' fee' signature' Hn.
    rewrite (withdrawSigned_bad_nonce _ _ _ _ _ _ _ _ Hn). split.
    - destruct (deadline' <? now'); exact I.
    - intros Hd. apply N.ltb_ge in Hd. now rewrite Hd. }
  assert (Hmono : forall w' w'' a,
             rtc step w' w'' -> nonce_of w' a <= nonce_of w'' a).
  { intros w' w'' a Hs. apply steps_no_regress in Hs as (_ & _ & Hc & _).
    apply Hc. }
  pose proof (withdrawSigned_Ok _ _ _ _ _ _ _ _ _ E)
    as (_ & Hn & _ & w2 & E2 & _ & Hm & _).
  pose proof (executeWithdraw_Ok _ _ _ _ E2) as (_ & _ & _ & _ & _ & Hm2 & _).
  assert (Hn1 : nonce_of w1 e = nonce + 1).
  { unfold nonce_of. rewrite Hm.
    assert (nonces (if 0 <? relayerFee
                    then set_sponsorshipPool
                           (sponsorshipPool (manager w2) - relayerFee)
                           (manager w2)
                    else manager w2) = nonces (manager w2)) as ->
      by (destruct (0 <? relayerFee); reflexivity).
    rewrite Hm2. simpl. fold e. now rewrite lookup_insert_eq. }
  split; [exact Hn|]. split; [exact Hn1|]. split.
  { exists w2. split; [exact E2|].
    unfold nonce_of, nonce_spent. simpl. fold e.
    now rewrite lookup_insert_eq. }
  split; [|split; [exact Hbad|split; [|split; [exact Hmono|]]]].
  - intros w3 Hs. pose proof (Hmono _ _ e Hs) as Hle.
    split; [lia|].
    intros relayer' now' streamId' deadline' fee' signature' He.
    apply Hbad. rewrite He. lia.
  - intros w' relayer' now' streamId' n deadline' fee' signature' Hlt.
    apply Hbad. lia.
  - intros w' w'' a Hs. now apply step_nonce.
Qed.

End SignedRequests.

Lemma nonce_used_once_witness :
  StreamManager.withdrawSigned (H := example_scheme) ex_relayer 1100 0 0 2000
    5 (ex_signature 0) ex_funded = Ok ex_signed
  /\ nonce_of ex_signed ex_employee = 1
  /\ is_revert (StreamManager.withdrawSigned (H := example_scheme) ex_relayer
                  1200 0 0 2000 5 (ex_signature 0) ex_signed).
Proof.
  assert (E : StreamManager.withdrawSigned (H := example_scheme) ex_relayer
                1100 0 0 2000 5 (ex_signature 0) ex_funded = Ok ex_signed)
    by (vm_compute; reflexivity).
  destruct (nonce_used_once (H := example_scheme) _ _ _ _ _ _ _ _ _ E)
    as (_ & Hn & _ & Hlater & _).
  split; [exact E|]. split; [exact Hn|].
  destruct (Hlater ex_signed (rtc_refl _ _)) as (_ & Hreplay).
  apply Hreplay. vm_compute. reflexivity.
Defined.

Lemma run_calls_steps (cs : list (call * address * N)) (w : World) :
  rtc (step (H := example_scheme)) w (run_calls cs w).
Proof.
  revert w. induction cs as [|c cs IH]; intros w; simpl.
  - apply rtc_refl.
  - eapply rtc_l; [|apply IH]. apply step_call.
Qed.

Section Cancellation.
Context `{Eip712}.

(** C5. [cancelStream], called by the owner on an active stream of a
    deployed manager, paused or not, succeeds: the stream is no longer
    active, its checkpoint is [uint64(block.timestamp)], and no token
    moves (the token and the vault are as before and the one event is
    [StreamCancelled]).  In every world reached from there the stream is
    still not active, every direct withdrawal from it fails with
    [StreamInactive], and every signed one fails, with [StreamInactive]
    once its deadline, nonce and signature checks are passed. *)
Theorem cancelled_stream_never_pays (sender : address) (now streamId : N)
  (w : World) :
  reachable w ->
  sender = m_owner (manager w) ->
  active (stream_at w streamId) = true ->
  exists w1,
    StreamManager.cancelStream sender now streamId w = Ok w1
    /\ active (stream_at w1 streamId) = false
    /\ lastCheckpoint (stream_at w1 streamId) = uint64 now
    /\ hlusd w1 = hlusd w /\ vault w1 = vault w
    /\ new_events w w1 = [StreamCancelled streamId]
    /\ forall w2, rtc step w1 w2 ->
         active (stream_at w2 streamId) = false
         /\ (forall t, StreamManager.withdraw t streamId w2
                       = Revert (StreamInactive streamId))
         /\ (forall relayer t nonce deadline relayerFee signature,
               is_revert (StreamManager.withdrawSigned relayer t streamId
                            nonce deadline relayerFee signature w2)
               /\ (authorised t streamId nonce deadline signature w2 ->
                   StreamManager.withdrawSigned relayer t streamId nonce
                     deadline relayerFee signature w2
                   = Revert (StreamInactive streamId))).
Proof.
  intros Hreach -> Hact.
  set (s1 := set_active false
               (set_lastCheckpoint (uint64 now) (stream_at w streamId))).
  set (w1 := emit [StreamCancelled streamId]
               (set_manager (set_stream streamId s1 (manager w)) w)).
  assert (E : StreamManager.cancelStream (m_owner (manager w)) now streamId w
              = Ok w1).
  { unfold StreamManager.cancelStream. rewrite onlyOwner_owner. simpl.
    rewrite Hact. reflexivity. }
  assert (Hs1 : stream_at w1 streamId = s1)
    by (unfold w1; rewrite stream_at_emit; apply stream_at_set_stream_eq).
  assert (Hid : streamId < nextStreamId (manager w1)).
  { apply reachable_ids_bounded in Hreach.
    destruct (N.lt_ge_cases streamId (nextStreamId (manager w)))
      as [Hlt|Hge]; [exact Hlt|].
    unfold stream_at in Hact. rewrite (Hreach _ Hge) in Hact.
    discriminate. }
  exists w1. split; [exact E|]. split; [now rewrite Hs1|].
  split; [now rewrite Hs1|]. split; [reflexivity|]. split; [reflexivity|].
  split; [now apply new_events_app|].
  intros w2 Hs.
  assert (Hoff : active (stream_at w2 streamId) = false).
  { apply steps_no_regress in Hs as (_ & Ha & _).
    specialize (Ha streamId Hid).
    destruct (active (stream_at w2 streamId)) eqn:Ha2; [|reflexivity].
    unfold stream_at in Ha2, Hs1. unfold stream_of in Ha.
    rewrite Ha2, Hs1 in Ha. now specialize (Ha eq_refl). }
  split; [exact Hoff|]. split.
  - intros t. now apply executeWithdraw_inactive.
  - intros relayer t nonce deadline relayerFee signature. split.
    + apply (run_withdrawal_blocked
               (Signed relayer nonce deadline relayerFee signature)).
      now left.
    + intros Hauth. rewrite withdrawSigned_authorised by assumption.
      rewrite executeWithdraw_inactive by exact Hoff. reflexivity.
Qed.

End Cancellation.

Lemma cancelled_stream_never_pays_witness :
  StreamManager.cancelStream ex_owner 1100 0 ex_funded = Ok ex_cancelled
  /\ StreamManager.accruedSalary 1100 0 ex_funded = Ok 100
  /\ HLUSD.balanceOf (hlusd ex_cancelled) ex_employee = 0
  /\ StreamManager.withdraw 1200 0 ex_cancelled = Revert (StreamInactive 0)
  /\ StreamManager.withdrawSigned (H := example_scheme) ex_relayer 1200 0 0
       2000 5 (ex_signature 0) ex_cancelled = Revert (StreamInactive 0).
Proof.
  assert (Hreach : reachable (H := example_scheme) ex_funded).
  { exists ex_deployed. split; [|apply run_calls_steps].
    exists ex_owner, ex_manager, 77, 99, ex_tax, ex_vault. reflexivity. }
  assert (Ho : ex_owner = m_owner (manager ex_funded))
    by (vm_compute; reflexivity).
  assert (Ha : active (stream_at ex_funded 0) = true)
    by (vm_compute; reflexivity).
  destruct (cancelled_stream_never_pays (H := example_scheme) ex_owner 1100 0
              ex_funded Hreach Ho Ha)
    as (w1 & E & _ & _ & _ & _ & _ & Hafter).
  assert (E' : StreamManager.cancelStream ex_owner 1100 0 ex_funded
               = Ok ex_cancelled) by (vm_compute; reflexivity).
  assert (w1 = ex_cancelled) as -> by congruence.
  destruct (Hafter ex_cancelled (rtc_refl _ _)) as (_ & Hw & Hsig).
  split; [exact E'|]. split; [vm_compute; reflexivity|].
  split; [vm_compute; reflexivity|]. split; [apply Hw|].
  apply Hsig. vm_compute. repeat split; discriminate.
Defined.

Section RelayerFee.
Context `{Eip712}.

(** C6. [withdrawSigned] with a positive relayer fee.  When the
    sponsorship pool holds less than the fee the call fails and the world
    stays as it was; the failure is [InsufficientSponsorship] whenever the
    request is authorised and the withdrawal itself goes through.  When
    the call succeeds the pool held the fee and goes down by exactly the
    fee, the direct withdrawal from the same world at the same time
    succeeds too, and the token movements are those of the direct
    withdrawal (the employee receives the same net amount) followed by
    the fee, paid by the manager to the relayer.  And the call does
    succeed when the pool holds the fee, be it exactly the fee: an
    authorised request is accepted whenever the direct withdrawal goes
    through and the token lets the manager pay the fee. *)
Theorem relayer_fee_from_sponsorship (relayer : address)
  (now streamId nonce deadline relayerFee : N) (signature : list N)
  (w : World) :
  0 < relayerFee ->
  (sponsorshipPool (manager w) < relayerFee ->
   is_revert (StreamManager.withdrawSigned relayer now streamId nonce
                deadline relayerFee signature w)
   /\ commit (StreamManager.withdrawSigned relayer now streamId nonce
               deadline relayerFee signature w) w = w
   /\ (authorised now streamId nonce deadline signature w ->
       forall wd, StreamManager.withdraw now streamId w = Ok wd ->
       StreamManager.withdrawSigned relayer now streamId nonce deadline
         relayerFee signature w = Revert InsufficientSponsorship))
  /\ (forall w',
        StreamManager.withdrawSigned relayer now streamId nonce deadline
          relayerFee signature w = Ok w' ->
        relayerFee <= sponsorshipPool (manager w)
        /\ sponsorshipPool (manager w')
           = sponsorshipPool (manager w) - relayerFee
        /\ exists wd,
             StreamManager.withdraw now streamId w = Ok wd
             /\ transfers_of (new_events w wd)
                = payout_transfers now w (stream_at w streamId)
             /\ transfers_of (new_events w w')
                = transfers_of (new_events w wd)
                  ++ [(m_self (manager w), relayer, relayerFee)])
  /\ (relayerFee <= sponsorshipPool (manager w) ->
      authorised now streamId nonce deadline signature w ->
      forall wd t',
        StreamManager.withdraw now streamId w = Ok wd ->
        HLUSD._transfer (m_self (manager w)) relayer relayerFee (hlusd wd)
        = Ok t' ->
        exists w',
          StreamManager.withdrawSigned relayer now streamId nonce deadline
            relayerFee signature w = Ok w'
          /\ sponsorshipPool (manager w')
             = sponsorshipPool (manager w) - relayerFee
          /\ hlusd w' = t'
          /\ stream_at w' streamId = stream_at wd streamId).
Proof.
  intros Hfee.
  assert (Hok : forall w',
             StreamManager.withdrawSigned relayer now streamId nonce
               deadline relayerFee signature w = Ok w' ->
             relayerFee <= sponsorshipPool (manager w)
             /\ sponsorshipPool (manager w')
                = sponsorshipPool (manager w) - relayerFee
             /\ exists wd,
                  StreamManager.withdraw now streamId w = Ok wd
                  /\ transfers_of (new_events w wd)
                     = payout_transfers now w (stream_at w streamId)
                  /\ transfers_of (new_events w w')
                     = transfers_of (new_events w wd)
                       ++ [(m_self (manager w), relayer, relayerFee)]).
  { intros w' E.
    pose proof (run_withdrawal_events
                  (Signed relayer nonce deadline relayerFee signature)
                  now streamId w w' E) as (evs & Hevs & _ & Htr).
    pose proof (withdrawSigned_Ok _ _ _ _ _ _ _ _ _ E)
      as (_ & _ & _ & w2 & E2 & Hpool & Hm & _).
    specialize (Hpool Hfee).
    apply N.ltb_lt in Hfee. rewrite Hfee in Hm.
    pose proof (executeWithdraw_Ok _ _ _ _ E2)
      as (_ & _ & _ & _ & _ & Hm2 & _).
    assert (Hp2 : sponsorshipPool (manager w2) = sponsorshipPool (manager w))
      by (rewrite Hm2; reflexivity).
    rewrite Hp2 in *.
    split; [exact Hpool|]. split; [rewrite Hm; reflexivity|].
    rewrite executeWithdraw_set_nonce in E2.
    unfold StreamManager.withdraw.
    destruct (StreamManager._executeWithdraw now streamId w) as [wd|err]
      eqn:Ed; [|discriminate].
    exists wd. split; [reflexivity|].
    pose proof (run_withdrawal_events Direct now streamId w wd Ed)
      as (evd & Hevd & _ & Htrd).
    rewrite (new_events_app _ _ _ Hevs), (new_events_app _ _ _ Hevd).
    rewrite Htr, Htrd. simpl. rewrite Hfee, !app_nil_r.
    split; reflexivity. }
  split; [|split; [exact Hok|]].
  2:{ intros Hle Hauth wd t' Ed Htok.
      rewrite withdrawSigned_authorised by assumption.
      unfold nonce_spent. rewrite executeWithdraw_set_nonce.
      unfold StreamManager.withdraw in Ed. rewrite Ed. simpl.
      apply executeWithdraw_Ok in Ed as (_ & _ & _ & _ & _ & Hm & _).
      rewrite Hm. simpl.
      apply N.ltb_lt in Hfee. rewrite Hfee.
      assert ((sponsorshipPool (manager w) <? relayerFee) = false) as ->
        by now apply N.ltb_ge.
      simpl. rewrite checked_sub_fits by assumption. simpl.
      unfold token_transfer. simpl. rewrite Htok. simpl.
      eexists. split; [reflexivity|]. simpl.
      split; [reflexivity|]. split; [reflexivity|].
      unfold stream_at. simpl. now rewrite Hm. }
  intros Hlow.
  assert (Hrev : is_revert (StreamManager.withdrawSigned relayer now
                              streamId nonce deadline relayerFee signature
                              w)).
  { apply is_revert_not_Ok. intros w' E.
    apply Hok in E as (Hle & _). lia. }
  split; [exact Hrev|]. split.
  - destruct (StreamManager.withdrawSigned relayer now streamId nonce
                deadline relayerFee signature w);
      [destruct Hrev | reflexivity].
  - intros Hauth wd Ed. rewrite withdrawSigned_authorised by assumption.
    unfold nonce_spent. rewrite executeWithdraw_set_nonce.
    unfold StreamManager.withdraw in Ed. rewrite Ed. simpl.
    apply executeWithdraw_Ok in Ed as (_ & _ & _ & _ & _ & Hm & _).
    rewrite Hm. simpl.
    apply N.ltb_lt in Hfee, Hlow. rewrite Hfee, Hlow. reflexivity.
Qed.

End RelayerFee.

Lemma relayer_fee_from_sponsorship_witness :
  StreamManager.withdrawSigned (H := example_scheme) ex_relayer 1100 0 0 2000
    600 (ex_signature 0) ex_funded = Revert InsufficientSponsorship
  /\ StreamManager.withdrawSigned (H := example_scheme) ex_relayer 1100 0 0
       2000 5 (ex_signature 0) ex_funded = Ok ex_signed
  /\ sponsorshipPool (manager ex_funded) = 500
  /\ sponsorshipPool (manager ex_signed) = 495
  /\ transfers_of (new_events ex_funded ex_signed)
     = [(ex_vault, ex_manager, 100); (ex_manager, ex_tax, 5);
        (ex_manager, ex_employee, 95); (ex_manager, ex_relayer, 5)]
  /\ exists w',
       StreamManager.withdrawSigned (H := example_scheme) ex_relayer 1100 0 0
         2000 500 (ex_signature 0) ex_funded = Ok w'
       /\ sponsorshipPool (manager w') = 0
       /\ HLUSD.balanceOf (hlusd w') ex_relayer = 500
       /\ HLUSD.balanceOf (hlusd w') ex_employee = 95.
Proof.
  assert (Hpool : sponsorshipPool (manager ex_funded) = 500)
    by (vm_compute; reflexivity).
  assert (Ed : StreamManager.withdraw 1100 0 ex_funded = Ok ex_withdrawn)
    by (vm_compute; reflexivity).
  assert (Es : StreamManager.withdrawSigned (H := example_scheme) ex_relayer
                 1100 0 0 2000 5 (ex_signature 0) ex_funded = Ok ex_signed)
    by (vm_compute; reflexivity).
  assert (Hauth : authorised (H := example_scheme) 1100 0 0 2000
                    (ex_signature 0) ex_funded)
    by (vm_compute; repeat split; discriminate).
  split; [|split; [exact Es|split; [exact Hpool|]]].
  - destruct (relayer_fee_from_sponsorship (H := example_scheme) ex_relayer
                1100 0 0 2000 600 (ex_signature 0) ex_funded)
      as [Hlow _]; [reflexivity|].
    destruct Hlow as (_ & _ & Herr); [rewrite Hpool; reflexivity|].
    exact (Herr Hauth ex_withdrawn Ed).
  - destruct (relayer_fee_from_sponsorship (H := example_scheme) ex_relayer
                1100 0 0 2000 5 (ex_signature 0) ex_funded)
      as (_ & Hok & _); [reflexivity|].
    destruct (Hok ex_signed Es) as (_ & Hp & wd & Ed' & Hpay & Htr).
    assert (wd = ex_withdrawn) as -> by congruence.
    split; [|split].
    + rewrite Hp, Hpool. reflexivity.
    + rewrite Htr, Hpay. vm_compute. reflexivity.
    + destruct (relayer_fee_from_sponsorship (H := example_scheme)
                  ex_relayer 1100 0 0 2000 500 (ex_signature 0) ex_funded)
        as (_ & _ & Hacc); [reflexivity|].
      destruct (Hacc) with
        (wd := ex_withdrawn)
        (t' := token_after
                 (HLUSD._transfer ex_manager ex_relayer 500
                    (hlusd ex_withdrawn)) (hlusd ex_withdrawn))
        as (w' & E & Hp' & Hh & _).
      * rewrite Hpool. vm_compute. discriminate.
      * exact Hauth.
      * exact Ed.
      * vm_compute. reflexivity.
      * exists w'. split; [exact E|]. split.
        -- rewrite Hp', Hpool. reflexivity.
        -- rewrite Hh. vm_compute. split; reflexivity.
Defined.

(** * More of the vault *)

(** ** Token balances after a transfer *)

Lemma transfer_balances (from to : address) (amount : N) (t t' : HLUSD.state) :
  HLUSD._transfer from to amount t = Ok t' ->
  from <> 0 /\ to <> 0 /\ amount <= HLUSD.balanceOf t from
  /\ HLUSD.allowances t' = HLUSD.allowances t
  /\ forall a,
       HLUSD.balanceOf t' a
       = if decide (a = to)
         then (if decide (a = from) then HLUSD.balanceOf t a
               else HLUSD.balanceOf t a + amount)
         else (if decide (a = from) then HLUSD.balanceOf t a - amount
               else HLUSD.balanceOf t a).
Proof.
  unfold HLUSD._transfer. intros E. inv_ok.
  repeat match goal with
  | Hc : (_ =? _) = false |- _ => apply N.eqb_neq in Hc
  | Hc : (_ <? _) = false |- _ => apply N.ltb_ge in Hc
  end.
  subst t'. simpl. repeat split; try assumption.
  intros a. unfold HLUSD.balanceOf in *. simpl in *.
  match goal with
  | Hx : ?x = _ + amount |- _ => rewrite Hx
  end.
  destruct (decide (a = to)) as [->|Hto].
  - rewrite lookup_insert_eq. simpl.
    destruct (decide (to = from)) as [->|Hne].
    + rewrite lookup_insert_eq. simpl. lia.
    + rewrite lookup_insert_ne by congruence. reflexivity.
  - rewrite lookup_insert_ne by congruence.
    destruct (decide (a = from)) as [->|Hfrom].
    + now rewrite lookup_insert_eq.
    + now rewrite lookup_insert_ne by congruence.
Qed.

Lemma token_transfer_hlusd (a b : address) (n : N) (w : World)
  (r : bool * World) :
  token_transfer a b n w = Ok r ->
  HLUSD._transfer a b n (hlusd w) = Ok (hlusd (snd r)).
Proof. unfold token_transfer. intros E. inv_ok. now subst r. Qed.

Lemma spendAllowance_balances (owner spender : address) (amount : N)
  (t : HLUSD.state) (r : HLUSD.state * list event) :
  HLUSD._spendAllowance owner spender amount t = Ok r ->
  HLUSD.balances (fst r) = HLUSD.balances t /\ transfers_of (snd r) = [].
Proof.
  unfold HLUSD._spendAllowance, HLUSD._approve.
  destruct (HLUSD.allowance t owner spender =? MAX_UINT256); intros E;
    inv_ok; subst; simpl; auto.
Qed.

Lemma token_transferFrom_balances (spender from to : address) (amount : N)
  (w : World) (r : bool * World) :
  token_transferFrom spender from to amount w = Ok r ->
  from <> 0 /\ to <> 0 /\ amount <= bal w from
  /\ transfers_of (new_events w (snd r)) = [(from, to, amount)]
  /\ forall a,
       bal (snd r) a
       = if decide (a = to)
         then (if decide (a = from) then bal w a else bal w a + amount)
         else (if decide (a = from) then bal w a - amount else bal w a).
Proof.
  unfold token_transferFrom. intros E. inv_ok.
  match goal with
  | Hs : HLUSD._spendAllowance _ _ _ _ = Ok _ |- _ =>
      apply spendAllowance_balances in Hs as (Hb & Hev)
  end.
  match goal with
  | Ht : HLUSD._transfer _ _ _ _ = Ok _ |- _ =>
      apply transfer_balances in Ht as (Hf & Hto & Hle & _ & Hbal)
  end.
  subst r. unfold bal, HLUSD.balanceOf in *. simpl.
  rewrite Hb in *. repeat split; try assumption.
  - erewrite new_events_app by (simpl; reflexivity).
    rewrite transfers_of_app, Hev. reflexivity.
Qed.

(** ** Accrual of the simulated yield *)

Lemma simulateYield_state (now : N) (w w1 : World) :
  YieldVault._simulateYield now w = Ok w1 ->
  vault w1
  = set_lastUpdate now
      (set_accumulatedYield
         (accumulatedYield (vault w) + spec_pendingYield now (vault w))
         (vault w)).
Proof.
  unfold YieldVault._simulateYield. intros E. inv_ok.
  match goal with
  | Hp : YieldVault._pendingYield _ _ = Ok ?p |- _ =>
      apply pendingYield_Ok in Hp; rewrite Hp in *
  end.
  destruct (N.ltb_spec 0 (spec_pendingYield now (vault w))) as [Hpos|Hz].
  - inv_ok.
    repeat match goal with
    | Hx : ?x = _ |- _ => is_var x; subst x
    end.
    reflexivity.
  - apply N.le_0_r in Hz. inv_ok. subst. rewrite Hz, N.add_0_r. simpl.
    match goal with
    | |- context [vault ?x] => destruct (vault x)
    end.
    reflexivity.
Qed.

Lemma spec_pendingYield_settled (now y : N) (v : VaultState) :
  spec_pendingYield now (set_lastUpdate now (set_accumulatedYield y v)) = 0.
Proof.
  unfold spec_pendingYield. simpl. now rewrite N.sub_diag, N.mul_0_r.
Qed.

Lemma currentBalance_fits (now : N) (w : World) (b : N) :
  YieldVault.currentBalance now w = Ok b ->
  b = spec_currentBalance now (vault w) /\ b <= MAX_UINT256.
Proof.
  intros E. pose proof (currentBalance_Ok _ _ _ E) as Hb. split; [exact Hb|].
  unfold YieldVault.currentBalance in E. inv_ok. lia.
Qed.

(** The balance the vault reports once its yield is accrued at [now]. *)
Lemma currentBalance_settled (now : N) (w : World) :
  lastUpdate (vault w) = now ->
  book (vault w) <= MAX_UINT256 ->
  YieldVault.currentBalance now w = Ok (book (vault w)).
Proof.
  intros Hl Hfit. unfold YieldVault.currentBalance, YieldVault._pendingYield.
  rewrite Hl.
  assert (checked_sub now now = Ok 0) as Hs
    by (rewrite checked_sub_fits by lia; now rewrite N.sub_diag).
  destruct ((totalPrincipal (vault w) =? 0) || (yieldRateBps (vault w) =? 0));
    simpl; [|rewrite Hs; simpl];
    unfold book in Hfit; rewrite checked_add_fits by assumption; simpl;
    rewrite checked_add_fits by lia; now rewrite N.add_0_r.
Qed.

(** What an accrual leaves in the books, when the vault could report a
    balance before it. *)
Lemma simulateYield_book (now : N) (w w1 : World) (b : N) :
  YieldVault._simulateYield now w = Ok w1 ->
  YieldVault.currentBalance now w = Ok b ->
  b = totalPrincipal (vault w1) + accumulatedYield (vault w1)
  /\ b <= MAX_UINT256
  /\ accumulatedYield (vault w1)
     = accumulatedYield (vault w) + spec_pendingYield now (vault w)
  /\ lastUpdate (vault w1) = now
  /\ totalPrincipal (vault w1) = totalPrincipal (vault w)
  /\ yieldRateBps (vault w1) = yieldRateBps (vault w)
  /\ hlusd w1 = hlusd w.
Proof.
  intros Es Eb.
  pose proof (simulateYield_state _ _ _ Es) as Hv.
  pose proof (simulateYield_Ok _ _ _ Es) as (_ & Hh & _).
  apply currentBalance_fits in Eb as (Hb & Hfit).
  rewrite Hv. simpl. unfold spec_currentBalance in Hb.
  repeat split; try reflexivity; try assumption. lia.
Qed.

(** X1. Accruing the yield is book-keeping only: it moves the pending
    yield into [accumulatedYield] and sets [lastUpdate] to the block time,
    leaves the principal and the rate alone, moves no token, and the
    balance the vault reports at that time is the same before and after. *)
Theorem simulateYield_keeps_balance (now : N) (w w1 : World) (b : N) :
  YieldVault._simulateYield now w = Ok w1 ->
  YieldVault.currentBalance now w = Ok b ->
  YieldVault.currentBalance now w1 = Ok b
  /\ accumulatedYield (vault w1)
     = accumulatedYield (vault w) + spec_pendingYield now (vault w)
  /\ lastUpdate (vault w1) = now
  /\ totalPrincipal (vault w1) = totalPrincipal (vault w)
  /\ yieldRateBps (vault w1) = yieldRateBps (vault w)
  /\ hlusd w1 = hlusd w.
Proof.
  intros Es Eb.
  pose proof (simulateYield_book _ _ _ _ Es Eb)
    as (Hb & Hfit & HY & HL & HP & HR & Hh).
  split; [|repeat split; assumption].
  rewrite Hb. apply (currentBalance_settled now w1 HL).
  unfold book. now rewrite <- Hb.
Qed.

Lemma simulateYield_keeps_balance_witness :
  YieldVault.currentBalance ex_year ex_vault_accrued = Ok 105000
  /\ accumulatedYield (vault ex_vault_accrued) = 5000.
Proof.
  destruct (simulateYield_keeps_balance ex_year ex_vault_world
              ex_vault_accrued 105000) as (Hb & Hy & _).
  - vm_compute. reflexivity.
  - vm_compute. reflexivity.
  - split; [exact Hb|]. rewrite Hy. vm_compute. reflexivity.
Defined.

Lemma token_transferFrom_events (spender from to : address) (amount : N)
  (w : World) (r : bool * World) :
  token_transferFrom spender from to amount w = Ok r ->
  fst r = true
  /\ exists evs, events (snd r) = events w ++ evs
                 /\ transfers_of evs = [(from, to, amount)].
Proof.
  unfold token_transferFrom. intros E. inv_ok.
  match goal with
  | Hs : HLUSD._spendAllowance _ _ _ _ = Ok _ |- _ =>
      apply spendAllowance_balances in Hs as (_ & Hev)
  end.
  subst r. simpl. split; [reflexivity|]. eexists. split; [reflexivity|].
  rewrite transfers_of_app, Hev. reflexivity.
Qed.

(** ** Deposits, rate changes and withdrawals of the vault *)

Lemma vault_deposit_state (sender : address) (now amount : N) (w w' : World) :
  YieldVault.deposit sender now amount w = Ok w' ->
  sender = v_owner (vault w) /\ 0 < amount
  /\ exists w1 r,
       YieldVault._simulateYield now w = Ok w1
       /\ totalPrincipal (vault w1) + amount <= MAX_UINT256
       /\ token_transferFrom (v_self (vault w)) sender (v_self (vault w))
            amount
            (set_vault
               (set_totalPrincipal (totalPrincipal (vault w1) + amount)
                  (vault w1)) w1) = Ok r
       /\ w' = emit [Deposit sender amount] (snd r).
Proof.
  unfold YieldVault.deposit, onlyOwner. intros E. inv_ok.
  repeat match goal with
  | Hc : negb _ = false |- _ => apply negb_false_iff in Hc
  | Hc : (_ =? _) = true |- _ => apply N.eqb_eq in Hc
  | Hc : (_ =? _) = false |- _ => apply N.eqb_neq in Hc
  end.
  split; [assumption|]. split; [lia|].
  match goal with
  | Hy : YieldVault._simulateYield _ _ = Ok ?w1 |- _ =>
      pose proof (simulateYield_Ok _ _ _ Hy) as (_ & _ & Hs & _);
      exists w1
  end.
  match goal with
  | Ht : token_transferFrom _ _ _ _ _ = Ok ?r |- _ => exists r
  end.
  repeat match goal with
  | Hx : ?x = _ |- _ => is_var x; subst x
  end.
  simpl in *. rewrite Hs in *. repeat split; try assumption.
Qed.

Lemma vault_deposit_effect (sender : address) (now amount : N)
  (w w' : World) :
  YieldVault.deposit sender now amount w = Ok w' ->
  exists w1,
    YieldVault._simulateYield now w = Ok w1
    /\ vault w'
       = set_totalPrincipal (totalPrincipal (vault w1) + amount) (vault w1)
    /\ (exists evs, events w' = events w ++ evs
           /\ transfers_of evs = [(sender, v_self (vault w), amount)])
    /\ amount <= bal w sender
    /\ forall a,
         bal w' a
         = if decide (a = v_self (vault w))
           then (if decide (a = sender) then bal w a else bal w a + amount)
           else (if decide (a = sender) then bal w a - amount else bal w a).
Proof.
  intros E.
  apply vault_deposit_state in E as (_ & _ & w1 & r & Es & _ & Et & ->).
  pose proof (simulateYield_Ok _ _ _ Es)
    as (_ & Hh & _ & _ & evs & Hev & Htr).
  pose proof (token_transferFrom_Ok _ _ _ _ _ _ Et) as (_ & Hv).
  pose proof (token_transferFrom_events _ _ _ _ _ _ Et)
    as (_ & evt & Hevt & Htrt).
  pose proof (token_transferFrom_balances _ _ _ _ _ _ Et)
    as (_ & _ & Hle & _ & Hbal).
  exists w1. split; [exact Es|]. split; [exact Hv|].
  unfold bal in *. simpl in *. rewrite Hh in *.
  split; [|split; [exact Hle | exact Hbal]].
  exists (evs ++ evt ++ [Deposit sender amount]). split.
  - rewrite Hevt, Hev, <- !app_assoc. reflexivity.
  - rewrite !transfers_of_app, Htr, Htrt. reflexivity.
Qed.

(** X2. A deposit accrues the pending yield, then adds exactly the amount
    to the principal: the balance the vault reports at that time goes up
    by the amount, and the one token movement is the amount from the
    depositor to the vault. *)
Theorem vault_deposit_adds_amount (sender : address) (now amount : N)
  (w w' : World) (b : N) :
  YieldVault.deposit sender now amount w = Ok w' ->
  YieldVault.currentBalance now w = Ok b ->
  b + amount <= MAX_UINT256 ->
  YieldVault.currentBalance now w' = Ok (b + amount)
  /\ totalPrincipal (vault w') = totalPrincipal (vault w) + amount
  /\ accumulatedYield (vault w')
     = accumulatedYield (vault w) + spec_pendingYield now (vault w)
  /\ transfers_of (new_events w w') = [(sender, v_self (vault w), amount)]
  /\ (sender <> v_self (vault w) ->
      bal w' (v_self (vault w)) = bal w (v_self (vault w)) + amount
      /\ bal w' sender + amount = bal w sender).
Proof.
  intros E Eb Hfit.
  apply vault_deposit_effect in E
    as (w1 & Es & Hv' & (evs & Hev & Htr) & Hle & Hbal).
  pose proof (simulateYield_book _ _ _ _ Es Eb)
    as (Hb1 & _ & HY & HL & HP & _ & _).
  assert (Hbook : book (vault w') = b + amount)
    by (rewrite Hv'; unfold book; simpl; lia).
  split; [|split; [|split; [|split]]].
  - rewrite <- Hbook. apply currentBalance_settled.
    + rewrite Hv'. exact HL.
    + rewrite Hbook. exact Hfit.
  - rewrite Hv'. simpl. now rewrite HP.
  - rewrite Hv'. exact HY.
  - now rewrite (new_events_app _ _ _ Hev).
  - intros Hne. rewrite !Hbal.
    repeat match goal with
    | |- context [decide (?x = ?y)] => destruct (decide (x = y))
    end; try congruence; split; lia.
Qed.

Lemma vault_deposit_adds_amount_witness :
  YieldVault.currentBalance ex_year ex_vault_deposited = Ok 110000
  /\ totalPrincipal (vault ex_vault_deposited) = 105000
  /\ accumulatedYield (vault ex_vault_deposited) = 5000
  /\ bal ex_vault_deposited ex_vault = 105000
  /\ bal ex_vault_deposited ex_manager = 0.
Proof.
  destruct (vault_deposit_adds_amount ex_manager ex_year 5000
              ex_vault_depositor ex_vault_deposited 105000)
    as (Hb & Hp & Hy & _ & Hbal).
  - vm_compute. reflexivity.
  - vm_compute. reflexivity.
  - vm_compute. discriminate.
  - destruct Hbal as (Hv & Hm); [discriminate|].
    split; [exact Hb|]. split; [exact Hp|].
    split; [rewrite Hy; vm_compute; reflexivity|].
    split; [exact Hv|].
    change (bal ex_vault_depositor ex_manager) with 5000 in Hm. lia.
Defined.

Lemma vault_setYieldRate_state (sender : address) (now bps : N) (w w' : World) :
  YieldVault.setYieldRate sender now bps w = Ok w' ->
  sender = v_owner (vault w) /\ bps <= 10000
  /\ exists w1,
       YieldVault._simulateYield now w = Ok w1
       /\ w' = emit [YieldRateChanged (yieldRateBps (vault w)) bps]
                 (set_vault (set_yieldRateBps bps (vault w1)) w1).
Proof.
  unfold YieldVault.setYieldRate, onlyOwner, YieldVault.MAX_YIELD_BPS.
  intros E. inv_ok.
  repeat match goal with
  | Hc : negb _ = false |- _ => apply negb_false_iff in Hc
  | Hc : (_ =? _) = true |- _ => apply N.eqb_eq in Hc
  | Hc : (_ <? _) = false |- _ => apply N.ltb_ge in Hc
  end.
  split; [assumption|]. split; [assumption|].
  match goal with
  | Hy : YieldVault._simulateYield _ _ = Ok ?w1 |- _ =>
      pose proof (simulateYield_state _ _ _ Hy) as Hv; exists w1
  end.
  split; [assumption|]. subst w'. now rewrite Hv.
Qed.

(** X3. A rate change is never retroactive: the yield pending under the
    old rate is accrued first, so the balance the vault reports at the
    time of the change is the same before and after; from then on the
    pending yield is computed with the new rate, from the time of the
    change. *)
Theorem setYieldRate_not_retroactive (sender : address) (now bps : N)
  (w w' : World) (b : N) :
  YieldVault.setYieldRate sender now bps w = Ok w' ->
  YieldVault.currentBalance now w = Ok b ->
  YieldVault.currentBalance now w' = Ok b
  /\ yieldRateBps (vault w') = bps
  /\ totalPrincipal (vault w') = totalPrincipal (vault w)
  /\ accumulatedYield (vault w')
     = accumulatedYield (vault w)
       + totalPrincipal (vault w) * yieldRateBps (vault w)
         * (now - lastUpdate (vault w)) / (10000 * 31536000)
  /\ (forall t, spec_pendingYield t (vault w')
                = totalPrincipal (vault w) * bps * (t - now)
                  / (10000 * 31536000))
  /\ hlusd w' = hlusd w.
Proof.
  intros E Eb.
  apply vault_setYieldRate_state in E as (_ & _ & w1 & Es & ->).
  pose proof (simulateYield_book _ _ _ _ Es Eb)
    as (Hb1 & Hfit & HY & HL & HP & _ & Hh).
  set (w' := emit _ _).
  assert (Hv' : vault w' = set_yieldRateBps bps (vault w1)) by reflexivity.
  split; [|split; [|split; [|split; [|split]]]].
  - replace b with (book (vault w'))
      by (rewrite Hv'; unfold book; simpl; lia).
    apply currentBalance_settled.
    + rewrite Hv'. exact HL.
    + rewrite Hv'. unfold book. simpl. lia.
  - reflexivity.
  - rewrite Hv'. exact HP.
  - rewrite Hv'. exact HY.
  - intros t. rewrite Hv'. unfold spec_pendingYield. simpl.
    now rewrite HL, HP.
  - exact Hh.
Qed.

Lemma setYieldRate_not_retroactive_witness :
  YieldVault.currentBalance ex_year ex_vault_rated = Ok 105000
  /\ yieldRateBps (vault ex_vault_rated) = 700
  /\ accumulatedYield (vault ex_vault_rated) = 5000
  /\ spec_pendingYield (ex_year + 31536000) (vault ex_vault_rated) = 7000.
Proof.
  destruct (setYieldRate_not_retroactive ex_manager ex_year 700
              ex_vault_world ex_vault_rated 105000)
    as (Hb & Hr & _ & Hy & Hp & _).
  - vm_compute. reflexivity.
  - vm_compute. reflexivity.
  - split; [exact Hb|]. split; [exact Hr|].
    split; [rewrite Hy; vm_compute; reflexivity|].
    rewrite Hp. vm_compute. reflexivity.
Defined.

Lemma vault_withdraw_state (sender : address) (now amount : N) (to : address)
  (w w' : World) :
  YieldVault.withdraw sender now amount to w = Ok w' ->
  sender = v_owner (vault w) /\ 0 < amount /\ to <> 0
  /\ exists w1,
       YieldVault._simulateYield now w = Ok w1
       /\ amount <= book (vault w1)
       /\ book (vault w1) <= MAX_UINT256
       /\ accumulatedYield (vault w')
          = accumulatedYield (vault w1) - N.min amount (accumulatedYield (vault w1))
       /\ totalPrincipal (vault w')
          = totalPrincipal (vault w1)
            - (amount - N.min amount (accumulatedYield (vault w1)))
       /\ lastUpdate (vault w') = lastUpdate (vault w1)
       /\ yieldRateBps (vault w') = yieldRateBps (vault w1)
       /\ HLUSD._transfer (v_self (vault w)) to amount (hlusd w)
          = Ok (hlusd w')
       /\ v_self (vault w') = v_self (vault w).
Proof.
  unfold YieldVault.withdraw, onlyOwner. intros E. inv_ok.
  repeat match goal with
  | Hc : negb _ = false |- _ => apply negb_false_iff in Hc
  | Hc : (_ =? _) = true |- _ => apply N.eqb_eq in Hc
  | Hc : (_ =? _) = false |- _ => apply N.eqb_neq in Hc
  | Hc : (_ <? _) = false |- _ => apply N.ltb_ge in Hc
  end.
  split; [assumption|]. split; [lia|]. split; [assumption|].
  match goal with
  | Hy : YieldVault._simulateYield _ _ = Ok ?w1 |- _ =>
      pose proof (simulateYield_Ok _ _ _ Hy) as (_ & Hh & Hs & _);
      exists w1; split; [exact Hy|]
  end.
  match goal with
  | Ht : token_transfer _ _ _ _ = Ok _ |- _ =>
      pose proof (token_transfer_Ok _ _ _ _ _ Ht) as (_ & _ & Hv & _);
      apply token_transfer_hlusd in Ht
  end.
  subst w'. simpl in *. rewrite Hv.
  match goal with
  | Hb : (if amount <=? ?y then _ else _) = Ok ?v2 |- _ =>
      destruct (N.leb_spec amount y); inv_ok; subst; simpl in *
  end.
  all: match goal with
       | Hv2 : _ = vault (snd ?r),
         Ht : HLUSD._transfer (v_self (vault (snd ?r))) _ _ _ = _ |- _ =>
           rewrite <- Hv2 in Ht; simpl in Ht; rewrite Hs, Hh in Ht
       end.
  all: unfold book; repeat split; try assumption; lia.
Qed.

Lemma vault_withdraw_book (sender : address) (now amount : N) (to : address)
  (w w' : World) (b : N) :
  YieldVault.withdraw sender now amount to w = Ok w' ->
  YieldVault.currentBalance now w = Ok b ->
  amount <= b /\ b <= MAX_UINT256
  /\ book (vault w') = b - amount
  /\ lastUpdate (vault w') = now
  /\ book (vault w') + amount
     = book (vault w) + spec_pendingYield now (vault w).
Proof.
  intros E Eb.
  apply vault_withdraw_state in E
    as (_ & _ & _ & w1 & Es & Hle & _ & HY' & HP' & HL' & _ & _ & _).
  pose proof (simulateYield_book _ _ _ _ Es Eb)
    as (Hb1 & Hfit & HY & HL & HP & _ & _).
  unfold book in *. repeat split; try lia.
Qed.

(** X4. A withdrawal from the vault accrues the pending yield, then takes
    exactly the amount off the books: the balance the vault reports at that
    time goes down by the amount, which is what the recipient receives and
    the vault gives up in tokens. *)
Theorem vault_withdraw_takes_amount (sender : address) (now amount : N)
  (to : address) (w w' : World) (b : N) :
  YieldVault.withdraw sender now amount to w = Ok w' ->
  YieldVault.currentBalance now w = Ok b ->
  amount <= b
  /\ YieldVault.currentBalance now w' = Ok (b - amount)
  /\ book (vault w') + amount
     = book (vault w) + spec_pendingYield now (vault w)
  /\ amount <= bal w (v_self (vault w))
  /\ (to <> v_self (vault w) ->
      bal w' (v_self (vault w)) + amount = bal w (v_self (vault w))
      /\ bal w' to = bal w to + amount).
Proof.
  intros E Eb.
  pose proof (vault_withdraw_book _ _ _ _ _ _ _ E Eb)
    as (Hle & Hfit & Hbook & HL & Hsum).
  apply vault_withdraw_state in E
    as (_ & _ & _ & w1 & _ & _ & _ & _ & _ & _ & _ & Et & _).
  apply transfer_balances in Et as (_ & _ & Hbal0 & _ & Hbal).
  split; [exact Hle|]. split; [|split; [exact Hsum|split; [exact Hbal0|]]].
  - rewrite <- Hbook. apply (currentBalance_settled now w' HL).
    rewrite Hbook. lia.
  - intros Hne. unfold bal. rewrite !Hbal.
    repeat match goal with
    | |- context [decide (?x = ?y)] => destruct (decide (x = y))
    end; try congruence; split; lia.
Qed.

Lemma vault_withdraw_takes_amount_witness :
  YieldVault.currentBalance ex_year ex_vault_paid = Ok 99000
  /\ bal ex_vault_paid ex_vault = 94000
  /\ bal ex_vault_paid ex_owner = 6000.
Proof.
  destruct (vault_withdraw_takes_amount ex_manager ex_year 6000 ex_owner
              ex_vault_world ex_vault_paid 105000)
    as (_ & Hb & _ & _ & Hbal).
  - vm_compute. reflexivity.
  - vm_compute. reflexivity.
  - destruct Hbal as (Hv & Ho); [discriminate|].
    split; [exact Hb|]. split; [|exact Ho].
    change (bal ex_vault_world (v_self (vault ex_vault_world))) with 100000
      in Hv.
    change (v_self (vault ex_vault_world)) with ex_vault in Hv. lia.
Defined.

(** X5. The yield rate never exceeds 100%: [setYieldRate] by the owner
    refuses a rate above 10000 basis points with [RateTooHigh], and each of
    the three external functions of the vault that succeeds leaves a rate
    within the bound when it found one. *)
Theorem yield_rate_bounded (sender : address) (now x : N) (to : address)
  (w w' : World) :
  yieldRateBps (vault w) <= 10000 ->
  YieldVault.deposit sender now x w = Ok w'
  \/ YieldVault.withdraw sender now x to w = Ok w'
  \/ YieldVault.setYieldRate sender now x w = Ok w' ->
  yieldRateBps (vault w') <= 10000
  /\ (forall bps, 10000 < bps -> bps <= MAX_UINT256 ->
        YieldVault.setYieldRate (v_owner (vault w)) now bps w
        = Revert (RateTooHigh bps)).
Proof.
  intros Hr E. split.
  - destruct E as [E|[E|E]].
    + apply vault_deposit_state in E as (_ & _ & w1 & r & Es & _ & Et & ->).
      apply token_transferFrom_Ok in Et as (_ & Hv).
      apply simulateYield_state in Es. simpl. rewrite Hv, Es. exact Hr.
    + apply vault_withdraw_state in E
        as (_ & _ & _ & w1 & Es & _ & _ & _ & _ & _ & Hrate & _ & _).
      apply simulateYield_state in Es. rewrite Hrate, Es. exact Hr.
    + apply vault_setYieldRate_state in E as (_ & Hb & w1 & _ & ->).
      exact Hb.
  - intros bps Hb _. unfold YieldVault.setYieldRate, YieldVault.MAX_YIELD_BPS.
    rewrite onlyOwner_owner. simpl. apply N.ltb_lt in Hb. now rewrite Hb.
Qed.

Lemma yield_rate_bounded_witness :
  yieldRateBps (vault ex_vault_rated) <= 10000
  /\ YieldVault.setYieldRate ex_manager ex_year 10001 ex_vault_world
     = Revert (RateTooHigh 10001).
Proof.
  destruct (yield_rate_bounded ex_manager ex_year 700 ex_owner
              ex_vault_world ex_vault_rated) as (Hr & Hhigh).
  - vm_compute. discriminate.
  - right. right. vm_compute. reflexivity.
  - split; [exact Hr|].
    apply (Hhigh 10001); [reflexivity | vm_compute; discriminate].
Defined.

(** X6. The book balance of the vault is no promise of tokens: a
    withdrawal within [totalPrincipal + accumulatedYield] passes the
    [InsufficientBalance] check and still fails, in the token, when the
    vault holds fewer tokens than the amount; the simulated yield brings no
    token in. *)
Theorem vault_withdraw_unbacked (sender : address) (now amount : N)
  (to : address) (w w1 : World) :
  sender = v_owner (vault w) -> to <> 0 -> v_self (vault w) <> 0 ->
  YieldVault._simulateYield now w = Ok w1 ->
  book (vault w1) <= MAX_UINT256 ->
  amount <= book (vault w1) ->
  bal w (v_self (vault w)) < amount ->
  YieldVault.withdraw sender now amount to w = Revert ERC20InsufficientBalance.
Proof.
  intros -> Hto Hself Es Hfit Hle Hshort.
  pose proof (simulateYield_Ok _ _ _ Es) as (_ & Hh & Hs & _).
  unfold YieldVault.withdraw. rewrite onlyOwner_owner. simpl.
  assert ((amount =? 0) = false) as -> by (apply N.eqb_neq; lia).
  apply N.eqb_neq in Hto. simpl. rewrite Hto. simpl. rewrite Es. simpl.
  unfold book in *. rewrite checked_add_fits by assumption. simpl.
  assert ((totalPrincipal (vault w1) + accumulatedYield (vault w1) <? amount)
          = false) as -> by now apply N.ltb_ge.
  simpl.
  assert (Htok : forall v2, v_self v2 = v_self (vault w) ->
            bind (token_transfer (v_self (vault (set_vault v2 w1))) to amount
                    (set_vault v2 w1))
              (fun r => revert_if (negb (fst r)) VaultTransferFailed ;;
                        Ok (emit [Withdraw to amount] (snd r)))
            = Revert ERC20InsufficientBalance).
  { intros v2 Hv2. unfold token_transfer, HLUSD._transfer. simpl.
    rewrite Hv2, Hh. apply N.eqb_neq in Hself. rewrite Hself. simpl.
    rewrite Hto. simpl. unfold bal in Hshort. apply N.ltb_lt in Hshort.
    now rewrite Hshort. }
  destruct (N.leb_spec amount (accumulatedYield (vault w1))).
  - rewrite checked_sub_fits by assumption. simpl.
    apply (Htok (set_accumulatedYield _ (vault w1))). exact Hs.
  - rewrite checked_sub_fits by lia. simpl.
    rewrite checked_sub_fits by lia. simpl.
    apply (Htok (set_totalPrincipal _ (set_accumulatedYield 0 (vault w1)))).
    exact Hs.
Qed.

Lemma vault_withdraw_unbacked_witness :
  YieldVault.currentBalance ex_year ex_vault_world = Ok 105000
  /\ YieldVault.withdraw ex_manager ex_year 105000 ex_owner ex_vault_world
     = Revert ERC20InsufficientBalance.
Proof.
  split; [vm_compute; reflexivity|].
  apply (vault_withdraw_unbacked ex_manager ex_year 105000 ex_owner
           ex_vault_world ex_vault_accrued).
  - reflexivity.
  - discriminate.
  - discriminate.
  - vm_compute. reflexivity.
  - vm_compute. discriminate.
  - vm_compute. discriminate.
  - vm_compute. reflexivity.
Defined.

(** ** Accruing in steps *)

Lemma div_split (a b c : N) :
  c <> 0 -> a / c + b / c <= (a + b) / c <= a / c + b / c + 1.
Proof.
  intros Hc.
  pose proof (N.div_mod a c Hc) as Ha.
  pose proof (N.div_mod b c Hc) as Hb.
  pose proof (N.mod_lt a c Hc) as La.
  pose proof (N.mod_lt b c Hc) as Lb.
  assert (E : (a + b) / c = a / c + b / c + (a mod c + b mod c) / c).
  { rewrite <- (N.div_add_l (a / c + b / c) c (a mod c + b mod c)) by exact Hc.
    f_equal. lia. }
  assert (L : (a mod c + b mod c) / c < 2)
    by (apply N.Div0.div_lt_upper_bound; lia).
  revert E L. generalize ((a mod c + b mod c) / c), ((a + b) / c), (a / c),
    (b / c). intros q s qa qb E L. lia.
Qed.

(** X7. Accruing the yield in two steps instead of one never gives more
    yield, and gives at most one unit less: each accrual rounds down. *)
Theorem simulateYield_in_steps (t1 t2 : N) (w w1 w2 w2' : World) :
  lastUpdate (vault w) <= t1 -> t1 <= t2 ->
  YieldVault._simulateYield t1 w = Ok w1 ->
  YieldVault._simulateYield t2 w1 = Ok w2 ->
  YieldVault._simulateYield t2 w = Ok w2' ->
  accumulatedYield (vault w2) <= accumulatedYield (vault w2')
  /\ accumulatedYield (vault w2') <= accumulatedYield (vault w2) + 1
  /\ totalPrincipal (vault w2) = totalPrincipal (vault w2').
Proof.
  intros H0 H12 E1 E2 E2'.
  apply simulateYield_state in E1, E2, E2'.
  rewrite E2, E2', E1. unfold spec_pendingYield. simpl.
  set (P := totalPrincipal (vault w)). set (r := yieldRateBps (vault w)).
  set (t0 := lastUpdate (vault w)) in *.
  assert (Hsum : P * r * (t2 - t0) = P * r * (t1 - t0) + P * r * (t2 - t1))
    by (rewrite <- N.mul_add_distr_l; f_equal; lia).
  rewrite Hsum.
  pose proof (div_split (P * r * (t1 - t0)) (P * r * (t2 - t1))
                (10000 * YieldVault.YEAR)) as Hd.
  assert (Hc : 10000 * YieldVault.YEAR <> 0) by discriminate.
  specialize (Hd Hc). repeat split; lia.
Qed.

Lemma simulateYield_in_steps_witness :
  accumulatedYield (vault ex_vault_halves)
  <= accumulatedYield (vault ex_vault_accrued)
  /\ accumulatedYield (vault ex_vault_accrued)
     <= accumulatedYield (vault ex_vault_halves) + 1.
Proof.
  destruct (simulateYield_in_steps ex_half_year ex_year ex_vault_world
              ex_vault_half ex_vault_halves ex_vault_accrued)
    as (Hle & Hge & _).
  - vm_compute. discriminate.
  - vm_compute. discriminate.
  - vm_compute. reflexivity.
  - vm_compute. reflexivity.
  - vm_compute. reflexivity.
  - split; [exact Hle | exact Hge].
Defined.

(** * More of the stream ledger *)

(** ** One withdrawal after another *)

Lemma executeWithdraw_stream (now streamId : N) (w w' : World) :
  StreamManager._executeWithdraw now streamId w = Ok w' ->
  stream_at w' streamId = settled now (stream_at w streamId).
Proof.
  intros E. apply executeWithdraw_Ok in E as (_ & _ & _ & _ & _ & Hm & _).
  unfold stream_at at 1. rewrite Hm. simpl. now rewrite lookup_insert_eq.
Qed.

Lemma executeWithdraw_fits (now streamId : N) (w w' : World) :
  StreamManager._executeWithdraw now streamId w = Ok w' ->
  let s := stream_at w streamId in
  lastCheckpoint s <= now
  /\ spec_accrued now s <= MAX_UINT256
  /\ spec_accrued now s * taxBps s <= MAX_UINT256
  /\ spec_gross now s <= MAX_UINT256.
Proof.
  intros E s. unfold StreamManager._executeWithdraw in E. fold s in E.
  assert (Ht : taxBps (if StreamManager.bonus_claimable now s
                       then set_bonusClaimed true s else s) = taxBps s)
    by (destruct (StreamManager.bonus_claimable now s); reflexivity).
  rewrite Ht in E. inv_ok.
  repeat match goal with
  | Hx : ?x = _ |- _ => is_var x; subst x
  end.
  unfold spec_gross, spec_accrued. repeat split; assumption.
Qed.

Lemma bonus_after_settlement (now t : N) (s : Stream) :
  spec_bonus t (settled now s)
  = if StreamManager.bonus_claimable now s then 0 else spec_bonus t s.
Proof.
  unfold spec_bonus, settled.
  destruct (StreamManager.bonus_claimable now s); simpl; [|reflexivity].
  now rewrite andb_false_r.
Qed.

(** X8. Right after a withdrawal nothing is left to withdraw: in the same
    block the accrued salary reads zero and a second withdrawal fails with
    [NothingToWithdraw]. *)
Theorem withdraw_settles (now streamId : N) (w w' : World) :
  StreamManager.withdraw now streamId w = Ok w' ->
  now < 2 ^ 64 ->
  StreamManager.accruedSalary now streamId w' = Ok 0
  /\ StreamManager.netWithdrawable now streamId w' = Ok 0
  /\ StreamManager.withdraw now streamId w' = Revert NothingToWithdraw.
Proof.
  unfold StreamManager.withdraw. intros E Hnow.
  pose proof (executeWithdraw_stream _ _ _ _ E) as Hs.
  pose proof (executeWithdraw_Ok _ _ _ _ E) as (Ha & Hp & _).
  set (s := stream_at w streamId) in *.
  assert (Hcp : lastCheckpoint (settled now s) = now)
    by (unfold settled; simpl; now apply uint64_small).
  assert (Hact : active (settled now s) = true)
    by (unfold settled; destruct (StreamManager.bonus_claimable now s);
        exact Ha).
  assert (Hpau : paused (settled now s) = false)
    by (unfold settled; destruct (StreamManager.bonus_claimable now s);
        exact Hp).
  assert (Hbon : StreamManager.bonus_claimable now (settled now s) = false).
  { unfold settled.
    destruct (StreamManager.bonus_claimable now s) eqn:Hc.
    - unfold StreamManager.bonus_claimable. simpl. now rewrite andb_false_r.
    - exact Hc. }
  assert (Hsub : checked_sub now now = Ok 0)
    by (rewrite checked_sub_fits by lia; now rewrite N.sub_diag).
  assert (Hmul : forall r, checked_mul r 0 = Ok 0)
    by (intros r; rewrite checked_mul_fits; rewrite N.mul_0_r;
        [reflexivity | discriminate]).
  split; [|split].
  - unfold StreamManager.accruedSalary. rewrite Hs, Hcp, Hsub. simpl.
    apply Hmul.
  - unfold StreamManager.netWithdrawable. rewrite Hs, Hcp, Hsub. simpl.
    rewrite Hmul. simpl. rewrite Hbon. reflexivity.
  - unfold StreamManager._executeWithdraw. rewrite Hs, Hact, Hpau, Hcp, Hsub.
    simpl. rewrite Hmul. simpl. rewrite Hbon. reflexivity.
Qed.

Lemma withdraw_settles_witness :
  StreamManager.accruedSalary 1100 0 ex_funded = Ok 100
  /\ StreamManager.accruedSalary 1100 0 ex_withdrawn = Ok 0
  /\ StreamManager.netWithdrawable 1100 0 ex_withdrawn = Ok 0
  /\ StreamManager.withdraw 1100 0 ex_withdrawn = Revert NothingToWithdraw.
Proof.
  split; [vm_compute; reflexivity|].
  apply (withdraw_settles 1100 0 ex_funded ex_withdrawn).
  - vm_compute. reflexivity.
  - vm_compute. reflexivity.
Defined.

(** X9. Withdrawing in two steps instead of one pays the same salary and
    the same bonus (a bonus is paid once), and never more tax: the tax of
    each withdrawal is rounded down. *)
Theorem withdraw_in_steps (t1 t2 streamId : N) (w w1 w2 : World) :
  StreamManager.withdraw t1 streamId w = Ok w1 ->
  StreamManager.withdraw t2 streamId w1 = Ok w2 ->
  t1 <= t2 -> t1 < 2 ^ 64 ->
  let s := stream_at w streamId in
  let s1 := stream_at w1 streamId in
  In (Withdrawn streamId (employee s) (spec_gross t1 s) (spec_tax t1 s)
        (spec_net t1 s)) (new_events w w1)
  /\ In (Withdrawn streamId (employee s) (spec_gross t2 s1) (spec_tax t2 s1)
           (spec_net t2 s1)) (new_events w1 w2)
  /\ spec_accrued t1 s + spec_accrued t2 s1 = spec_accrued t2 s
  /\ spec_bonus t1 s + spec_bonus t2 s1 = spec_bonus t2 s
  /\ spec_tax t1 s + spec_tax t2 s1 <= spec_tax t2 s.
Proof.
  intros E1 E2 H12 Ht1 s s1. unfold StreamManager.withdraw in E1, E2.
  pose proof (executeWithdraw_stream _ _ _ _ E1) as Hs1. fold s s1 in Hs1.
  pose proof (executeWithdraw_Ok _ _ _ _ E1)
    as (_ & _ & Hcp & _ & _ & _ & evs1 & Hev1 & _).
  pose proof (executeWithdraw_Ok _ _ _ _ E2)
    as (_ & _ & _ & _ & _ & _ & evs2 & Hev2 & _).
  fold s in Hcp, Hev1. fold s1 in Hev2.
  assert (He : employee s1 = employee s)
    by (rewrite Hs1; unfold settled;
        destruct (StreamManager.bonus_claimable t1 s); reflexivity).
  assert (Hr : ratePerSecond s1 = ratePerSecond s)
    by (rewrite Hs1; unfold settled;
        destruct (StreamManager.bonus_claimable t1 s); reflexivity).
  assert (Hx : taxBps s1 = taxBps s)
    by (rewrite Hs1; unfold settled;
        destruct (StreamManager.bonus_claimable t1 s); reflexivity).
  assert (Hc1 : lastCheckpoint s1 = t1)
    by (rewrite Hs1; unfold settled; simpl; now apply uint64_small).
  assert (Hacc : spec_accrued t1 s + spec_accrued t2 s1 = spec_accrued t2 s).
  { unfold spec_accrued. rewrite Hr, Hc1, <- N.mul_add_distr_l. f_equal. lia. }
  split; [|split; [|split; [|split]]].
  - rewrite (new_events_app _ _ _ Hev1). apply in_or_app. right. now left.
  - rewrite (new_events_app _ _ _ Hev2), He. apply in_or_app. right. now left.
  - exact Hacc.
  - rewrite Hs1, bonus_after_settlement.
    unfold spec_bonus, StreamManager.bonus_claimable.
    destruct (0 <? bonusAmount s); simpl; [|reflexivity].
    destruct (bonusClaimed s); simpl; [now rewrite !andb_false_r|].
    rewrite !andb_true_r.
    destruct (N.leb_spec (bonusReleaseTime s) t1) as [L1|L1].
    + assert ((bonusReleaseTime s <=? t2) = true) as ->
        by (apply N.leb_le; lia).
      lia.
    + reflexivity.
  - unfold spec_tax. rewrite <- Hacc, Hx, N.mul_add_distr_r.
    apply div_split. discriminate.
Qed.

Lemma withdraw_in_steps_witness :
  spec_accrued 1100 (stream_at ex_funded 0)
  + spec_accrued 1200 (stream_at ex_withdrawn 0)
  = spec_accrued 1200 (stream_at ex_funded 0)
  /\ spec_tax 1100 (stream_at ex_funded 0)
     + spec_tax 1200 (stream_at ex_withdrawn 0)
     <= spec_tax 1200 (stream_at ex_funded 0).
Proof.
  destruct (withdraw_in_steps 1100 1200 0 ex_funded ex_withdrawn
              ex_withdrawn_twice) as (_ & _ & Ha & _ & Ht).
  - vm_compute. reflexivity.
  - vm_compute. reflexivity.
  - vm_compute. discriminate.
  - vm_compute. reflexivity.
  - split; [exact Ha | exact Ht].
Defined.

(** ** The views and the withdrawal *)

Lemma tax_le_accrued (a bps : N) : bps <= 10000 -> a * bps / 10000 <= a.
Proof.
  intros Hb. apply N.Div0.div_le_upper_bound.
  rewrite N.mul_comm. apply N.mul_le_mono_r. exact Hb.
Qed.

(** X10. The views announce what a withdrawal pays: whenever a withdrawal
    succeeds on a stream whose tax rate is within 100%, [accruedSalary]
    returned the salary part of its gross amount and [netWithdrawable] the
    net amount sent to the employee. *)
Theorem views_match_withdrawal (now streamId : N) (w w' : World) :
  StreamManager.withdraw now streamId w = Ok w' ->
  taxBps (stream_at w streamId) <= 10000 ->
  let s := stream_at w streamId in
  StreamManager.accruedSalary now streamId w = Ok (spec_accrued now s)
  /\ StreamManager.netWithdrawable now streamId w = Ok (spec_net now s)
  /\ In (Withdrawn streamId (employee s) (spec_gross now s) (spec_tax now s)
           (spec_net now s)) (new_events w w').
Proof.
  intros E Hx s. unfold StreamManager.withdraw in E.
  pose proof (executeWithdraw_fits _ _ _ _ E) as (Hcp & Hac & Htx & Hgr).
  pose proof (executeWithdraw_Ok _ _ _ _ E)
    as (_ & _ & _ & _ & _ & _ & evs & Hev & _).
  fold s in Hcp, Hac, Htx, Hgr, Hev, Hx.
  pose proof (tax_le_accrued (spec_accrued now s) (taxBps s) Hx) as Hle.
  fold (spec_tax now s) in Hle.
  assert (Eacc : StreamManager.accruedSalary now streamId w
                 = Ok (spec_accrued now s)).
  { unfold StreamManager.accruedSalary. fold s.
    rewrite checked_sub_fits by assumption. simpl.
    now apply checked_mul_fits. }
  split; [exact Eacc|]. split.
  - unfold StreamManager.netWithdrawable. fold s.
    rewrite checked_sub_fits by assumption. simpl.
    fold (spec_accrued now s). rewrite checked_mul_fits by assumption. simpl.
    rewrite checked_mul_fits by assumption. simpl.
    unfold checked_div. simpl. fold (spec_tax now s).
    rewrite checked_sub_fits by exact Hle. simpl.
    unfold spec_net, spec_gross, spec_bonus in *.
    fold (StreamManager.bonus_claimable now s) in *.
    destruct (StreamManager.bonus_claimable now s);
      fold (spec_accrued now s); fold (spec_tax now s).
    + rewrite checked_add_fits by lia. f_equal. lia.
    + f_equal. lia.
  - rewrite (new_events_app _ _ _ Hev). apply in_or_app. right. now left.
Qed.

Lemma views_match_withdrawal_witness :
  StreamManager.accruedSalary 1100 0 ex_funded = Ok 100
  /\ StreamManager.netWithdrawable 1100 0 ex_funded = Ok 95
  /\ In (Withdrawn 0 ex_employee 100 5 95) (new_events ex_funded ex_withdrawn).
Proof.
  apply (views_match_withdrawal 1100 0 ex_funded ex_withdrawn).
  - vm_compute. reflexivity.
  - vm_compute. discriminate.
Defined.

(** ** Scheduling a bonus *)

(** X11. [scheduleBonus] by the owner on an active stream (paused or not),
    with a positive amount and a release time in the future (an amount and
    a time that fit their [uint256] and [uint64]), succeeds and
    replaces whatever bonus the stream had: from then on the claimable
    bonus is the new amount from the new release time on and nothing
    before, also when a bonus was claimable until then.  Nothing else of
    the stream changes, no other stream and no token. *)
Theorem scheduleBonus_replaces (sender : address)
  (now streamId amount releaseTime : N) (w : World) :
  sender = m_owner (manager w) ->
  active (stream_at w streamId) = true ->
  0 < amount -> amount <= MAX_UINT256 ->
  now < releaseTime -> releaseTime < 2 ^ 64 ->
  exists w',
    StreamManager.scheduleBonus sender now streamId amount releaseTime w
    = Ok w'
    /\ stream_at w' streamId
       = set_bonus amount releaseTime (stream_at w streamId)
    /\ (forall t, spec_bonus t (stream_at w' streamId)
                  = if releaseTime <=? t then amount else 0)
    /\ spec_bonus now (stream_at w' streamId) = 0
    /\ (forall j, j <> streamId -> stream_at w' j = stream_at w j)
    /\ hlusd w' = hlusd w /\ vault w' = vault w.
Proof.
  intros -> Hact Hamt _ Hrel _.
  unfold StreamManager.scheduleBonus. rewrite onlyOwner_owner. simpl.
  rewrite Hact. simpl.
  assert ((amount =? 0) = false) as -> by (apply N.eqb_neq; lia).
  assert ((releaseTime <=? now) = false) as -> by (apply N.leb_gt; lia).
  simpl. eexists. split; [reflexivity|].
  rewrite stream_at_emit, stream_at_set_stream_eq.
  assert (Hb : forall t,
             spec_bonus t (set_bonus amount releaseTime (stream_at w streamId))
             = if releaseTime <=? t then amount else 0).
  { intros t. unfold spec_bonus. simpl.
    assert ((0 <? amount) = true) as -> by now apply N.ltb_lt.
    simpl. now rewrite andb_true_r. }
  split; [reflexivity|]. split; [exact Hb|]. split.
  - rewrite Hb. assert ((releaseTime <=? now) = false) as ->
      by (apply N.leb_gt; lia). reflexivity.
  - split; [|split; reflexivity].
    intros j Hj. rewrite stream_at_emit, stream_at_set_stream.
    destruct (decide (streamId = j)); [congruence|reflexivity].
Qed.

Lemma scheduleBonus_replaces_witness :
  StreamManager.scheduleBonus ex_owner 1000 0 500 1050 ex_funded = Ok ex_bonus
  /\ spec_bonus 1049 (stream_at ex_bonus 0) = 0
  /\ spec_bonus 1050 (stream_at ex_bonus 0) = 500.
Proof.
  destruct (scheduleBonus_replaces ex_owner 1000 0 500 1050 ex_funded)
    as (w' & E & _ & Hb & _).
  - vm_compute. reflexivity.
  - vm_compute. reflexivity.
  - vm_compute. reflexivity.
  - vm_compute. discriminate.
  - vm_compute. reflexivity.
  - vm_compute. reflexivity.
  - assert (E' : StreamManager.scheduleBonus ex_owner 1000 0 500 1050
                   ex_funded = Ok ex_bonus) by (vm_compute; reflexivity).
    assert (w' = ex_bonus) as -> by congruence.
    split; [exact E|]. rewrite !Hb. split; reflexivity.
Defined.

(** ** Pausing, resuming and cancelling *)

(** X12. The life cycle as the owner drives it.  On a running stream
    [resumeStream] fails with [NotPaused]; pausing it and resuming it
    brings it back running with nothing changed but the checkpoint, and in
    between a second [pauseStream] fails with [AlreadyPaused].  On a
    cancelled stream all of [pauseStream], [resumeStream], [cancelStream]
    and [scheduleBonus] fail with [StreamInactive]. *)
Theorem lifecycle_of_a_stream (sender : address) (t1 t2 streamId : N)
  (w : World) :
  sender = m_owner (manager w) ->
  let s := stream_at w streamId in
  (active s = true -> paused s = false ->
   StreamManager.resumeStream sender t1 streamId w
   = Revert (NotPaused streamId)
   /\ exists w1 w2,
        StreamManager.pauseStream sender t1 streamId w = Ok w1
        /\ StreamManager.pauseStream sender t2 streamId w1
           = Revert (AlreadyPaused streamId)
        /\ StreamManager.resumeStream sender t2 streamId w1 = Ok w2
        /\ stream_at w2 streamId = set_lastCheckpoint (uint64 t2) s
        /\ hlusd w2 = hlusd w /\ vault w2 = vault w)
  /\ (active s = false ->
      forall amount releaseTime,
        StreamManager.pauseStream sender t1 streamId w
        = Revert (StreamInactive streamId)
        /\ StreamManager.resumeStream sender t1 streamId w
           = Revert (StreamInactive streamId)
        /\ StreamManager.cancelStream sender t1 streamId w
           = Revert (StreamInactive streamId)
        /\ StreamManager.scheduleBonus sender t1 streamId amount releaseTime w
           = Revert (StreamInactive streamId)).
Proof.
  intros -> s. split.
  - intros Ha Hp. split.
    + unfold StreamManager.resumeStream. rewrite onlyOwner_owner. simpl.
      fold s. now rewrite Ha, Hp.
    + set (s1 := set_paused true (set_lastCheckpoint (uint64 t1) s)).
      set (w1 := emit [StreamPaused streamId]
                   (set_manager (set_stream streamId s1 (manager w)) w)).
      assert (Hs1 : stream_at w1 streamId = s1)
        by (unfold w1; rewrite stream_at_emit;
            apply stream_at_set_stream_eq).
      exists w1. eexists.
      split; [|split; [|split]].
      * unfold StreamManager.pauseStream. rewrite onlyOwner_owner. simpl.
        fold s. now rewrite Ha, Hp.
      * unfold StreamManager.pauseStream.
        change (m_owner (manager w1)) with (m_owner (manager w)).
        rewrite onlyOwner_owner. simpl. rewrite Hs1. unfold s1. simpl.
        now rewrite Ha.
      * unfold StreamManager.resumeStream.
        change (m_owner (manager w1)) with (m_owner (manager w)).
        rewrite onlyOwner_owner. simpl. rewrite Hs1. unfold s1. simpl.
        rewrite Ha. reflexivity.
      * rewrite stream_at_emit, stream_at_set_stream_eq.
        destruct s. simpl in *. subst. repeat split; reflexivity.
  - intros Ha amount releaseTime.
    unfold StreamManager.pauseStream, StreamManager.resumeStream,
      StreamManager.cancelStream, StreamManager.scheduleBonus.
    rewrite onlyOwner_owner. simpl. fold s. rewrite Ha. simpl.
    repeat split; reflexivity.
Qed.

Lemma lifecycle_of_a_stream_witness :
  StreamManager.resumeStream ex_owner 1100 0 ex_funded = Revert (NotPaused 0)
  /\ StreamManager.pauseStream ex_owner 1200 0 ex_paused
     = Revert (AlreadyPaused 0)
  /\ StreamManager.cancelStream ex_owner 1200 0 ex_cancelled
     = Revert (StreamInactive 0).
Proof.
  destruct (lifecycle_of_a_stream ex_owner 1100 1200 0 ex_funded)
    as (Hrun & _); [vm_compute; reflexivity|].
  destruct Hrun as (Hres & w1 & w2 & Ep & Epp & _);
    [vm_compute; reflexivity | vm_compute; reflexivity|].
  destruct (lifecycle_of_a_stream ex_owner 1200 1200 0 ex_cancelled)
    as (_ & Hdead); [vm_compute; reflexivity|].
  destruct (Hdead eq_refl 1 1) as (_ & _ & Hc & _).
  assert (Ep' : StreamManager.pauseStream ex_owner 1100 0 ex_funded
                = Ok ex_paused) by (vm_compute; reflexivity).
  assert (w1 = ex_paused) as -> by congruence.
  split; [exact Hres|]. split; [exact Epp | exact Hc].
Defined.

(** ** Where the tokens of a withdrawal go *)

Lemma executeWithdraw_tokens (now streamId : N) (w w' : World) :
  StreamManager._executeWithdraw now streamId w = Ok w' ->
  let s := stream_at w streamId in
  let self := m_self (manager w) in
  exists t1 t2,
    HLUSD._transfer (v_self (vault w)) self (spec_gross now s) (hlusd w)
    = Ok t1
    /\ (if 0 <? spec_tax now s
        then HLUSD._transfer self (taxVault (manager w)) (spec_tax now s) t1
        else Ok t1) = Ok t2
    /\ HLUSD._transfer self (employee s) (spec_net now s) t2 = Ok (hlusd w')
    /\ v_self (vault w') = v_self (vault w).
Proof.
  intros E s self. unfold StreamManager._executeWithdraw in E. fold s in E.
  assert (Hb : spec_bonus now s
               = if StreamManager.bonus_claimable now s then bonusAmount s else 0)
    by reflexivity.
  assert (Ht : taxBps (if StreamManager.bonus_claimable now s
                       then set_bonusClaimed true s else s) = taxBps s)
    by (destruct (StreamManager.bonus_claimable now s); reflexivity).
  assert (He : employee (settled now s) = employee s)
    by (unfold settled; destruct (StreamManager.bonus_claimable now s);
        reflexivity).
  assert (He' : employee (if StreamManager.bonus_claimable now s
                          then set_bonusClaimed true s else s) = employee s)
    by (destruct (StreamManager.bonus_claimable now s); reflexivity).
  fold (settled now s) in E. rewrite Ht in E. inv_ok.
  subst w'. rewrite He' in *. rewrite He in *. clear He He' Ht.
  repeat match goal with
  | Hx : ?x = _ |- _ => is_var x; subst x
  end.
  fold (spec_accrued now s) in *. rewrite <- Hb in *.
  fold (spec_gross now s) in *. fold (spec_tax now s) in *.
  fold (spec_net now s) in *.
  assert (Hnet : spec_net now s + spec_tax now s = spec_gross now s)
    by (unfold spec_net; lia).
  rewrite Hnet in *.
  match goal with
  | Hv : YieldVault.withdraw _ _ _ _ _ = Ok ?w2 |- _ =>
      pose proof (vault_withdraw_Ok _ _ _ _ _ _ Hv) as (Hm2 & _);
      apply vault_withdraw_state in Hv
        as (_ & _ & _ & w1 & _ & _ & _ & _ & _ & _ & _ & Et1 & Hvs)
  end.
  simpl in *.
  match goal with
  | Hp : token_transfer _ (employee s) _ _ = Ok _ |- _ =>
      pose proof (token_transfer_Ok _ _ _ _ _ Hp) as (_ & _ & Hv3 & _);
      apply token_transfer_hlusd in Hp
  end.
  rewrite Hm2 in *. simpl in *.
  match goal with
  | Hx : (if 0 <? spec_tax now s then _ else Ok ?w2) = Ok ?w3 |- _ =>
      assert (Htax : (if 0 <? spec_tax now s
                      then HLUSD._transfer self (taxVault (manager w))
                             (spec_tax now s) (hlusd w2)
                      else Ok (hlusd w2)) = Ok (hlusd w3)
                     /\ vault w3 = vault w2);
      [|exists (hlusd w2), (hlusd w3)]
  end.
  - destruct (0 <? spec_tax now s).
    + inv_ok.
      match goal with
      | Hp : token_transfer _ _ _ _ = Ok _ |- _ =>
          pose proof (token_transfer_Ok _ _ _ _ _ Hp) as (_ & _ & Hv2 & _);
          apply token_transfer_hlusd in Hp
      end.
      subst. split; assumption.
    + inv_ok. subst. split; reflexivity.
  - destruct Htax as [Htax Hv2].
    split; [exact Et1|]. split; [exact Htax|]. split; [assumption|].
    congruence.
Qed.

Lemma cond_transfer_balances (from to : address) (amount : N)
  (t t' : HLUSD.state) :
  (if 0 <? amount then HLUSD._transfer from to amount t else Ok t) = Ok t' ->
  amount <= HLUSD.balanceOf t from
  /\ forall a,
       HLUSD.balanceOf t' a
       = if decide (a = to)
         then (if decide (a = from) then HLUSD.balanceOf t a
               else HLUSD.balanceOf t a + amount)
         else (if decide (a = from) then HLUSD.balanceOf t a - amount
               else HLUSD.balanceOf t a).
Proof.
  destruct (N.ltb_spec 0 amount) as [Hpos|Hz]; intros E.
  - apply transfer_balances in E as (_ & _ & Hle & _ & Hb). now split.
  - inv_ok. subst t'. assert (amount = 0) as -> by lia. split; [lia|].
    intros a. destruct (decide (a = to)), (decide (a = from)); lia.
Qed.

(** X13. Where the tokens of a withdrawal go.  When the vault, the
    manager, the tax collector and the employee are four different
    accounts, a withdrawal takes the gross amount out of the vault, adds
    the tax to the tax collector and the net amount to the employee, and
    leaves the manager, through which the tokens pass, and every other
    account with what they had. *)
Theorem withdraw_moves_tokens (now streamId : N) (w w' : World) :
  StreamManager.withdraw now streamId w = Ok w' ->
  let s := stream_at w streamId in
  let v := v_self (vault w) in
  let self := m_self (manager w) in
  let tv := taxVault (manager w) in
  let e := employee s in
  v <> self -> tv <> self -> e <> self -> tv <> v -> e <> v -> e <> tv ->
  bal w' v + spec_gross now s = bal w v
  /\ bal w' self = bal w self
  /\ bal w' tv = bal w tv + spec_tax now s
  /\ bal w' e = bal w e + spec_net now s
  /\ (forall a, a <> v -> a <> self -> a <> tv -> a <> e ->
        bal w' a = bal w a).
Proof.
  intros E s v self tv e H1 H2 H3 H4 H5 H6.
  unfold StreamManager.withdraw in E.
  pose proof (executeWithdraw_Ok _ _ _ _ E) as (_ & _ & _ & Hle & _).
  apply executeWithdraw_tokens in E as (t1 & t2 & E1 & E2 & E3 & _).
  fold s v self tv e in E1, E2, E3, Hle.
  apply transfer_balances in E1 as (_ & _ & L1 & _ & B1).
  apply cond_transfer_balances in E2 as (L2 & B2).
  apply transfer_balances in E3 as (_ & _ & L3 & _ & B3).
  assert (Hnet : spec_net now s + spec_tax now s = spec_gross now s)
    by (unfold spec_net; lia).
  unfold bal.
  assert (Hall : forall a,
             HLUSD.balanceOf (hlusd w') a
             = if decide (a = e) then HLUSD.balanceOf (hlusd w) a
                                      + spec_net now s
               else if decide (a = tv) then HLUSD.balanceOf (hlusd w) a
                                            + spec_tax now s
               else if decide (a = self) then HLUSD.balanceOf (hlusd w) a
               else if decide (a = v) then HLUSD.balanceOf (hlusd w) a
                                           - spec_gross now s
               else HLUSD.balanceOf (hlusd w) a).
  { intros a. rewrite B3, B2, B1.
    pose proof (B2 self) as S2. pose proof (B1 self) as S1.
    rewrite S1 in S2. rewrite S2 in L3. rewrite S1 in L2.
    repeat match goal with
    | H : context [decide (?x = ?y)] |- _ => destruct (decide (x = y))
    | |- context [decide (?x = ?y)] => destruct (decide (x = y))
    end; subst; try congruence; lia. }
  repeat split.
  - rewrite (Hall v).
    destruct (decide (v = e)), (decide (v = tv)), (decide (v = self)),
      (decide (v = v)); try congruence. lia.
  - rewrite (Hall self).
    destruct (decide (self = e)), (decide (self = tv)),
      (decide (self = self)); congruence.
  - rewrite (Hall tv).
    destruct (decide (tv = e)), (decide (tv = tv)); congruence.
  - rewrite (Hall e). destruct (decide (e = e)); congruence.
  - intros a A1 A2 A3 A4. rewrite (Hall a).
    destruct (decide (a = e)), (decide (a = tv)), (decide (a = self)),
      (decide (a = v)); congruence.
Qed.

Lemma withdraw_moves_tokens_witness :
  bal ex_withdrawn ex_vault = 999900
  /\ bal ex_withdrawn ex_manager = bal ex_funded ex_manager
  /\ bal ex_withdrawn ex_tax = 5
  /\ bal ex_withdrawn ex_employee = 95.
Proof.
  destruct (withdraw_moves_tokens 1100 0 ex_funded ex_withdrawn)
    as (Hv & Hm & Ht & He & _).
  - vm_compute. reflexivity.
  - vm_compute. discriminate.
  - vm_compute. discriminate.
  - vm_compute. discriminate.
  - vm_compute. discriminate.
  - vm_compute. discriminate.
  - vm_compute. discriminate.
  - split; [|split; [exact Hm|split; [exact Ht | exact He]]].
    change (bal ex_funded (v_self (vault ex_funded))) with 1000000 in Hv.
    change (spec_gross 1100 (stream_at ex_funded 0)) with 100 in Hv.
    change (v_self (vault ex_funded)) with ex_vault in Hv. lia.
Defined.

(** ** Funding the treasury and the sponsorship pool *)

Lemma token_approve_state (owner spender : address) (amount : N) (w : World)
  (r : bool * World) :
  token_approve owner spender amount w = Ok r ->
  HLUSD.balances (hlusd (snd r)) = HLUSD.balances (hlusd w)
  /\ events (snd r) = events w ++ [Approval owner spender amount]
  /\ HLUSD.allowance (hlusd (snd r)) owner spender = amount.
Proof.
  unfold token_approve, HLUSD._approve. intros E. inv_ok. subst. simpl.
  repeat split; try reflexivity.
  unfold HLUSD.allowance. simpl. now rewrite lookup_insert_eq.
Qed.

Lemma depositSponsorshipPool_effect (sender : address) (amount : N)
  (w w' : World) :
  StreamManager.depositSponsorshipPool sender amount w = Ok w' ->
  sender = m_owner (manager w) /\ 0 < amount
  /\ manager w'
     = set_sponsorshipPool (sponsorshipPool (manager w) + amount) (manager w)
  /\ vault w' = vault w
  /\ (exists evs, events w' = events w ++ evs
         /\ transfers_of evs = [(sender, m_self (manager w), amount)])
  /\ amount <= bal w sender
  /\ forall a,
       bal w' a
       = if decide (a = m_self (manager w))
         then (if decide (a = sender) then bal w a else bal w a + amount)
         else (if decide (a = sender) then bal w a - amount else bal w a).
Proof.
  unfold StreamManager.depositSponsorshipPool, onlyOwner. intros E. inv_ok.
  repeat match goal with
  | Hc : negb _ = false |- _ => apply negb_false_iff in Hc
  | Hc : (_ =? _) = true |- _ => apply N.eqb_eq in Hc
  | Hc : (_ =? _) = false |- _ => apply N.eqb_neq in Hc
  end.
  match goal with
  | Ht : token_transferFrom _ _ _ _ _ = Ok ?r |- _ =>
      pose proof (token_transferFrom_Ok _ _ _ _ _ _ Ht) as (Hm & Hv);
      pose proof (token_transferFrom_events _ _ _ _ _ _ Ht)
        as (_ & evs & Hev & Htr);
      pose proof (token_transferFrom_balances _ _ _ _ _ _ Ht)
        as (_ & _ & Hle & _ & Hbal)
  end.
  repeat match goal with
  | Hx : ?x = _ |- _ => is_var x; subst x
  end.
  subst w'. simpl in *. unfold bal in *. simpl in *.
  split; [reflexivity|]. split; [lia|]. split; [exact Hm|].
  split; [exact Hv|]. split; [|split; [exact Hle|exact Hbal]].
  exists (evs ++ [SponsorshipDeposited (m_owner (manager w)) amount]).
  split.
  - rewrite Hev. simpl. now rewrite <- app_assoc.
  - rewrite transfers_of_app, Htr. reflexivity.
Qed.

(** X14. [depositSponsorshipPool] raises the pool by exactly the amount
    and pulls that amount, and nothing else, from the owner into the
    manager; streams, nonces and the vault are left alone. *)
Theorem depositSponsorshipPool_adds (sender : address) (amount : N)
  (w w' : World) :
  StreamManager.depositSponsorshipPool sender amount w = Ok w' ->
  sender = m_owner (manager w) /\ 0 < amount
  /\ manager w'
     = set_sponsorshipPool (sponsorshipPool (manager w) + amount) (manager w)
  /\ vault w' = vault w
  /\ transfers_of (new_events w w') = [(sender, m_self (manager w), amount)]
  /\ amount <= bal w sender
  /\ (sender <> m_self (manager w) ->
      bal w' (m_self (manager w)) = bal w (m_self (manager w)) + amount
      /\ bal w' sender + amount = bal w sender).
Proof.
  intros E.
  apply depositSponsorshipPool_effect in E
    as (Hs & Hpos & Hm & Hv & (evs & Hev & Htr) & Hle & Hbal).
  repeat (split; [assumption|]).
  split; [now rewrite (new_events_app _ _ _ Hev)|]. split; [exact Hle|].
  intros Hne. rewrite !Hbal.
  repeat match goal with
  | |- context [decide (?x = ?y)] => destruct (decide (x = y))
  end; try congruence; split; lia.
Qed.

Lemma depositSponsorshipPool_adds_witness :
  sponsorshipPool (manager ex_sponsored) = 500
  /\ bal ex_sponsored ex_manager = 500
  /\ bal ex_sponsored ex_owner + 500 = 2000000.
Proof.
  destruct (depositSponsorshipPool_adds ex_owner 500 ex_deployed ex_sponsored)
    as (_ & _ & Hm & _ & _ & _ & Hbal).
  - vm_compute. reflexivity.
  - destruct Hbal as (Hs & Ho); [discriminate|].
    split; [rewrite Hm; reflexivity|]. split; [exact Hs | exact Ho].
Defined.

Lemma currentBalance_vault (now : N) (w1 w2 : World) :
  vault w1 = vault w2 ->
  YieldVault.currentBalance now w1 = YieldVault.currentBalance now w2.
Proof. unfold YieldVault.currentBalance. now intros ->. Qed.

Lemma depositTreasury_state (sender : address) (now amount : N)
  (w w' : World) :
  StreamManager.depositTreasury sender now amount w = Ok w' ->
  let self := m_self (manager w) in
  sender = m_owner (manager w) /\ 0 < amount
  /\ exists r r2 w3,
       token_transferFrom self sender self amount w = Ok r
       /\ token_approve self (v_self (vault w)) amount (snd r) = Ok r2
       /\ YieldVault.deposit self now amount (snd r2) = Ok w3
       /\ w' = emit [TreasuryDeposited sender amount] w3.
Proof.
  intros E self. unfold StreamManager.depositTreasury, onlyOwner in E.
  inv_ok.
  repeat match goal with
  | Hc : negb _ = false |- _ => apply negb_false_iff in Hc
  | Hc : (_ =? _) = true |- _ => apply N.eqb_eq in Hc
  | Hc : (_ =? _) = false |- _ => apply N.eqb_neq in Hc
  end.
  split; [assumption|]. split; [lia|].
  match goal with
  | Ht : token_transferFrom _ _ _ _ _ = Ok ?r,
    Ha : token_approve _ _ _ _ = Ok ?r2,
    Hd : YieldVault.deposit _ _ _ _ = Ok ?w3 |- _ =>
      exists r, r2, w3;
      pose proof (token_transferFrom_Ok _ _ _ _ _ _ Ht) as (_ & Hv);
      rewrite Hv in Ha
  end.
  repeat split; assumption.
Qed.

(** X15. [depositTreasury] passes the amount on to the vault: the owner's
    tokens go to the manager and from the manager to the vault, the
    treasury balance goes up by exactly the amount, the manager keeps no
    token of it and nothing of its own storage changes.  It goes through
    only when the manager is the owner of the vault. *)
Theorem depositTreasury_funds_vault (sender : address) (now amount : N)
  (w w' : World) (b : N) :
  StreamManager.depositTreasury sender now amount w = Ok w' ->
  StreamManager.treasuryBalance now w = Ok b ->
  b + amount <= MAX_UINT256 ->
  let self := m_self (manager w) in
  let v := v_self (vault w) in
  sender = m_owner (manager w)
  /\ v_owner (vault w) = self
  /\ StreamManager.treasuryBalance now w' = Ok (b + amount)
  /\ manager w' = manager w
  /\ transfers_of (new_events w w')
     = [(sender, self, amount); (self, v, amount)]
  /\ (sender <> self -> v <> self ->
      bal w' self = bal w self
      /\ (sender <> v ->
          bal w' sender + amount = bal w sender
          /\ bal w' v = bal w v + amount)).
Proof.
  intros E Eb Hfit self v. unfold StreamManager.treasuryBalance in *.
  apply depositTreasury_state in E
    as (Hs & _ & r & r2 & w3 & Et & Ea & Ed & ->). fold self in Et, Ea, Ed.
  pose proof (token_transferFrom_Ok _ _ _ _ _ _ Et) as (Hm1 & Hv1).
  pose proof (token_transferFrom_events _ _ _ _ _ _ Et)
    as (_ & ev1 & Hev1 & Htr1).
  pose proof (token_transferFrom_balances _ _ _ _ _ _ Et)
    as (_ & _ & Hle1 & _ & Hbal1).
  pose proof (token_approve_Ok _ _ _ _ _ Ea) as (Hm2 & Hv2).
  pose proof (token_approve_state _ _ _ _ _ Ea) as (Hb2 & Hev2 & _).
  pose proof (vault_deposit_Ok _ _ _ _ _ Ed) as Hm3.
  pose proof (vault_deposit_state _ _ _ _ _ Ed) as (Hown & _).
  assert (Hvw : vault (snd r2) = vault w) by congruence.
  rewrite (currentBalance_vault now w (snd r2)) in Eb by now symmetry.
  pose proof (vault_deposit_effect _ _ _ _ _ Ed)
    as (w1 & Es & Hv' & (ev3 & Hev3 & Htr3) & Hle3 & Hbal3).
  pose proof (simulateYield_book _ _ _ _ Es Eb)
    as (Hb1 & _ & HY & HL & HP & _ & _).
  rewrite Hvw in Hown, Htr3, Hbal3. fold v in Htr3, Hbal3.
  assert (Hbal2 : forall a, bal (snd r2) a = bal (snd r) a)
    by (intros a; unfold bal, HLUSD.balanceOf; now rewrite Hb2).
  set (w' := emit [TreasuryDeposited sender amount] w3).
  assert (Hbook : book (vault w') = b + amount)
    by (change (vault w') with (vault w3); rewrite Hv'; unfold book; simpl;
        lia).
  split; [exact Hs|]. split; [now symmetry|].
  split; [|split; [|split]].
  - rewrite <- Hbook. apply currentBalance_settled.
    + change (vault w') with (vault w3). rewrite Hv'. exact HL.
    + rewrite Hbook. exact Hfit.
  - change (manager w') with (manager w3). congruence.
  - erewrite new_events_app.
    2:{ unfold w'. simpl. rewrite Hev3, Hev2, Hev1, <- !app_assoc.
        reflexivity. }
    rewrite !transfers_of_app, Htr1, Htr3. reflexivity.
  - intros N1 N2. change (bal w' ?a) with (bal w3 a).
    rewrite !Hbal3, !Hbal2, !Hbal1.
    split; [|intros N3; split].
    all: repeat match goal with
         | |- context [decide (?x = ?y)] => destruct (decide (x = y))
         end; try congruence; try lia.
Qed.

Lemma depositTreasury_funds_vault_witness :
  StreamManager.treasuryBalance 1000 ex_treasury = Ok 1000000
  /\ transfers_of (new_events ex_deployed ex_treasury)
     = [(ex_owner, ex_manager, 1000000); (ex_manager, ex_vault, 1000000)]
  /\ bal ex_treasury ex_manager = 0
  /\ bal ex_treasury ex_vault = 1000000.
Proof.
  destruct (depositTreasury_funds_vault ex_owner 1000 1000000 ex_deployed
              ex_treasury 0) as (_ & _ & Hb & _ & Htr & Hbal).
  - vm_compute. reflexivity.
  - vm_compute. reflexivity.
  - vm_compute. discriminate.
  - destruct Hbal as (Hself & Hrest); [discriminate | discriminate|].
    destruct Hrest as (_ & Hv); [discriminate|].
    split; [exact Hb|]. split; [exact Htr|]. split; [exact Hself | exact Hv].
Defined.

(** ** Who may call what *)

Lemma onlyOwner_other (sender owner : address) :
  sender <> owner -> onlyOwner sender owner = Revert CallerIsNotTheOwner.
Proof.
  intros Hne. unfold onlyOwner. apply N.eqb_neq in Hne. now rewrite Hne.
Qed.

Section Access.
Context `{Eip712}.

(** X16. Every function of the manager but the two withdrawals is reserved
    to the owner: sent by anybody else it fails with the error of
    [onlyOwner], whatever its arguments, and the transaction leaves the
    world as it was. *)
Theorem admin_calls_owner_only (c : call) (sender : address) (now : N)
  (w : World) :
  is_admin c = true -> sender <> m_owner (manager w) ->
  exec c sender now w = Revert CallerIsNotTheOwner
  /\ transact c sender now w = w.
Proof.
  intros Hc Hne.
  assert (E : exec c sender now w = Revert CallerIsNotTheOwner).
  { destruct c; try discriminate Hc; simpl;
      unfold StreamManager.depositTreasury,
        StreamManager.depositSponsorshipPool, StreamManager.createStream,
        StreamManager.batchCreateStreams, StreamManager.scheduleBonus,
        StreamManager.pauseStream, StreamManager.resumeStream,
        StreamManager.cancelStream, Ownable.transferOwnership,
        Ownable.renounceOwnership;
      now rewrite (onlyOwner_other _ _ Hne). }
  split; [exact E|]. unfold transact. now rewrite E.
Qed.

End Access.

Lemma admin_calls_owner_only_witness :
  StreamManager.cancelStream ex_employee 1100 0 ex_funded
  = Revert CallerIsNotTheOwner
  /\ StreamManager.depositTreasury ex_relayer 1100 5 ex_funded
     = Revert CallerIsNotTheOwner.
Proof.
  destruct (admin_calls_owner_only (H := example_scheme) (CancelStream 0)
              ex_employee 1100 ex_funded) as (E1 & _);
    [reflexivity | vm_compute; discriminate|].
  destruct (admin_calls_owner_only (H := example_scheme) (DepositTreasury 5)
              ex_relayer 1100 ex_funded) as (E2 & _);
    [reflexivity | vm_compute; discriminate|].
  split; [exact E1 | exact E2].
Defined.

(** ** The vault behind the manager *)

Lemma vault_withdraw_owner (sender : address) (now amount : N) (to : address)
  (w w' : World) :
  YieldVault.withdraw sender now amount to w = Ok w' ->
  v_owner (vault w') = v_owner (vault w).
Proof.
  unfold YieldVault.withdraw. intros E. inv_ok.
  match goal with
  | Hy : YieldVault._simulateYield _ _ = Ok ?w1 |- _ =>
      pose proof (simulateYield_Ok _ _ _ Hy) as (_ & _ & _ & Ho & _)
  end.
  match goal with
  | Ht : token_transfer _ _ _ _ = Ok _ |- _ =>
      pose proof (token_transfer_Ok _ _ _ _ _ Ht) as (_ & _ & Hv & _)
  end.
  subst w'. simpl in *. rewrite Hv, <- Ho.
  match goal with
  | Hb : (if amount <=? ?y then _ else _) = Ok ?v2 |- _ =>
      destruct (amount <=? y); inv_ok; subst; reflexivity
  end.
Qed.

Lemma executeWithdraw_vault (now streamId : N) (w w' : World) :
  StreamManager._executeWithdraw now streamId w = Ok w' ->
  let s := stream_at w streamId in
  let self := m_self (manager w) in
  exists w2,
    YieldVault.withdraw self now (spec_gross now s) self
      (set_manager (set_stream streamId (settled now s) (manager w)) w)
    = Ok w2
    /\ vault w' = vault w2.
Proof.
  intros E s self. unfold StreamManager._executeWithdraw in E. fold s in E.
  assert (Hb : spec_bonus now s
               = if StreamManager.bonus_claimable now s then bonusAmount s else 0)
    by reflexivity.
  assert (Ht : taxBps (if StreamManager.bonus_claimable now s
                       then set_bonusClaimed true s else s) = taxBps s)
    by (destruct (StreamManager.bonus_claimable now s); reflexivity).
  fold (settled now s) in E. rewrite Ht in E. inv_ok.
  subst w'.
  repeat match goal with
  | Hx : ?x = _ |- _ => is_var x; subst x
  end.
  fold (spec_accrued now s) in *. rewrite <- Hb in *.
  fold (spec_gross now s) in *. fold (spec_tax now s) in *.
  fold (spec_net now s) in *.
  assert (Hnet : spec_net now s + spec_tax now s = spec_gross now s)
    by (unfold spec_net; lia).
  rewrite Hnet in *.
  match goal with
  | Hv : YieldVault.withdraw _ _ _ _ _ = Ok ?w2 |- _ =>
      exists w2; split; [exact Hv|]
  end.
  match goal with
  | Hp : token_transfer _ (employee _) _ _ = Ok _ |- _ =>
      pose proof (token_transfer_Ok _ _ _ _ _ Hp) as (_ & _ & Hv3 & _)
  end.
  simpl. rewrite Hv3.
  match goal with
  | Hx : (if 0 <? spec_tax now s then _ else Ok ?w2) = Ok ?w3 |- _ =>
      destruct (0 <? spec_tax now s); inv_ok; [|now subst]
  end.
  match goal with
  | Hp : token_transfer _ (taxVault _) _ _ = Ok _ |- _ =>
      pose proof (token_transfer_Ok _ _ _ _ _ Hp) as (_ & _ & Hv2 & _)
  end.
  now subst.
Qed.

Lemma executeWithdraw_owner (now streamId : N) (w w' : World) :
  StreamManager._executeWithdraw now streamId w = Ok w' ->
  v_owner (vault w) = m_self (manager w).
Proof.
  intros E. apply executeWithdraw_vault in E as (w2 & Ew & _).
  apply vault_withdraw_state in Ew as (Hs & _). simpl in Hs. now symmetry.
Qed.

Section VaultOwner.
Context `{Eip712}.

(** X17. The manager pays out of the vault and deposits into it as the
    owner of the vault.  As long as the ownership of the vault has not
    been handed to the manager, every deposit into the treasury and every
    withdrawal from a stream, direct or signed, fails, and the transaction
    leaves the world as it was. *)
Theorem vault_not_owned_blocks (c : call) (sender : address) (now : N)
  (w : World) :
  v_owner (vault w) <> m_self (manager w) ->
  match c with
  | DepositTreasury _ | WithdrawCall _ | WithdrawSigned _ _ _ _ _ => True
  | _ => False
  end ->
  is_revert (exec c sender now w) /\ transact c sender now w = w.
Proof.
  intros Hne Hc.
  assert (R : is_revert (exec c sender now w)).
  { apply is_revert_not_Ok. intros w' E. apply Hne.
    destruct c; try contradiction; simpl in E.
    - apply depositTreasury_state in E
        as (_ & _ & r & r2 & w3 & Et & Ea & Ed & _).
      apply vault_deposit_state in Ed as (Hs & _).
      apply token_transferFrom_Ok in Et as (_ & Hv1).
      apply token_approve_Ok in Ea as (_ & Hv2).
      rewrite Hs. congruence.
    - now apply executeWithdraw_owner in E.
    - apply withdrawSigned_Ok in E as (_ & _ & _ & w2 & E2 & _).
      now apply executeWithdraw_owner in E2. }
  split; [exact R|]. unfold transact.
  destruct (exec c sender now w); [contradiction|reflexivity].
Qed.

End VaultOwner.

Lemma vault_not_owned_blocks_witness :
  StreamManager.withdraw 1100 0 ex_funded = Ok ex_withdrawn
  /\ is_revert (StreamManager.withdraw 1100 0 ex_unowned)
  /\ is_revert (StreamManager.depositTreasury ex_owner 1100 5 ex_unowned).
Proof.
  destruct (vault_not_owned_blocks (H := example_scheme) (WithdrawCall 0)
              ex_employee 1100 ex_unowned) as (R1 & _);
    [vm_compute; discriminate | exact I|].
  destruct (vault_not_owned_blocks (H := example_scheme) (DepositTreasury 5)
              ex_owner 1100 ex_unowned) as (R2 & _);
    [vm_compute; discriminate | exact I|].
  split; [vm_compute; reflexivity|]. split; [exact R1 | exact R2].
Defined.

(** X18. A withdrawal from a stream debits the treasury by the gross
    amount: the treasury balance covered the gross amount and is lower by
    exactly that much afterwards. *)
Theorem withdraw_debits_treasury (now streamId : N) (w w' : World) (b : N) :
  StreamManager.withdraw now streamId w = Ok w' ->
  StreamManager.treasuryBalance now w = Ok b ->
  let s := stream_at w streamId in
  spec_gross now s <= b
  /\ StreamManager.treasuryBalance now w' = Ok (b - spec_gross now s)
  /\ v_owner (vault w) = m_self (manager w).
Proof.
  intros E Eb s. unfold StreamManager.withdraw, StreamManager.treasuryBalance
    in *.
  pose proof (executeWithdraw_owner _ _ _ _ E) as Ho.
  apply executeWithdraw_vault in E as (w2 & Ew & Hv). fold s in Ew.
  rewrite (currentBalance_vault now w
             (set_manager (set_stream streamId (settled now s) (manager w)) w))
    in Eb by reflexivity.
  pose proof (vault_withdraw_book _ _ _ _ _ _ _ Ew Eb)
    as (Hle & Hfit & Hbook & HL & _).
  split; [exact Hle|]. split; [|exact Ho].
  rewrite (currentBalance_vault now w' w2 Hv), <- Hbook.
  apply (currentBalance_settled now w2 HL). rewrite Hbook. lia.
Qed.

Lemma withdraw_debits_treasury_witness :
  StreamManager.treasuryBalance 1100 ex_funded = Ok 1000000
  /\ StreamManager.treasuryBalance 1100 ex_withdrawn = Ok 999900.
Proof.
  split; [vm_compute; reflexivity|].
  apply (withdraw_debits_treasury 1100 0 ex_funded ex_withdrawn 1000000).
  - vm_compute. reflexivity.
  - vm_compute. reflexivity.
Defined.

(** ** What no call on the manager writes *)

Lemma vault_withdraw_config (sender : address) (now amount : N) (to : address)
  (w w' : World) :
  YieldVault.withdraw sender now amount to w = Ok w' ->
  v_self (vault w') = v_self (vault w)
  /\ v_owner (vault w') = v_owner (vault w)
  /\ yieldRateBps (vault w') = yieldRateBps (vault w).
Proof.
  intros E. pose proof (vault_withdraw_owner _ _ _ _ _ _ E) as Ho.
  apply vault_withdraw_state in E
    as (_ & _ & _ & w1 & Es & _ & _ & _ & _ & _ & Hr & _ & Hs).
  apply simulateYield_state in Es. rewrite Es in Hr.
  repeat split; assumption.
Qed.

Lemma batch_loop_frame (checkpoint : N) (inputs : list StreamInput) :
  forall w w',
    StreamManager.batch_loop checkpoint inputs w = Ok w' ->
    hlusd w' = hlusd w /\ vault w' = vault w
    /\ sponsorshipPool (manager w') = sponsorshipPool (manager w)
    /\ m_self (manager w') = m_self (manager w)
    /\ m_owner (manager w') = m_owner (manager w)
    /\ taxVault (manager w') = taxVault (manager w)
    /\ DOMAIN_SEPARATOR (manager w') = DOMAIN_SEPARATOR (manager w).
Proof.
  induction inputs as [|inp rest IH]; simpl; intros w w' E.
  - inv_ok. subst. repeat split; reflexivity.
  - inv_ok. apply IH in E as (-> & -> & -> & -> & -> & -> & ->).
    match goal with
    | Hs : StreamManager.store_new_stream _ _ _ _ _ = Ok _ |- _ =>
        unfold StreamManager.store_new_stream in Hs; inv_ok
    end.
    subst. repeat split; reflexivity.
Qed.

Section Frame.
Context `{Eip712}.

(** Creating, pausing, resuming and cancelling a stream and scheduling a
    bonus are book-keeping of the manager: no token moves, and the vault
    and the sponsorship pool are left alone. *)
Lemma stream_admin_frame (c : call) (sender : address) (now : N)
  (w w' : World) :
  exec c sender now w = Ok w' ->
  match c with
  | DepositTreasury _ | DepositSponsorshipPool _ | WithdrawCall _
  | WithdrawSigned _ _ _ _ _ | TransferOwnership _ | RenounceOwnership =>
      False
  | _ => True
  end ->
  hlusd w' = hlusd w /\ vault w' = vault w
  /\ sponsorshipPool (manager w') = sponsorshipPool (manager w)
  /\ m_self (manager w') = m_self (manager w)
  /\ m_owner (manager w') = m_owner (manager w)
  /\ taxVault (manager w') = taxVault (manager w)
  /\ DOMAIN_SEPARATOR (manager w') = DOMAIN_SEPARATOR (manager w).
Proof.
  destruct c; simpl; intros E Hc; try contradiction.
  - unfold StreamManager.createStream, StreamManager.store_new_stream in E.
    inv_ok. subst. repeat split; reflexivity.
  - unfold StreamManager.batchCreateStreams in E. inv_ok.
    now apply batch_loop_frame in E.
  - unfold StreamManager.scheduleBonus in E. inv_ok. subst.
    repeat split; reflexivity.
  - apply pauseStream_Ok in E as (_ & _ & ->). repeat split; reflexivity.
  - apply resumeStream_Ok in E as (_ & _ & ->). repeat split; reflexivity.
  - apply cancelStream_Ok in E as (_ & ->). repeat split; reflexivity.
Qed.

Lemma withdrawSigned_rest (relayer : address)
  (now streamId nonce deadline relayerFee : N) (signature : list N)
  (w w' : World) :
  StreamManager.withdrawSigned relayer now streamId nonce deadline
    relayerFee signature w = Ok w' ->
  exists w2,
    StreamManager._executeWithdraw now streamId (nonce_spent streamId nonce w)
    = Ok w2
    /\ vault w' = vault w2
    /\ (if 0 <? relayerFee
        then HLUSD._transfer (m_self (manager w2)) relayer relayerFee
               (hlusd w2)
        else Ok (hlusd w2)) = Ok (hlusd w').
Proof.
  unfold StreamManager.withdrawSigned. intros E. inv_ok.
  repeat match goal with
  | Hx : ?x = _ |- _ => is_var x; subst x
  end.
  match goal with
  | He : StreamManager._executeWithdraw _ _ _ = Ok ?w2 |- _ =>
      exists w2; split; [exact He|]
  end.
  simpl.
  match goal with
  | Hx : (if 0 <? relayerFee then _ else _) = Ok _ |- _ =>
      destruct (0 <? relayerFee); inv_ok; [|subst; split; reflexivity]
  end.
  match goal with
  | Hp : token_transfer _ _ _ _ = Ok _ |- _ =>
      pose proof (token_transfer_Ok _ _ _ _ _ Hp) as (_ & _ & Hv & _);
      apply token_transfer_hlusd in Hp
  end.
  subst. split; assumption.
Qed.

(** An ownership call that goes through was sent by the owner and writes
    the owner, and nothing else but the log. *)
Lemma ownership_Ok (c : call) (sender : address) (now : N) (w w' : World) :
  exec c sender now w = Ok w' -> is_ownership c = true ->
  sender = m_owner (manager w)
  /\ (c = RenounceOwnership \/ exists o, c = TransferOwnership o /\ o <> 0)
  /\ exists o,
       w' = Ownable._transferOwnership o w
       /\ (c = RenounceOwnership -> o = 0)
       /\ (forall o', c = TransferOwnership o' -> o = o').
Proof.
  destruct c; simpl; intros E Hc; try discriminate Hc.
  - unfold Ownable.transferOwnership, onlyOwner in E. inv_ok.
    repeat match goal with
    | Hx : negb _ = false |- _ => apply negb_false_iff in Hx
    | Hx : (_ =? _) = true |- _ => apply N.eqb_eq in Hx
    | Hx : (_ =? _) = false |- _ => apply N.eqb_neq in Hx
    end.
    split; [assumption|]. split; [right; exists newOwner; now split|].
    exists newOwner. subst w'. split; [reflexivity|].
    split; [discriminate|]. intros o' Ho. now inversion Ho.
  - unfold Ownable.renounceOwnership, onlyOwner in E. inv_ok.
    repeat match goal with
    | Hx : negb _ = false |- _ => apply negb_false_iff in Hx
    | Hx : (_ =? _) = true |- _ => apply N.eqb_eq in Hx
    end.
    split; [assumption|]. split; [now left|].
    exists 0. subst w'. split; [reflexivity|].
    split; [reflexivity | discriminate].
Qed.

(** The functions StreamManager defines write neither the configuration
    nor the owner. *)
Lemma exec_config_own (c : call) (sender : address) (now : N)
  (w w' : World) :
  exec c sender now w = Ok w' -> is_ownership c = false ->
  same_config w w' /\ m_owner (manager w') = m_owner (manager w).
Proof.
  intros E Hc. unfold same_config.
  destruct c; try discriminate Hc;
    try (apply stream_admin_frame in E as (_ & -> & _ & -> & -> & -> & ->);
         [repeat split; reflexivity | exact I]);
    simpl in E.
  - apply depositTreasury_state in E
      as (_ & _ & r & r2 & w3 & Et & Ea & Ed & ->).
    apply token_transferFrom_Ok in Et as (Hm1 & Hv1).
    apply token_approve_Ok in Ea as (Hm2 & Hv2).
    pose proof (vault_deposit_Ok _ _ _ _ _ Ed) as Hm3.
    apply vault_deposit_effect in Ed as (w1 & Es & Hv' & _).
    apply simulateYield_state in Es.
    change (manager (emit [TreasuryDeposited sender amount] w3))
      with (manager w3).
    change (vault (emit [TreasuryDeposited sender amount] w3))
      with (vault w3).
    rewrite Hm3, Hm2, Hm1, Hv', Es, Hv2, Hv1.
    repeat split; reflexivity.
  - apply depositSponsorshipPool_effect in E as (_ & _ & -> & -> & _).
    repeat split; reflexivity.
  - unfold StreamManager.withdraw in E.
    pose proof (executeWithdraw_Ok _ _ _ _ E) as (_ & _ & _ & _ & _ & -> & _).
    apply executeWithdraw_vault in E as (w2 & Ew & ->).
    apply vault_withdraw_config in Ew as (-> & -> & ->).
    repeat split; reflexivity.
  - pose proof (withdrawSigned_Ok _ _ _ _ _ _ _ _ _ E)
      as (_ & _ & _ & w2 & E2 & _ & -> & _).
    apply withdrawSigned_rest in E as (w2' & E2' & -> & _).
    unfold nonce_spent in E2'. simpl in E2.
    assert (w2' = w2) as -> by congruence.
    pose proof (executeWithdraw_Ok _ _ _ _ E2) as (_ & _ & _ & _ & _ & Hm & _).
    apply executeWithdraw_vault in E2 as (w3 & Ew & ->).
    apply vault_withdraw_config in Ew as (-> & -> & ->).
    destruct (0 <? relayerFee); rewrite Hm; repeat split; reflexivity.
Qed.

Lemma exec_config (c : call) (sender : address) (now : N) (w w' : World) :
  exec c sender now w = Ok w' -> same_config w w'.
Proof.
  intros E. destruct (is_ownership c) eqn:Hc.
  - apply ownership_Ok in E as (_ & _ & o & -> & _); [|exact Hc].
    unfold same_config. repeat split; reflexivity.
  - now apply exec_config_own in E.
Qed.

(** X19. No transaction on the manager writes the configuration: after
    any call, by anybody, the addresses of the manager and of the vault,
    the tax collector, the domain separator and the owner and the yield
    rate of the vault are what they were.  The owner of the manager moves
    only through the two functions inherited from Ownable, sent by the
    owner: [transferOwnership] hands the ownership to the non-zero account
    it names, [renounceOwnership] leaves the manager without an owner; the
    ten functions StreamManager defines leave the owner alone. *)
Theorem configuration_fixed (c : call) (sender : address) (now : N)
  (w : World) :
  same_config w (transact c sender now w)
  /\ (m_owner (manager (transact c sender now w)) <> m_owner (manager w) ->
      sender = m_owner (manager w)
      /\ (c = RenounceOwnership \/ exists o, c = TransferOwnership o /\ o <> 0))
  /\ (forall o, o <> 0 ->
        m_owner (manager (transact (TransferOwnership o) (m_owner (manager w))
                            now w)) = o)
  /\ m_owner (manager (transact RenounceOwnership (m_owner (manager w)) now
                         w)) = 0
  /\ transact (TransferOwnership 0) sender now w = w.
Proof.
  split; [|split; [|split; [|split]]].
  - unfold transact, commit.
    destruct (exec c sender now w) as [w'|e] eqn:E.
    + now apply exec_config in E.
    + unfold same_config. repeat split; reflexivity.
  - unfold transact, commit.
    destruct (exec c sender now w) as [w'|e] eqn:E; [|congruence].
    intros Hne. destruct (is_ownership c) eqn:Hc.
    + apply ownership_Ok in E as (Hs & Hwhich & _); [|exact Hc].
      split; assumption.
    + apply exec_config_own in E as (_ & Ho); [|exact Hc]. congruence.
  - intros o Ho. unfold transact, commit. simpl.
    unfold Ownable.transferOwnership. rewrite onlyOwner_owner. simpl.
    apply N.eqb_neq in Ho. rewrite Ho. reflexivity.
  - unfold transact, commit. simpl.
    unfold Ownable.renounceOwnership. rewrite onlyOwner_owner. reflexivity.
  - unfold transact, commit. simpl. unfold Ownable.transferOwnership.
    destruct (onlyOwner sender (m_owner (manager w))); reflexivity.
Qed.

End Frame.

Lemma configuration_fixed_witness :
  m_owner (manager (transact (H := example_scheme)
                      (TransferOwnership ex_relayer) ex_owner 1100 ex_funded))
  = ex_relayer
  /\ taxVault (manager (transact (H := example_scheme)
                          (TransferOwnership ex_relayer) ex_owner 1100
                          ex_funded)) = ex_tax
  /\ m_owner (manager (transact (H := example_scheme)
                          (TransferOwnership ex_relayer) ex_employee 1100
                          ex_funded)) = ex_owner
  /\ m_owner (manager (transact (H := example_scheme) RenounceOwnership
                          ex_owner 1100 ex_funded)) = 0.
Proof.
  destruct (configuration_fixed (H := example_scheme)
              (TransferOwnership ex_relayer) ex_owner 1100 ex_funded)
    as ((_ & Htax & _) & _ & Hto & Hre & _).
  destruct (configuration_fixed (H := example_scheme)
              (TransferOwnership ex_relayer) ex_employee 1100 ex_funded)
    as (_ & Hmoved & _).
  assert (Ho : m_owner (manager ex_funded) = ex_owner)
    by (vm_compute; reflexivity).
  rewrite Ho in Hto, Hre.
  split; [apply Hto; discriminate|]. split; [rewrite Htax; exact eq_refl|].
  split; [|exact Hre].
  destruct (N.eq_dec
              (m_owner (manager (transact (H := example_scheme)
                                   (TransferOwnership ex_relayer) ex_employee
                                   1100 ex_funded)))
              (m_owner (manager ex_funded))) as [Hsame|Hdiff].
  - now rewrite Hsame.
  - destruct (Hmoved Hdiff) as (Hs & _). rewrite Ho in Hs. discriminate Hs.
Defined.

(** ** Tokens behind the sponsorship pool *)

Lemma executeWithdraw_self_balance (now streamId : N) (w w' : World) :
  StreamManager._executeWithdraw now streamId w = Ok w' ->
  v_self (vault w) <> m_self (manager w) ->
  bal w (m_self (manager w)) <= bal w' (m_self (manager w)).
Proof.
  intros E Hne.
  pose proof (executeWithdraw_Ok _ _ _ _ E) as (_ & _ & _ & Hle & _).
  apply executeWithdraw_tokens in E as (t1 & t2 & E1 & E2 & E3 & _).
  set (s := stream_at w streamId) in *.
  set (self := m_self (manager w)) in *.
  apply transfer_balances in E1 as (_ & _ & _ & _ & B1).
  apply cond_transfer_balances in E2 as (L2 & B2).
  apply transfer_balances in E3 as (_ & _ & L3 & _ & B3).
  assert (Hnet : spec_net now s + spec_tax now s = spec_gross now s)
    by (unfold spec_net; lia).
  unfold bal. rewrite B3, B2, B1.
  pose proof (B2 self) as S2. pose proof (B1 self) as S1.
  rewrite S1 in S2. rewrite S2 in L3. rewrite S1 in L2.
  repeat match goal with
  | H : context [decide (?x = ?y)] |- _ => destruct (decide (x = y))
  | |- context [decide (?x = ?y)] => destruct (decide (x = y))
  end; try congruence; lia.
Qed.

Section Pool.
Context `{Eip712}.

Lemma exec_pool_backed (c : call) (sender : address) (now : N)
  (w w' : World) :
  exec c sender now w = Ok w' ->
  sender <> m_self (manager w) ->
  v_self (vault w) <> m_self (manager w) ->
  pool_backed w -> pool_backed w'.
Proof.
  intros E Hs Hv Hp. unfold pool_backed in *.
  pose proof (exec_config _ _ _ _ _ E) as (Hself & _).
  rewrite Hself.
  destruct (is_ownership c) eqn:Hc;
    [apply ownership_Ok in E as (_ & _ & o & -> & _);
       [exact Hp | exact Hc]|].
  destruct c; try discriminate Hc;
    try (apply stream_admin_frame in E as (Hh & _ & -> & _);
         [unfold bal in *; now rewrite Hh | exact I]);
    simpl in E.
  - apply depositTreasury_state in E
      as (_ & _ & r & r2 & w3 & Et & Ea & Ed & ->).
    pose proof (token_transferFrom_Ok _ _ _ _ _ _ Et) as (Hm1 & Hv1).
    pose proof (token_transferFrom_balances _ _ _ _ _ _ Et)
      as (_ & _ & _ & _ & Hbal1).
    pose proof (token_approve_Ok _ _ _ _ _ Ea) as (Hm2 & Hv2).
    pose proof (token_approve_state _ _ _ _ _ Ea) as (Hb2 & _).
    pose proof (vault_deposit_Ok _ _ _ _ _ Ed) as Hm3.
    pose proof (vault_deposit_effect _ _ _ _ _ Ed)
      as (w1 & _ & _ & _ & Hle3 & Hbal3).
    assert (Hbal2 : forall a, bal (snd r2) a = bal (snd r) a)
      by (intros a; unfold bal, HLUSD.balanceOf; now rewrite Hb2).
    change (manager (emit [TreasuryDeposited sender amount] w3))
      with (manager w3).
    change (bal (emit [TreasuryDeposited sender amount] w3) ?a)
      with (bal w3 a).
    rewrite Hm3, Hm2, Hm1, Hbal3, Hbal2, Hbal1.
    rewrite Hbal2, Hbal1 in Hle3. rewrite Hv2, Hv1.
    repeat match goal with
    | H : context [decide (?x = ?y)] |- _ => destruct (decide (x = y))
    | |- context [decide (?x = ?y)] => destruct (decide (x = y))
    end; try congruence; lia.
  - apply depositSponsorshipPool_effect in E
      as (_ & _ & -> & _ & _ & Hle & Hbal).
    rewrite Hbal. simpl.
    repeat match goal with
    | |- context [decide (?x = ?y)] => destruct (decide (x = y))
    end; try congruence; lia.
  - unfold StreamManager.withdraw in E.
    pose proof (executeWithdraw_Ok _ _ _ _ E) as (_ & _ & _ & _ & _ & -> & _).
    apply executeWithdraw_self_balance in E; [|exact Hv]. simpl. lia.
  - pose proof (withdrawSigned_Ok _ _ _ _ _ _ _ _ _ E)
      as (_ & _ & _ & w2 & E2 & Hfee & Hm & _).
    apply withdrawSigned_rest in E as (w2' & E2' & _ & Et).
    unfold nonce_spent in E2'. simpl in E2.
    assert (w2' = w2) as -> by congruence. clear E2'.
    pose proof (executeWithdraw_Ok _ _ _ _ E2)
      as (_ & _ & _ & _ & _ & Hm2 & _).
    apply executeWithdraw_self_balance in E2; [|exact Hv].
    simpl in E2, Hm2.
    change (bal (set_manager ?m w) ?a) with (bal w a) in E2.
    assert (Hp2 : sponsorshipPool (manager w2) = sponsorshipPool (manager w))
      by now rewrite Hm2.
    assert (Hs2 : m_self (manager w2) = m_self (manager w))
      by now rewrite Hm2.
    rewrite Hm. rewrite Hs2 in Et.
    destruct (N.ltb_spec 0 relayerFee) as [Hpos|Hz].
    + specialize (Hfee Hpos).
      apply transfer_balances in Et as (_ & _ & _ & _ & B).
      unfold bal in *. rewrite B. simpl.
      repeat match goal with
      | |- context [decide (?x = ?y)] => destruct (decide (x = y))
      end; try congruence; lia.
    + inversion Et as [Hh]. unfold bal in *. rewrite <- Hh, Hp2. lia.
Qed.

(** X20. The sponsorship pool is covered.  When the pool does not exceed
    the tokens the manager holds, it does not after any sequence of
    transactions on the manager either, sent by anybody but the manager
    itself: relayer fees are the only tokens booked against the pool, and
    every withdrawal passes on exactly what it took out of the vault. *)
Theorem sponsorship_pool_backed (w w' : World) :
  v_self (vault w) <> m_self (manager w) ->
  pool_backed w ->
  rtc outside_call w w' ->
  pool_backed w'.
Proof.
  intros Hv Hp Hsteps. revert Hv Hp.
  induction Hsteps as [w|w1 w2 w3 (c & sender & now & Hs & ->) _ IH];
    intros Hv Hp; [exact Hp|].
  unfold transact, commit in *.
  destruct (exec c sender now w1) as [w'|e] eqn:E; [|now apply IH].
  apply IH.
  - apply exec_config in E as (-> & _ & _ & -> & _). exact Hv.
  - now apply (exec_pool_backed c sender now w1).
Qed.

End Pool.

Lemma sponsorship_pool_backed_witness :
  sponsorshipPool (manager ex_signed) = 495 /\ pool_backed ex_signed.
Proof.
  split; [vm_compute; reflexivity|].
  apply (sponsorship_pool_backed (H := example_scheme) ex_funded ex_signed).
  - vm_compute. discriminate.
  - vm_compute. discriminate.
  - apply rtc_once.
    exists (WithdrawSigned 0 0 2000 5 (ex_signature 0)), ex_relayer, 1100.
    split; [vm_compute; discriminate | vm_compute; reflexivity].
Defined.

(** ** A batch and its entries one by one *)

Lemma create_all_Revert (sender : address) (now : N)
  (inputs : list StreamInput) (e : error) :
  fold_left
    (fun r inp =>
       let* w1 := r in
       StreamManager.createStream sender now (in_employee inp)
         (in_ratePerSecond inp) (in_taxBps inp) w1)
    inputs (Revert e) = Revert e.
Proof. induction inputs as [|inp rest IH]; simpl; [reflexivity | exact IH]. Qed.

Lemma store_new_stream_owner (checkpoint : N) (e : address) (r t : N)
  (w w' : World) :
  StreamManager.store_new_stream checkpoint e r t w = Ok w' ->
  m_owner (manager w') = m_owner (manager w).
Proof.
  unfold StreamManager.store_new_stream. intros E. inv_ok. now subst.
Qed.

Lemma batch_loop_create_all (sender : address) (now : N)
  (inputs : list StreamInput) :
  forall w,
    sender = m_owner (manager w) ->
    StreamManager.batch_loop (uint64 now) inputs w
    = create_all sender now inputs w.
Proof.
  unfold create_all.
  induction inputs as [|inp rest IH]; intros w Hs; simpl; [reflexivity|].
  unfold StreamManager.createStream at 2. rewrite Hs, onlyOwner_owner. simpl.
  destruct (StreamManager._validateStreamParams (in_employee inp)
              (in_ratePerSecond inp) (in_taxBps inp)) as [[]|e]; simpl.
  - destruct (StreamManager.store_new_stream (uint64 now) (in_employee inp)
                (in_ratePerSecond inp) (in_taxBps inp) w) as [w1|e] eqn:E;
      simpl.
    + rewrite <- Hs. apply IH.
      apply store_new_stream_owner in E. congruence.
    + now rewrite create_all_Revert.
  - now rewrite create_all_Revert.
Qed.

(** X21. A batch of 1 to 200 entries sent by the owner is the same as
    [createStream] called for each entry in turn in the same block: the
    same world when all go through, the same error when one does not.  The
    empty batch is the one difference: it is refused. *)
Theorem batchCreateStreams_as_createStream (sender : address) (now : N)
  (inputs : list StreamInput) (w : World) :
  sender = m_owner (manager w) ->
  (length inputs <= 200)%nat ->
  (inputs <> [] ->
   StreamManager.batchCreateStreams sender now inputs w
   = create_all sender now inputs w)
  /\ StreamManager.batchCreateStreams sender now [] w
     = Revert InvalidBatchSize
  /\ create_all sender now [] w = Ok w.
Proof.
  intros Hs Hlen. split; [|split; [|reflexivity]].
  - intros Hne. unfold StreamManager.batchCreateStreams.
    rewrite Hs at 1. rewrite onlyOwner_owner. simpl.
    assert ((N.of_nat (length inputs) =? 0) = false) as ->.
    { apply N.eqb_neq. destruct inputs; [congruence|]. simpl. lia. }
    assert ((StreamManager.MAX_BATCH <? N.of_nat (length inputs)) = false)
      as ->.
    { apply N.ltb_ge. unfold StreamManager.MAX_BATCH. lia. }
    simpl. now apply batch_loop_create_all.
  - unfold StreamManager.batchCreateStreams. rewrite Hs, onlyOwner_owner.
    reflexivity.
Qed.

Lemma batchCreateStreams_as_createStream_witness :
  StreamManager.batchCreateStreams ex_owner 1000 [ex_input 0; ex_input 1]
    ex_funded
  = create_all ex_owner 1000 [ex_input 0; ex_input 1] ex_funded
  /\ StreamManager.batchCreateStreams ex_owner 1000
       [ex_input 0; mkStreamInput 0 3 250] ex_funded
     = create_all ex_owner 1000 [ex_input 0; mkStreamInput 0 3 250] ex_funded.
Proof.
  split.
  - apply (batchCreateStreams_as_createStream ex_owner 1000
             [ex_input 0; ex_input 1] ex_funded);
      [vm_compute; reflexivity | simpl; lia | discriminate].
  - apply (batchCreateStreams_as_createStream ex_owner 1000
             [ex_input 0; mkStreamInput 0 3 250] ex_funded);
      [vm_compute; reflexivity | simpl; lia | discriminate].
Defined.

(** ** Streams from their creation on *)

Lemma uint64_lt (x : N) : uint64 x < 2 ^ 64.
Proof. unfold uint64. now apply N.mod_lt. Qed.

Lemma validate_Ok (e : address) (r t : N) (u : unit) :
  StreamManager._validateStreamParams e r t = Ok u ->
  e <> 0 /\ 0 < r /\ r <= StreamManager.MAX_RATE /\ t <= 10000.
Proof.
  unfold StreamManager._validateStreamParams, StreamManager.MAX_TAX_BPS.
  intros E. inv_ok.
  repeat match goal with
  | Hc : _ || _ = false |- _ => apply orb_false_iff in Hc as [? ?]
  | Hc : (_ =? _) = false |- _ => apply N.eqb_neq in Hc
  | Hc : (_ <? _) = false |- _ => apply N.ltb_ge in Hc
  end.
  repeat split; try assumption. lia.
Qed.

Lemma same_params_refl (s : Stream) : same_params s s.
Proof. unfold same_params. auto. Qed.

Lemma evolves_refl (m : ManagerState) : evolves m m.
Proof.
  unfold evolves. split; [lia|]. split.
  - intros i s Hi. exists s. split; [exact Hi|].
    split; [apply same_params_refl | now left].
  - intros i s Hi Hn. congruence.
Qed.

Lemma evolves_trans (m1 m2 m3 : ManagerState) :
  evolves m1 m2 -> evolves m2 m3 -> evolves m1 m3.
Proof.
  intros (Hn & Hk & Hc) (Hn' & Hk' & Hc'). split; [lia|]. split.
  - intros i s Hi.
    destruct (Hk i s Hi) as (s2 & Hi2 & (He & Hr & Ht) & Hcp).
    destruct (Hk' i s2 Hi2) as (s3 & Hi3 & (He' & Hr' & Ht') & Hcp').
    exists s3. split; [exact Hi3|]. split.
    + unfold same_params. repeat split; congruence.
    + destruct Hcp' as [Hcp'|Hcp']; [|now right].
      destruct Hcp as [Hcp|Hcp]; [left; congruence | right; congruence].
  - intros i s3 Hi3 Hn1.
    destruct (streams m2 !! i) as [s2|] eqn:Hi2.
    + destruct (Hc i s2 Hi2 Hn1) as (Hle & He & Hr0 & Hr1 & Ht & Hcp).
      split; [exact Hle|].
      destruct (Hk' i s2 Hi2) as (s3' & Hi3' & (He' & Hr' & Ht') & Hcp').
      assert (s3' = s3) as -> by congruence.
      unfold valid_stream. rewrite He', Hr', Ht'.
      repeat split; try assumption.
      destruct Hcp' as [Hcp'|Hcp']; [congruence | exact Hcp'].
    + destruct (Hc' i s3 Hi3 Hi2) as (Hle & Hval). split; [lia | exact Hval].
Qed.

Lemma evolves_same (m m' : ManagerState) :
  nextStreamId m' = nextStreamId m -> streams m' = streams m -> evolves m m'.
Proof.
  intros Hn Hs. unfold evolves. rewrite Hn, Hs. apply (evolves_refl m).
Qed.

Lemma evolves_update (m : ManagerState) (i : N) (s' : Stream) :
  active (stream_of m i) = true ->
  same_params (stream_of m i) s' ->
  lastCheckpoint s' = lastCheckpoint (stream_of m i)
  \/ lastCheckpoint s' < 2 ^ 64 ->
  evolves m (set_stream i s' m).
Proof.
  unfold stream_of. intros Ha Hp Hcp.
  destruct (streams m !! i) as [s0|] eqn:Hi; [|discriminate Ha].
  simpl in *. unfold evolves. simpl. split; [lia|]. split.
  - intros j s Hj. rewrite lookup_insert.
    destruct (decide (i = j)) as [<-|].
    + exists s'. assert (s = s0) as -> by congruence. auto.
    + exists s. split; [exact Hj|]. split; [apply same_params_refl|now left].
  - intros j s Hj Hn. rewrite lookup_insert in Hj.
    destruct (decide (i = j)) as [<-|]; congruence.
Qed.

Lemma evolves_create (m : ManagerState) (s : Stream) :
  ids_bounded m -> valid_stream s ->
  evolves m
    (set_stream (nextStreamId m) s (set_nextStreamId (nextStreamId m + 1) m)).
Proof.
  intros Hb Hv. unfold evolves. simpl. split; [lia|]. split.
  - intros i s0 Hi. exists s0. rewrite lookup_insert.
    destruct (decide (nextStreamId m = i)) as [<-|].
    + rewrite Hb in Hi by lia. discriminate.
    + split; [exact Hi|]. split; [apply same_params_refl | now left].
  - intros i s' Hi Hn. rewrite lookup_insert in Hi.
    destruct (decide (nextStreamId m = i)) as [<-|]; [|congruence].
    split; [lia|]. congruence.
Qed.

Lemma store_new_stream_evolves (checkpoint : N) (e : address) (r t : N)
  (u : unit) (w w' : World) :
  ids_bounded (manager w) ->
  StreamManager._validateStreamParams e r t = Ok u ->
  checkpoint < 2 ^ 64 ->
  StreamManager.store_new_stream checkpoint e r t w = Ok w' ->
  evolves (manager w) (manager w').
Proof.
  intros Hb Hv Hcp E. apply validate_Ok in Hv as (He & Hr0 & Hr1 & Ht).
  unfold StreamManager.store_new_stream in E. inv_ok. subst. simpl.
  apply evolves_create; [exact Hb|].
  unfold valid_stream. simpl. repeat split; assumption.
Qed.

Lemma batch_loop_evolves (checkpoint : N) (inputs : list StreamInput) :
  checkpoint < 2 ^ 64 ->
  forall w w',
    ids_bounded (manager w) ->
    StreamManager.batch_loop checkpoint inputs w = Ok w' ->
    evolves (manager w) (manager w').
Proof.
  intros Hcp.
  induction inputs as [|inp rest IH]; simpl; intros w w' Hb E.
  - inv_ok. subst. apply evolves_refl.
  - inv_ok.
    match goal with
    | Hv : StreamManager._validateStreamParams _ _ _ = Ok _,
      Hs : StreamManager.store_new_stream _ _ _ _ _ = Ok ?w1 |- _ =>
        pose proof (store_new_stream_evolves _ _ _ _ _ _ _ Hb Hv Hcp Hs);
        apply store_new_stream_no_regress in Hs as (_ & _ & _ & Hb1)
    end.
    eapply evolves_trans; [eassumption|]. apply IH; [|assumption]. auto.
Qed.

Lemma settled_params (now : N) (s : Stream) : same_params s (settled now s).
Proof.
  unfold same_params, settled.
  destruct (StreamManager.bonus_claimable now s); auto.
Qed.

Lemma executeWithdraw_evolves (now streamId : N) (w w' : World) :
  StreamManager._executeWithdraw now streamId w = Ok w' ->
  evolves (manager w) (manager w').
Proof.
  intros E. apply executeWithdraw_Ok in E as (Ha & _ & _ & _ & _ & -> & _).
  apply evolves_update; [exact Ha | apply settled_params|].
  right. apply uint64_lt.
Qed.

Section Streams.
Context `{Eip712}.

Lemma exec_evolves (c : call) (sender : address) (now : N) (w w' : World) :
  ids_bounded (manager w) ->
  exec c sender now w = Ok w' -> evolves (manager w) (manager w').
Proof.
  intros Hb E. destruct c; simpl in E.
  - apply depositTreasury_state in E
      as (_ & _ & r & r2 & w3 & Et & Ea & Ed & ->).
    apply token_transferFrom_Ok in Et as (Hm1 & _).
    apply token_approve_Ok in Ea as (Hm2 & _).
    apply vault_deposit_Ok in Ed.
    change (manager (emit [TreasuryDeposited sender amount] w3))
      with (manager w3).
    apply evolves_same; congruence.
  - apply depositSponsorshipPool_effect in E as (_ & _ & -> & _).
    now apply evolves_same.
  - unfold StreamManager.createStream in E. inv_ok.
    eapply store_new_stream_evolves; eauto using uint64_lt.
  - unfold StreamManager.batchCreateStreams in E. inv_ok.
    eapply batch_loop_evolves; eauto using uint64_lt.
  - unfold StreamManager.scheduleBonus in E. inv_ok. subst w'. simpl.
    apply evolves_update.
    + match goal with
      | Hc : negb _ = false |- _ => now apply negb_false_iff in Hc
      end.
    + unfold same_params. auto.
    + now left.
  - apply pauseStream_Ok in E as (Ha & _ & ->). simpl.
    apply evolves_update; [exact Ha | unfold same_params; auto|].
    right. apply uint64_lt.
  - apply resumeStream_Ok in E as (Ha & _ & ->). simpl.
    apply evolves_update; [exact Ha | unfold same_params; auto|].
    right. apply uint64_lt.
  - apply cancelStream_Ok in E as (Ha & ->). simpl.
    apply evolves_update; [exact Ha | unfold same_params; auto|].
    right. apply uint64_lt.
  - unfold StreamManager.withdraw in E. now apply executeWithdraw_evolves in E.
  - apply withdrawSigned_Ok in E as (_ & _ & _ & w2 & E2 & _ & Hm & _).
    apply executeWithdraw_evolves in E2. simpl in E2.
    eapply evolves_trans; [|eapply evolves_trans; [exact E2|]].
    + now apply evolves_same.
    + rewrite Hm. destruct (0 <? relayerFee);
        [now apply evolves_same | apply evolves_refl].
  - unfold Ownable.transferOwnership in E. inv_ok. subst w'.
    now apply evolves_same.
  - unfold Ownable.renounceOwnership in E. inv_ok. subst w'.
    now apply evolves_same.
Qed.

Lemma step_evolves (w w' : World) :
  ids_bounded (manager w) -> step w w' -> evolves (manager w) (manager w').
Proof.
  intros Hb Hs. revert Hb.
  destruct Hs as [c sender now w0|w0 t v o evs]; intros Hb.
  - unfold transact, commit.
    destruct (exec c sender now w0) as [w1|e] eqn:E.
    + now apply exec_evolves in E.
    + apply evolves_refl.
  - simpl. now apply evolves_same.
Qed.

Lemma steps_evolve (w w' : World) :
  ids_bounded (manager w) -> rtc step w w' ->
  evolves (manager w) (manager w').
Proof.
  intros Hb Hsteps. revert Hb.
  induction Hsteps as [w|w1 w2 w3 Hs _ IH]; intros Hb.
  - apply evolves_refl.
  - eapply evolves_trans; [exact (step_evolves _ _ Hb Hs)|]. apply IH.
    apply step_no_regress in Hs as (_ & _ & _ & Hb2). auto.
Qed.

(** X22. Every stream the manager stores went through the checks of its
    creation, whatever happened to it since: in a world reached from the
    deployment its identifier has been handed out, its employee is not the
    zero address, its rate is positive and at most [MAX_RATE], its tax rate
    is at most 100% and its checkpoint fits 64 bits.  So the tax of a
    withdrawal never exceeds the salary it is taken from. *)
Theorem reachable_streams_valid (w : World) (i : N) (s : Stream) :
  reachable w ->
  streams (manager w) !! i = Some s ->
  i < nextStreamId (manager w)
  /\ valid_stream s
  /\ forall now, spec_tax now s <= spec_accrued now s.
Proof.
  intros Hr Hi.
  pose proof (reachable_ids_bounded _ Hr) as Hb.
  destruct Hr as (w0 & (d & self & dom & h & t & y & E) & Hsteps).
  assert (Hb0 : ids_bounded (manager w0)).
  { unfold manager_constructor in E. inv_ok. intros j _. apply lookup_empty. }
  assert (H0 : streams (manager w0) !! i = None).
  { unfold manager_constructor in E. inv_ok. apply lookup_empty. }
  apply steps_evolve in Hsteps as (_ & _ & Hnew); [|exact Hb0].
  destruct (Hnew i s Hi H0) as (_ & Hval).
  split; [|split; [exact Hval|]].
  - destruct (N.lt_ge_cases i (nextStreamId (manager w))) as [L|L];
      [exact L|].
    rewrite (Hb i L) in Hi. discriminate.
  - intros now. destruct Hval as (_ & _ & _ & Ht & _).
    unfold spec_tax. now apply tax_le_accrued.
Qed.

(** X23. A stream is for good and its terms are fixed: along any run of
    the system from a world reached from the deployment, a stored stream
    stays stored under its identifier, with the employee, the rate and the
    tax rate it was created with. *)
Theorem stream_parameters_fixed (w w' : World) (i : N) (s : Stream) :
  reachable w -> rtc step w w' ->
  streams (manager w) !! i = Some s ->
  exists s',
    streams (manager w') !! i = Some s'
    /\ employee s' = employee s
    /\ ratePerSecond s' = ratePerSecond s
    /\ taxBps s' = taxBps s.
Proof.
  intros Hr Hsteps Hi.
  apply reachable_ids_bounded in Hr.
  apply steps_evolve in Hsteps as (_ & Hk & _); [|exact Hr].
  destruct (Hk i s Hi) as (s' & Hi' & Hp & _).
  exists s'. split; [exact Hi' | exact Hp].
Qed.

(** X24. An identifier not handed out yet names no stream: in a world
    reached from the deployment the views read zero there, a direct
    withdrawal fails with [StreamInactive] and a signed one fails whatever
    the signature. *)
Theorem unknown_stream (w : World) (now streamId : N) :
  reachable w ->
  nextStreamId (manager w) <= streamId ->
  StreamManager.streamInfo streamId w = zeroStream
  /\ StreamManager.accruedSalary now streamId w = Ok 0
  /\ StreamManager.netWithdrawable now streamId w = Ok 0
  /\ StreamManager.withdraw now streamId w = Revert (StreamInactive streamId)
  /\ forall relayer nonce deadline relayerFee signature,
       is_revert (StreamManager.withdrawSigned relayer now streamId nonce
                    deadline relayerFee signature w).
Proof.
  intros Hr Hid. apply reachable_ids_bounded in Hr.
  assert (Hz : stream_at w streamId = zeroStream)
    by (unfold stream_at; now rewrite (Hr streamId Hid)).
  split; [exact Hz|]. split; [|split; [|split]].
  - unfold StreamManager.accruedSalary. rewrite Hz.
    destruct now; reflexivity.
  - unfold StreamManager.netWithdrawable. rewrite Hz.
    destruct now; reflexivity.
  - unfold StreamManager.withdraw, StreamManager._executeWithdraw.
    rewrite Hz. reflexivity.
  - intros relayer nonce deadline fee sig. apply is_revert_not_Ok.
    intros w' E.
    apply withdrawSigned_Ok in E as (_ & _ & _ & w2 & E2 & _).
    apply executeWithdraw_Ok in E2 as (Ha & _).
    change (stream_at (set_manager ?m w) streamId)
      with (default zeroStream (streams m !! streamId)) in Ha.
    simpl in Ha. fold (stream_at w streamId) in Ha. rewrite Hz in Ha.
    discriminate.
Qed.

End Streams.

Lemma reachable_streams_valid_witness :
  valid_stream (stream_at ex_collected 0)
  /\ spec_tax 1400 (stream_at ex_collected 0)
     <= spec_accrued 1400 (stream_at ex_collected 0).
Proof.
  assert (Hreach : reachable (H := example_scheme) ex_collected).
  { exists ex_deployed. split.
    - exists ex_owner, ex_manager, 77, 99, ex_tax, ex_vault. reflexivity.
    - eapply rtc_trans; [apply run_calls_steps|].
      eapply rtc_trans; [apply run_calls_steps|].
      eapply rtc_trans; apply run_calls_steps. }
  destruct (reachable_streams_valid (H := example_scheme) ex_collected 0
              (stream_at ex_collected 0) Hreach) as (_ & Hv & Ht).
  - vm_compute. reflexivity.
  - split; [exact Hv | apply Ht].
Defined.

Lemma stream_parameters_fixed_witness :
  exists s',
    streams (manager ex_collected) !! 0 = Some s'
    /\ employee s' = ex_employee /\ ratePerSecond s' = 1 /\ taxBps s' = 500.
Proof.
  assert (Hreach : reachable (H := example_scheme) ex_funded).
  { exists ex_deployed. split; [|apply run_calls_steps].
    exists ex_owner, ex_manager, 77, 99, ex_tax, ex_vault. reflexivity. }
  apply (stream_parameters_fixed (H := example_scheme) ex_funded ex_collected
           0 (stream_at ex_funded 0) Hreach).
  - eapply rtc_trans; [apply run_calls_steps|].
    eapply rtc_trans; apply run_calls_steps.
  - vm_compute. reflexivity.
Defined.

Lemma unknown_stream_witness :
  StreamManager.accruedSalary 1100 7 ex_funded = Ok 0
  /\ StreamManager.withdraw 1100 7 ex_funded = Revert (StreamInactive 7).
Proof.
  assert (Hreach : reachable (H := example_scheme) ex_funded).
  { exists ex_deployed. split; [|apply run_calls_steps].
    exists ex_owner, ex_manager, 77, 99, ex_tax, ex_vault. reflexivity. }
  destruct (unknown_stream (H := example_scheme) ex_funded 1100 7 Hreach)
    as (_ & Ha & _ & Hw & _).
  - vm_compute. discriminate.
  - split; [exact Ha | exact Hw].
Defined.

(** * The tax vault *)

Lemma and_then_Done {A B : Type} (r : TaxVault.outcome A)
  (k : A -> TaxVault.outcome B) (b : B) :
  TaxVault.and_then r k = TaxVault.Done b ->
  exists a, r = TaxVault.Done a /\ k a = TaxVault.Done b.
Proof. destruct r as [a|f]; simpl; [eauto | discriminate]. Qed.

Lemma below_Done {A : Type} (r : result A) (a : A) :
  TaxVault.below r = TaxVault.Done a -> r = Ok a.
Proof. destruct r; simpl; intros E; [now inversion E | discriminate]. Qed.

Lemma require_Done (c : bool) (f : TaxVault.failure) (u : unit) :
  TaxVault.require c f = TaxVault.Done u -> c = true.
Proof. destruct c; simpl; [reflexivity | discriminate]. Qed.

Ltac inv_done :=
  repeat match goal with
  | E : TaxVault.and_then _ _ = TaxVault.Done _ |- _ =>
      let a := fresh "x" in
      let Ea := fresh "E" in
      apply and_then_Done in E; destruct E as (a & Ea & E)
  | E : TaxVault.below _ = TaxVault.Done _ |- _ => apply below_Done in E
  | E : TaxVault.require _ _ = TaxVault.Done _ |- _ =>
      apply require_Done in E
  | E : TaxVault.Done _ = TaxVault.Done _ |- _ => inversion E; clear E
  end.

Lemma spendAllowance_enough (owner spender : address) (amount : N)
  (t : HLUSD.state) (r : HLUSD.state * list event) :
  HLUSD._spendAllowance owner spender amount t = Ok r ->
  HLUSD.allowance t owner spender = MAX_UINT256
  \/ amount <= HLUSD.allowance t owner spender.
Proof.
  unfold HLUSD._spendAllowance.
  destruct (N.eqb_spec (HLUSD.allowance t owner spender) MAX_UINT256)
    as [Hmax|_]; [now left|].
  intros E. inv_ok. right.
  match goal with
  | Hc : (_ <? _) = false |- _ => now apply N.ltb_ge in Hc
  end.
Qed.

Lemma depositTax_Done (sender : address) (amount : N)
  (w w' : TaxVault.world) :
  TaxVault.depositTax sender amount w = TaxVault.Done w' ->
  let self := TaxVault.t_self (TaxVault.store w) in
  0 < amount
  /\ TaxVault.store w'
     = TaxVault.mkTax self (TaxVault.t_owner (TaxVault.store w))
         (TaxVault.totalTaxCollected (TaxVault.store w) + amount)
  /\ exists r,
       HLUSD._spendAllowance sender self amount (TaxVault.token w) = Ok r
       /\ HLUSD._transfer sender self amount (fst r)
          = Ok (TaxVault.token w')
       /\ TaxVault.log w'
          = TaxVault.log w
            ++ map TaxVault.OfToken (snd r ++ [Transfer sender self amount])
            ++ [TaxVault.TaxReceived sender amount].
Proof.
  intros E self. unfold TaxVault.depositTax in E. fold self in E.
  inv_done. inv_ok.
  repeat match goal with
  | Hc : (_ <? _) = true |- _ => apply N.ltb_lt in Hc
  | Hx : ?x = _ |- _ => is_var x; subst x
  end.
  split; [assumption|]. split; [reflexivity|].
  match goal with
  | Hs : HLUSD._spendAllowance _ _ _ _ = Ok ?r |- _ => exists r
  end.
  repeat split; assumption.
Qed.

Lemma withdrawTax_Done (sender to : address) (amount : N)
  (w w' : TaxVault.world) :
  TaxVault.withdrawTax sender to amount w = TaxVault.Done w' ->
  sender = TaxVault.t_owner (TaxVault.store w)
  /\ TaxVault.store w' = TaxVault.store w
  /\ HLUSD._transfer (TaxVault.t_self (TaxVault.store w)) to amount
       (TaxVault.token w) = Ok (TaxVault.token w').
Proof.
  unfold TaxVault.withdrawTax, onlyOwner. intros E. inv_done. inv_ok.
  repeat match goal with
  | Hc : negb _ = false |- _ => apply negb_false_iff in Hc
  | Hc : (_ =? _) = true |- _ => apply N.eqb_eq in Hc
  | Hx : ?x = _ |- _ => is_var x; subst x
  end.
  repeat split; assumption.
Qed.

(** X25. [depositTax] is open to anybody who has approved the vault: it
    adds the amount to [totalTaxCollected] and pulls exactly that amount
    from the caller into the vault, and refuses a zero amount. *)
Theorem depositTax_counts (sender : address) (amount : N)
  (w w' : TaxVault.world) :
  TaxVault.depositTax sender amount w = TaxVault.Done w' ->
  let self := TaxVault.t_self (TaxVault.store w) in
  0 < amount
  /\ TaxVault.totalTaxCollected (TaxVault.store w')
     = TaxVault.totalTaxCollected (TaxVault.store w) + amount
  /\ (HLUSD.allowance (TaxVault.token w) sender self = MAX_UINT256
      \/ amount <= HLUSD.allowance (TaxVault.token w) sender self)
  /\ amount <= TaxVault.holds w sender
  /\ In (TaxVault.TaxReceived sender amount) (TaxVault.log w')
  /\ (sender <> self ->
      TaxVault.holds w' self = TaxVault.holds w self + amount
      /\ TaxVault.holds w' sender + amount = TaxVault.holds w sender)
  /\ forall who, TaxVault.depositTax who 0 w
                 = TaxVault.Failed TaxVault.TaxZeroAmount.
Proof.
  intros E self.
  apply depositTax_Done in E as (Hpos & Hs & r & Ea & Et & Hl).
  fold self in Hs, Ea, Et, Hl.
  pose proof (spendAllowance_enough _ _ _ _ _ Ea) as Hal.
  apply spendAllowance_balances in Ea as (Hb & _).
  apply transfer_balances in Et as (_ & _ & Hle & _ & Hbal).
  unfold TaxVault.holds, HLUSD.balanceOf in *. rewrite Hb in *.
  split; [exact Hpos|]. split; [now rewrite Hs|]. split; [exact Hal|].
  split; [exact Hle|]. split; [|split; [|reflexivity]].
  - rewrite Hl. apply in_or_app. right. apply in_or_app. right. now left.
  - intros Hne. rewrite !Hbal.
    repeat match goal with
    | |- context [decide (?x = ?y)] => destruct (decide (x = y))
    end; try congruence; split; lia.
Qed.

Lemma depositTax_counts_witness :
  TaxVault.totalTaxCollected (TaxVault.store ex_tax_deposited) = 20
  /\ TaxVault.holds ex_tax_deposited ex_tax = 25
  /\ TaxVault.holds ex_tax_deposited ex_employee + 20 = 95.
Proof.
  destruct (depositTax_counts ex_employee 20 ex_tax_world ex_tax_deposited)
    as (_ & Hc & _ & _ & _ & Hbal & _).
  - vm_compute. reflexivity.
  - destruct Hbal as (Hv & He); [vm_compute; discriminate|].
    split; [exact Hc|]. split; [exact Hv | exact He].
Defined.

Lemma transact_counter (c : TaxVault.call) (sender : address)
  (w : TaxVault.world) :
  let w' := TaxVault.transact c sender w in
  TaxVault.totalTaxCollected (TaxVault.store w')
  = TaxVault.totalTaxCollected (TaxVault.store w)
    + TaxVault.deposited c sender w
  /\ TaxVault.t_self (TaxVault.store w') = TaxVault.t_self (TaxVault.store w)
  /\ TaxVault.t_owner (TaxVault.store w')
     = TaxVault.t_owner (TaxVault.store w).
Proof.
  unfold TaxVault.transact, TaxVault.deposited.
  destruct c as [amount|to amount]; simpl.
  - destruct (TaxVault.depositTax sender amount w) as [w'|f] eqn:E.
    + apply depositTax_Done in E as (_ & -> & _). repeat split; reflexivity.
    + repeat split; try reflexivity. lia.
  - destruct (TaxVault.withdrawTax sender to amount w) as [w'|f] eqn:E.
    + apply withdrawTax_Done in E as (_ & -> & _).
      repeat split; try reflexivity. lia.
    + repeat split; try reflexivity. lia.
Qed.

(** X26. [totalTaxCollected] is a running total, not a balance: after any
    sequence of transactions on the tax vault it is what it was plus the
    amounts of the deposits that went through; no withdrawal takes
    anything off it, and the owner of the vault stays who it was. *)
Theorem totalTaxCollected_cumulative (cs : list (TaxVault.call * address))
  (w : TaxVault.world) :
  TaxVault.totalTaxCollected (TaxVault.store (TaxVault.run cs w))
  = TaxVault.totalTaxCollected (TaxVault.store w)
    + TaxVault.total_deposited cs w
  /\ TaxVault.t_owner (TaxVault.store (TaxVault.run cs w))
     = TaxVault.t_owner (TaxVault.store w).
Proof.
  revert w. induction cs as [|[c sender] rest IH]; intros w; simpl.
  - split; [lia | reflexivity].
  - destruct (IH (TaxVault.transact c sender w)) as (Ht & Ho).
    destruct (transact_counter c sender w) as (Ht1 & _ & Ho1).
    split; [lia | congruence].
Qed.

(** X27. [withdrawTax] is reserved to the owner and limited by the tokens
    the vault holds, not by [totalTaxCollected]: the owner can send any
    positive amount the vault holds to any other account, tokens received
    by a plain transfer included, and the counter stays as it is. *)
Theorem withdrawTax_takes_tokens_held (sender to : address) (amount : N)
  (w : TaxVault.world) :
  let self := TaxVault.t_self (TaxVault.store w) in
  self <> 0 -> to <> 0 -> to <> self ->
  0 < amount -> amount <= TaxVault.holds w self ->
  TaxVault.holds w to + amount <= MAX_UINT256 ->
  (sender <> TaxVault.t_owner (TaxVault.store w) ->
   TaxVault.withdrawTax sender to amount w
   = TaxVault.Failed (TaxVault.FromBelow CallerIsNotTheOwner))
  /\ (sender = TaxVault.t_owner (TaxVault.store w) ->
      exists w',
        TaxVault.withdrawTax sender to amount w = TaxVault.Done w'
        /\ TaxVault.store w' = TaxVault.store w
        /\ TaxVault.holds w' self + amount = TaxVault.holds w self
        /\ TaxVault.holds w' to = TaxVault.holds w to + amount).
Proof.
  intros self Hself Hto Hne Hpos Hle Hfit. split.
  - intros Hs. unfold TaxVault.withdrawTax.
    now rewrite (onlyOwner_other _ _ Hs).
  - intros ->.
    destruct (TaxVault.withdrawTax (TaxVault.t_owner (TaxVault.store w)) to
                amount w) as [w'|f] eqn:E.
    + exists w'. split; [reflexivity|].
      apply withdrawTax_Done in E as (_ & Hs & Et). fold self in Et.
      apply transfer_balances in Et as (_ & _ & _ & _ & Hbal).
      split; [exact Hs|]. unfold TaxVault.holds in *. rewrite !Hbal.
      repeat match goal with
      | |- context [decide (?x = ?y)] => destruct (decide (x = y))
      end; try congruence; split; lia.
    + exfalso. revert E. unfold TaxVault.withdrawTax.
      rewrite onlyOwner_owner. simpl.
      apply N.eqb_neq in Hto. rewrite Hto. simpl.
      apply N.ltb_lt in Hpos. rewrite Hpos. simpl.
      fold self. unfold HLUSD._transfer.
      apply N.eqb_neq in Hself. rewrite Hself, Hto. simpl.
      unfold TaxVault.holds in Hle, Hfit.
      assert ((HLUSD.balanceOf (TaxVault.token w) self <? amount) = false)
        as -> by now apply N.ltb_ge.
      simpl.
      assert (Hb : HLUSD.balanceOf
                     (HLUSD.mk
                        (<[self := HLUSD.balanceOf (TaxVault.token w) self
                                   - amount]>
                           (HLUSD.balances (TaxVault.token w)))
                        (HLUSD.allowances (TaxVault.token w))) to
                   = HLUSD.balanceOf (TaxVault.token w) to).
      { unfold HLUSD.balanceOf. simpl. now rewrite lookup_insert_ne. }
      rewrite Hb, checked_add_fits by exact Hfit. simpl. discriminate.
Qed.

Lemma withdrawTax_takes_tokens_held_witness :
  TaxVault.totalTaxCollected (TaxVault.store ex_tax_world) = 0
  /\ (exists w',
        TaxVault.withdrawTax ex_owner ex_owner 5 ex_tax_world
        = TaxVault.Done w'
        /\ TaxVault.totalTaxCollected (TaxVault.store w') = 0
        /\ TaxVault.holds w' ex_owner = 5)
  /\ TaxVault.withdrawTax ex_employee ex_owner 5 ex_tax_world
     = TaxVault.Failed (TaxVault.FromBelow CallerIsNotTheOwner).
Proof.
  split; [reflexivity|].
  destruct (withdrawTax_takes_tokens_held ex_owner ex_owner 5 ex_tax_world)
    as (_ & Hown);
    [vm_compute; discriminate | vm_compute; discriminate
    | vm_compute; discriminate | vm_compute; reflexivity
    | vm_compute; discriminate | vm_compute; discriminate|].
  destruct (withdrawTax_takes_tokens_held ex_employee ex_owner 5 ex_tax_world)
    as (Hother & _);
    [vm_compute; discriminate | vm_compute; discriminate
    | vm_compute; discriminate | vm_compute; reflexivity
    | vm_compute; discriminate | vm_compute; discriminate|].
  split.
  - destruct (Hown eq_refl) as (w' & E & Hs & _ & Ho).
    exists w'. split; [exact E|]. split; [now rewrite Hs | exact Ho].
  - apply Hother. vm_compute. discriminate.
Defined.
